(** * Receipt field extraction: a shallow embedding of [app/ocr.py] and of the
    record assembly of [app/main.py].

    Python [str] values are sequences of Unicode code points; the regular
    expressions of [ocr.py] are kept as syntax trees and run by a
    backtracking matcher with the priorities of Python's [re] module
    (leftmost start, alternatives in order, greedy repetition).  Amounts are
    binary64 floats of the kernel: [float] reads a literal as the double
    nearest to it, and [max] compares doubles.

    Around it stand the camera command of [app/camera.py], the receipts
    table of [app/models.py] as a list of rows under the statements the
    functions send to SQLite, the routes of [app/main.py] that edit and
    remove a receipt, and the battery monitor of [app/battery_monitor.py]
    over binary64 floats. *)

From Corelib Require Import PrimFloat.
From Corelib Require FloatOps FloatAxioms.
From Stdlib Require Import String Ascii.
From Stdlib Require Import List Bool Arith NArith ZArith QArith Lia.
Import ListNotations.
Close Scope Q_scope.
Open Scope nat_scope.

Set Implicit Arguments.

(** ** Code points and string literals *)

Module Unicode.

Definition cp := N.
Definition str := list cp.

(** Source files are UTF-8: a literal of the Python source is decoded from
    its bytes ([£] is the two bytes C2 A3, the code point 163). *)
Fixpoint utf8_decode (bs : list N) : str :=
  match bs with
  | [] => []
  | b0 :: t0 =>
    if (b0 <? 128)%N then b0 :: utf8_decode t0
    else if (b0 <? 224)%N then
      match t0 with
      | b1 :: t1 => ((b0 - 192) * 64 + (b1 - 128))%N :: utf8_decode t1
      | _ => []
      end
    else if (b0 <? 240)%N then
      match t0 with
      | b1 :: b2 :: t2 =>
        ((b0 - 224) * 4096 + (b1 - 128) * 64 + (b2 - 128))%N :: utf8_decode t2
      | _ => []
      end
    else
      match t0 with
      | b1 :: b2 :: b3 :: t3 =>
        ((b0 - 240) * 262144 + (b1 - 128) * 4096 + (b2 - 128) * 64 + (b3 - 128))%N
          :: utf8_decode t3
      | _ => []
      end
  end.

Definition u (s : string) : str :=
  utf8_decode (map N_of_ascii (list_ascii_of_string s)).

(** First code points of the runs of ten decimal digits (category Nd,
    Unicode 14, the table of CPython 3.11): [\d], [int] and [float] accept
    exactly these, each digit with the value of its offset in its run. *)
Definition Nd_zeros : list N :=
  [48; 1632; 1776; 1984; 2406; 2534; 2662; 2790; 2918; 3046; 3174; 3302;
   3430; 3558; 3664; 3792; 3872; 4160; 4240; 6112; 6160; 6470; 6608; 6784;
   6800; 6992; 7088; 7232; 7248; 42528; 43216; 43264; 43472; 43504; 43600;
   44016; 65296; 66720; 68912; 69734; 69872; 69942; 70096; 70384; 70736;
   70864; 71248; 71360; 71472; 71904; 72016; 72784; 73040; 73120; 92768;
   92864; 93008; 120782; 120792; 120802; 120812; 120822; 123200; 123632;
   125264; 130032]%N.

Definition decimal_value (c : cp) : option N :=
  match find (fun z => (z <=? c) && (c <? z + 10))%N Nd_zeros with
  | Some z => Some (c - z)%N
  | None => None
  end.

Definition isdecimal (c : cp) : bool :=
  match decimal_value c with Some _ => true | None => false end.

(** [str.isspace] on one code point, which is also the class [\s]. *)
Definition isspace (c : cp) : bool :=
  ((9 <=? c) && (c <=? 13) || (28 <=? c) && (c <=? 32) || (c =? 133)
   || (c =? 160) || (c =? 5760) || (8192 <=? c) && (c <=? 8202)
   || (c =? 8232) || (c =? 8233) || (c =? 8239) || (c =? 8287)
   || (c =? 12288))%N.

(** [0-9], [A-Za-z]: the ranges written out in the patterns are ASCII. *)
Definition in_range (lo hi : N) (c : cp) : bool := ((lo <=? c) && (c <=? hi))%N.
Definition ascii_digit : cp -> bool := in_range 48 57.
Definition ascii_letter (c : cp) : bool := in_range 65 90 c || in_range 97 122 c.

Definition ascii_lower (c : cp) : cp := if in_range 65 90 c then (c + 32)%N else c.

(** A literal character under [re.IGNORECASE]: both cases of an ASCII letter
    and, for i, k and s, the code points the [re] module folds onto them
    (U+0130, U+0131; U+212A; U+017F). *)
Definition ieq (pat c : cp) : bool :=
  (ascii_lower c =? ascii_lower pat)%N
  || (ascii_lower pat =? 105)%N && ((c =? 304) || (c =? 305))%N
  || (ascii_lower pat =? 107)%N && (c =? 8490)%N
  || (ascii_lower pat =? 115)%N && (c =? 383)%N.

Definition str_eqb (a b : str) : bool :=
  if list_eq_dec N.eq_dec a b then true else false.

End Unicode.
Export Unicode.

(** ** The fragment of [re] the patterns use *)

Module Re.

Inductive regex : Type :=
| Eps
| Chr (p : cp -> bool)
| Cat (r1 r2 : regex)
| Alt (r1 r2 : regex)
| Rep (p : cp -> bool) (lo : nat) (hi : option nat)
| Grp (i : nat) (r : regex).

(** Captured groups, most recent first. *)
Definition groups := list (nat * str).

Fixpoint group (i : nat) (g : groups) : option str :=
  match g with
  | [] => None
  | (j, w) :: g' => if Nat.eqb i j then Some w else group i g'
  end.

(** The text consumed between a string and one of its suffixes. *)
Definition taken (s rest : str) : str := firstn (length s - length rest) s.

Definition may_take (hi : option nat) : bool :=
  match hi with Some O => false | _ => true end.

(** Greedy repetition of a character class, between [lo] and [hi] times:
    one more character is tried first, and given up when the rest of the
    pattern fails behind it. *)
Fixpoint rep {A} (p : cp -> bool) (lo : nat) (hi : option nat) (s : str)
  (k : str -> option A) : option A :=
  let stop := match lo with O => k s | S _ => None end in
  match s with
  | c :: s' =>
    if p c && may_take hi then
      match rep p (pred lo) (option_map pred hi) s' k with
      | Some x => Some x
      | None => stop
      end
    else stop
  | [] => stop
  end.

(** The matcher, in continuation-passing style: [k] runs the rest of the
    pattern, and a [None] from it makes the matcher try its next choice. *)
Fixpoint exec {A} (r : regex) (s : str) (g : groups)
  (k : str -> groups -> option A) : option A :=
  match r with
  | Eps => k s g
  | Chr p =>
    match s with
    | c :: s' => if p c then k s' g else None
    | [] => None
    end
  | Cat r1 r2 => exec r1 s g (fun s1 g1 => exec r2 s1 g1 k)
  | Alt r1 r2 =>
    match exec r1 s g k with
    | Some x => Some x
    | None => exec r2 s g k
    end
  | Rep p lo hi => rep p lo hi s (fun s' => k s' g)
  | Grp i r1 => exec r1 s g (fun s1 g1 => k s1 ((i, taken s s1) :: g1))
  end.

(** [pattern.match] at the head of [s]: the remaining text and the groups. *)
Definition match_here (r : regex) (s : str) : option (str * groups) :=
  exec r s [] (fun s' g => Some (s', g)).

(** A match object: where it starts, its text (group 0) and its groups. *)
Record Match : Type := mkMatch { m_start : nat; m_text : str; m_groups : groups }.

(** [m.group(i)].  A group that took no part in the match is None in
    Python; the patterns of [ocr.py] set every group that the code reads. *)
Definition m_group (i : nat) (m : Match) : str :=
  match i with
  | O => m_text m
  | _ => match group i (m_groups m) with Some w => w | None => [] end
  end.

(** [pattern.search]: the match at the leftmost position that has one. *)
Fixpoint search_from (r : regex) (s : str) (pos : nat) : option Match :=
  match match_here r s with
  | Some (rest, g) => Some (mkMatch pos (taken s rest) g)
  | None =>
    match s with
    | [] => None
    | _ :: s' => search_from r s' (S pos)
    end
  end.

Definition search (r : regex) (s : str) : option Match := search_from r s 0.

(** [pattern.finditer]: successive matches, each search starting where the
    previous match ended; [skip] counts the characters of the last match
    still to step over. *)
Fixpoint finditer_from (r : regex) (s : str) (pos skip : nat) {struct s}
  : list Match :=
  match skip with
  | S n =>
    match s with
    | [] => []
    | _ :: s' => finditer_from r s' (S pos) n
    end
  | O =>
    match match_here r s with
    | Some (rest, g) =>
      mkMatch pos (taken s rest) g ::
      match s with
      | [] => []
      | _ :: s' => finditer_from r s' (S pos) (pred (length s - length rest))
      end
    | None =>
      match s with
      | [] => []
      | _ :: s' => finditer_from r s' (S pos) 0
      end
    end
  end.

Definition finditer (r : regex) (s : str) : list Match := finditer_from r s 0 0.

(** [re.findall] for a pattern without groups: the matched texts. *)
Definition findall (r : regex) (s : str) : list str := map m_text (finditer r s).

(** Building blocks for the patterns. *)
Definition chr_of (c : cp) : regex := Chr (N.eqb c).
Definition one_of (cs : str) : cp -> bool := fun c => existsb (N.eqb c) cs.

Fixpoint lit (eq : cp -> cp -> bool) (w : str) : regex :=
  match w with
  | [] => Eps
  | [c] => Chr (eq c)
  | c :: w' => Cat (Chr (eq c)) (lit eq w')
  end.

Fixpoint alts (rs : list regex) : regex :=
  match rs with
  | [] => Chr (fun _ => false)
  | [r] => r
  | r :: rs' => Alt r (alts rs')
  end.

Fixpoint cats (rs : list regex) : regex :=
  match rs with
  | [] => Eps
  | [r] => r
  | r :: rs' => Cat r (cats rs')
  end.

(** The words of a pattern, without priorities. *)
Definition in_bounds (lo : nat) (hi : option nat) (n : nat) : Prop :=
  lo <= n /\ match hi with Some h => n <= h | None => True end.

Inductive lang : regex -> str -> Prop :=
| L_eps : lang Eps []
| L_chr p c : p c = true -> lang (Chr p) [c]
| L_cat r1 r2 w1 w2 : lang r1 w1 -> lang r2 w2 -> lang (Cat r1 r2) (w1 ++ w2)
| L_alt_l r1 r2 w : lang r1 w -> lang (Alt r1 r2) w
| L_alt_r r1 r2 w : lang r2 w -> lang (Alt r1 r2) w
| L_rep p lo hi w :
    forallb p w = true -> in_bounds lo hi (length w) -> lang (Rep p lo hi) w
| L_grp i r w : lang r w -> lang (Grp i r) w.

End Re.
Export Re.

(** ** Python builtins and the parts of [datetime] that [ocr.py] calls *)

Module Py.

Inductive exn : Type :=
| ValueError
| IndexError
| UnidentifiedImageError.

(** A call either returns or raises. *)
Inductive result (A : Type) : Type :=
| Ok (a : A)
| Raise (e : exn).
Arguments Ok {A} a.
Arguments Raise {A} e.

Definition bind {A B} (x : result A) (f : A -> result B) : result B :=
  match x with
  | Ok a => f a
  | Raise e => Raise e
  end.

Notation "x <- c1 ;; c2" := (bind c1 (fun x => c2))
  (at level 61, c1 at next level, right associativity).

(** A list comprehension [[f(x) for x in xs]]: the first raise aborts it. *)
Fixpoint comprehension {A B} (f : A -> result B) (xs : list A) : result (list B) :=
  match xs with
  | [] => Ok []
  | x :: xs' => y <- f x ;; ys <- comprehension f xs' ;; Ok (y :: ys)
  end.

Fixpoint dropwhile {A} (p : A -> bool) (l : list A) : list A :=
  match l with
  | [] => []
  | x :: l' => if p x then dropwhile p l' else l
  end.

Fixpoint takewhile {A} (p : A -> bool) (l : list A) : list A :=
  match l with
  | [] => []
  | x :: l' => if p x then x :: takewhile p l' else []
  end.

(** [str.strip()] *)
Definition lstrip (s : str) : str := dropwhile isspace s.
Definition strip (s : str) : str := rev (lstrip (rev (lstrip s))).

(** [s.replace(",", "")] *)
Definition remove_commas (s : str) : str := filter (fun c => negb (c =? 44)%N) s.

(** [str.lower()] on Basic Latin and on the code points that IGNORECASE folds
    onto it; U+0130 lowers to two code points. *)
Definition lower_cp (c : cp) : str :=
  if (c =? 304)%N then [105; 775]%N
  else if (c =? 8490)%N then [107]%N
  else [ascii_lower c].
Definition lower (s : str) : str := flat_map lower_cp s.

(** [str.splitlines()]: the line boundaries of the str type; CR LF is one. *)
Definition is_linebreak (c : cp) : bool :=
  ((10 <=? c) && (c <=? 13) || (28 <=? c) && (c <=? 30) || (c =? 133)
   || (c =? 8232) || (c =? 8233))%N.

Fixpoint splitlines_aux (s : str) (cur : str) : list str :=
  match s with
  | [] => match cur with [] => [] | _ => [rev cur] end
  | c :: s' =>
    if (c =? 13)%N then
      match s' with
      | d :: s'' =>
        if (d =? 10)%N then rev cur :: splitlines_aux s'' []
        else rev cur :: splitlines_aux s' []
      | [] => rev cur :: splitlines_aux s' []
      end
    else if is_linebreak c then rev cur :: splitlines_aux s' []
    else splitlines_aux s' (c :: cur)
  end.
Definition splitlines (s : str) : list str := splitlines_aux s [].

(** The number written by a run of decimal digits. *)
Definition digits_value (w : str) : N :=
  fold_left (fun acc c =>
    (acc * 10 + match decimal_value c with Some d => d | None => 0 end)%N) w 0%N.

Fixpoint pow10 (k : nat) : positive :=
  match k with O => 1%positive | S k' => (10 * pow10 k')%positive end.

(** A Python float is a binary64 number of the kernel. *)
Definition pyfloat := PrimFloat.float.

(** [num / den] rounded to an integer, halves to the even neighbour. *)
Definition half_even (num den : Z) : Z :=
  let q := (num / den)%Z in
  match (2 * (num mod den) ?= den)%Z with
  | Lt => q
  | Gt => (q + 1)%Z
  | Eq => if Z.even q then q else (q + 1)%Z
  end.

(** [num / den / 2^e] as a fraction of integers. *)
Definition over_power (num den e : Z) : Z * Z :=
  if (0 <=? e)%Z then (num, den * 2 ^ e)%Z else (num * 2 ^ (- e), den)%Z.

(** The double nearest to [num / den], for [num] not negative and [den]
    positive, halves to the even mantissa, as the conversion of CPython
    rounds a literal: a mantissa of 53 bits in the normal range, a multiple
    of 2^-1074 below it (0.0 for a quotient of at most 2^-1075), and
    infinity from 2^1024 - 2^970 on. *)
Definition nearest_double (num den : Z) : pyfloat :=
  let e0 := (Z.log2 num - Z.log2 den - 52)%Z in
  let m0 := (let (n, d) := over_power num den e0 in n / d)%Z in
  let e := if (2 ^ 53 <=? m0)%Z then (e0 + 1)%Z
           else if (m0 <? 2 ^ 52)%Z then (e0 - 1)%Z else e0 in
  let e := Z.max e (-1074) in
  let (n, d) := over_power num den e in
  FloatOps.Z.ldexp (PrimFloat.of_uint63 (Uint63Axioms.of_Z (half_even n d))) e.

(** [float(s)] on the strings [extract_amounts] builds, which hold decimal
    digits and full stops only ([float_argument_alphabet] below): after
    stripping, digits with at most one point and a digit on one side of it,
    read as the double nearest to the number written; every other string of
    that alphabet raises ValueError.  Signs, exponents, underscores, inf and
    nan, which no caller can pass, are not modelled and raise here. *)
Definition float (s : str) : result pyfloat :=
  let s := strip s in
  let ip := takewhile isdecimal s in
  match dropwhile isdecimal s with
  | [] =>
    match ip with
    | [] => Raise ValueError
    | _ => Ok (nearest_double (Z.of_N (digits_value ip)) 1)
    end
  | c :: fr =>
    if (c =? 46)%N && forallb isdecimal fr
       && negb (Nat.eqb (length ip + length fr) 0)
    then Ok (nearest_double (Z.of_N (digits_value (ip ++ fr)))
                            (Zpos (pow10 (length fr))))
    else Raise ValueError
  end.

(** [int(s)] on digit strings (a group of a strptime pattern, possibly with a
    leading space). *)
Definition int (s : str) : result N :=
  let s := strip s in
  match s with
  | [] => Raise ValueError
  | _ => if forallb isdecimal s then Ok (digits_value s) else Raise ValueError
  end.

(** [x > y] between rationals (the angle of the deskew). *)
Definition Qgtb (x y : Q) : bool := negb (Qle_bool x y).

(** [max(xs)]: an element replaces the best so far when it is greater, so
    the first of the greatest elements is returned; ValueError on []. *)
Definition max (xs : list pyfloat) : result pyfloat :=
  match xs with
  | [] => Raise ValueError
  | x :: xs' =>
    Ok (fold_left (fun best y => if PrimFloat.ltb best y then y else best) xs' x)
  end.

(** *** datetime.date *)

Record date : Type := mkDate { year : N; month : N; day : N }.

Definition is_leap (y : N) : bool :=
  ((y mod 4 =? 0) && (negb (y mod 100 =? 0) || (y mod 400 =? 0)))%N.

Definition days_in_month (y m : N) : N :=
  (if m =? 2 then (if is_leap y then 29 else 28)
   else if (m =? 4) || (m =? 6) || (m =? 9) || (m =? 11) then 30
   else 31)%N.

(** The constructor [date(year, month, day)] checks its arguments. *)
Definition new_date (y m d : N) : result date :=
  if ((1 <=? y) && (y <=? 9999) && (1 <=? m) && (m <=? 12)
      && (1 <=? d) && (d <=? days_in_month y m))%N
  then Ok (mkDate y m d)
  else Raise ValueError.

(** The decimal digits of a number, most significant first. *)
Fixpoint digits_aux (fuel : nat) (n : N) (acc : str) : str :=
  match fuel with
  | O => acc
  | S f =>
    let acc' := (48 + n mod 10)%N :: acc in
    if (n / 10 =? 0)%N then acc' else digits_aux f (n / 10)%N acc'
  end.
Definition str_of_N (n : N) : str := digits_aux (S (N.to_nat (N.log2 n))) n [].

(** ["%0wd" % n] *)
Definition zero_pad (w : nat) (n : N) : str :=
  let ds := str_of_N n in repeat 48%N (w - length ds) ++ ds.

(** [date.isoformat()] *)
Definition isoformat (d : date) : str :=
  zero_pad 4 (year d) ++ [45%N] ++ zero_pad 2 (month d) ++ [45%N] ++ zero_pad 2 (day d).

(** *** datetime.strptime, as [_strptime.py] builds it *)

(** Month names of the C (English) locale, [LocaleTime.f_month] and
    [a_month]; index 0 is the empty string. *)
Definition f_month : list str :=
  map u [""; "january"; "february"; "march"; "april"; "may"; "june"; "july";
         "august"; "september"; "october"; "november"; "december"]%string.
Definition a_month : list str :=
  map u [""; "jan"; "feb"; "mar"; "apr"; "may"; "jun"; "jul"; "aug"; "sep";
         "oct"; "nov"; "dec"]%string.

(** [sorted(names, key=len, reverse=True)], a stable sort. *)
Fixpoint insert_by_len (x : str) (l : list str) : list str :=
  match l with
  | [] => [x]
  | y :: l' => if length y <=? length x then x :: l else y :: insert_by_len x l'
  end.
Definition sorted_by_len_desc (l : list str) : list str :=
  fold_right insert_by_len [] l.

(** Group numbers standing for the named groups Y, m, d, B and b. *)
Definition gY := 1.
Definition gm := 2.
Definition gd := 3.
Definition gB := 4.
Definition gb := 5.

(** [TimeRE.__seqToRE] *)
Definition seqToRE (names : list str) (i : nat) : regex :=
  Grp i (alts (map (lit ieq) (sorted_by_len_desc (tl names)))).

Definition rng (a b : string) : cp -> bool :=
  match u a, u b with
  | [lo], [hi] => in_range lo hi
  | _, _ => fun _ => false
  end.
Definition ch (a : string) : regex := lit N.eqb (u a).

(** The regular expression of one directive: %d is
    [3[0-1]|[1-2]\d|0[1-9]|[1-9]| [1-9]], %m is [1[0-2]|0[1-9]|[1-9]], %Y is
    [\d\d\d\d]; other directives are not needed by the formats of
    [extract_date] and are left out. *)
Definition directive (d : cp) : option regex :=
  if (d =? 100)%N then
    Some (Grp gd (alts [Cat (ch "3") (Chr (rng "0" "1"));
                        Cat (Chr (rng "1" "2")) (Chr isdecimal);
                        Cat (ch "0") (Chr (rng "1" "9"));
                        Chr (rng "1" "9");
                        Cat (ch " ") (Chr (rng "1" "9"))]))
  else if (d =? 109)%N then
    Some (Grp gm (alts [Cat (ch "1") (Chr (rng "0" "2"));
                        Cat (ch "0") (Chr (rng "1" "9"));
                        Chr (rng "1" "9")]))
  else if (d =? 89)%N then
    Some (Grp gY (cats [Chr isdecimal; Chr isdecimal; Chr isdecimal; Chr isdecimal]))
  else if (d =? 66)%N then Some (seqToRE f_month gB)
  else if (d =? 98)%N then Some (seqToRE a_month gb)
  else None.

(** [TimeRE.pattern]: a run of white space of the format stands for [\s+],
    a directive for its expression, any other character for itself (the
    pattern is compiled with IGNORECASE). *)
Fixpoint pattern (fmt : str) (in_space : bool) : option regex :=
  match fmt with
  | [] => Some Eps
  | c :: fmt' =>
    if isspace c then
      match pattern fmt' true with
      | Some r => Some (if in_space then r else Cat (Rep isspace 1 None) r)
      | None => None
      end
    else if (c =? 37)%N then
      match fmt' with
      | d :: fmt'' =>
        match directive d, pattern fmt'' false with
        | Some rd, Some r => Some (Cat rd r)
        | _, _ => None
        end
      | [] => None
      end
    else
      match pattern fmt' false with
      | Some r => Some (Cat (Chr (ieq c)) r)
      | None => None
      end
  end.

Fixpoint index_of (w : str) (l : list str) (i : N) : result N :=
  match l with
  | [] => Raise ValueError
  | x :: l' => if str_eqb x w then Ok i else index_of w l' (i + 1)%N
  end.

(** [datetime.strptime(data, fmt).date()] for formats made of %Y, %m, %d, %B
    and %b: the pattern must match at the start and use up the string; the
    fields are read from the groups (year 1900, month 1, day 1 when absent)
    and checked by the date constructor.  Every failure is a ValueError. *)
Definition strptime (data fmt : str) : result date :=
  match pattern fmt false with
  | None => Raise ValueError
  | Some r =>
    match match_here r data with
    | None => Raise ValueError
    | Some (_ :: _, _) => Raise ValueError
    | Some ([], g) =>
      y <- match group gY g with Some w => int w | None => Ok 1900%N end ;;
      m <- match group gm g, group gB g, group gb g with
           | Some w, _, _ => int w
           | None, Some w, _ => index_of (lower w) f_month 0
           | None, None, Some w => index_of (lower w) a_month 0
           | None, None, None => Ok 1%N
           end ;;
      d <- match group gd g with Some w => int w | None => Ok 1%N end ;;
      new_date y m d
    end
  end.

(** *** Values, dictionaries and truthiness *)

Inductive value : Type :=
| VNone
| VStr (s : str)
| VFloat (x : pyfloat).

Definition truthy (v : value) : bool :=
  match v with
  | VNone => false
  | VStr [] => false
  | VStr _ => true
  | VFloat x => negb (PrimFloat.eqb x 0%float)
  end.

(** [a or b] *)
Definition or_else (a b : value) : value := if truthy a then a else b.

(** A dict with string keys, in insertion order. *)
Definition dict := list (string * value).

(** [d.get(k)], None when the key is absent. *)
Fixpoint get (d : dict) (k : string) : value :=
  match d with
  | [] => VNone
  | (k', v) :: d' => if String.eqb k k' then v else get d' k
  end.

Definition has_key (d : dict) (k : string) : bool :=
  existsb (fun kv => String.eqb k (fst kv)) d.

Definition of_opt_str (o : option str) : value :=
  match o with Some s => VStr s | None => VNone end.
Definition of_opt_float (o : option pyfloat) : value :=
  match o with Some x => VFloat x | None => VNone end.

End Py.
Export Py.

(** ** [app/ocr.py] *)

Module Ocr.

Open Scope string_scope.
Open Scope list_scope.
Open Scope nat_scope.

(** [CURRENCY_REGEX = ([$€£]|USD|EUR|GBP)] *)
Definition CURRENCY_REGEX : regex :=
  Grp 1 (alts [Chr (one_of (u "$€£")); lit N.eqb (u "USD");
               lit N.eqb (u "EUR"); lit N.eqb (u "GBP")]).

Definition digit_rep (lo hi : nat) : regex := Rep isdecimal lo (Some hi).
Definition slash_or_dash : regex := Chr (one_of (u "/-")).

(** [DATE_REGEX]: four digits, two, two; or two, two, four, each time with
    [/] or [-] between; or one or two digits, white space, three to nine
    ASCII letters, white space, four digits. *)
Definition DATE_REGEX : regex :=
  Grp 1 (alts
    [cats [digit_rep 4 4; slash_or_dash; digit_rep 2 2; slash_or_dash; digit_rep 2 2];
     cats [digit_rep 2 2; slash_or_dash; digit_rep 2 2; slash_or_dash; digit_rep 4 4];
     cats [digit_rep 1 2; Rep isspace 1 None; Rep ascii_letter 3 (Some 9);
           Rep isspace 1 None; digit_rep 4 4]]).

(** The classes [[:\s]] and [[\d.,]]. *)
Definition colon_or_space (c : cp) : bool := (c =? 58)%N || isspace c.
Definition number_char (c : cp) : bool := isdecimal c || (c =? 46)%N || (c =? 44)%N.

Definition labelled (labels : list string) : regex :=
  cats [Grp 1 (alts (map (fun l => lit ieq (u l)) labels));
        Rep colon_or_space 0 None;
        Grp 2 (Rep number_char 1 None)].

(** [(total|amount due|grand total)[:\s]*([\d.,]+)], IGNORECASE *)
Definition TOTAL_REGEX : regex := labelled ["total"; "amount due"; "grand total"].
(** [(tax|vat)[:\s]*([\d.,]+)], IGNORECASE *)
Definition TAX_REGEX : regex := labelled ["tax"; "vat"].
(** [[0-9]+\.[0-9]{2}], the pattern of the fallback *)
Definition DECIMAL_REGEX : regex :=
  cats [Rep ascii_digit 1 None; chr_of 46%N; Rep ascii_digit 2 (Some 2)].
(** [\d] *)
Definition DIGIT_REGEX : regex := Chr isdecimal.

(** The body of both loops of [extract_amounts]:
    [try: x = float(match.group(2).replace(",", ""))] with
    [except ValueError: continue]. *)
Definition amount_step (cur : option pyfloat) (m : Match) : result (option pyfloat) :=
  match float (remove_commas (m_group 2 m)) with
  | Ok v => Ok (Some v)
  | Raise ValueError => Ok cur
  | Raise e => Raise e
  end.

Fixpoint for_each {S A} (body : S -> A -> result S) (xs : list A) (s : S) : result S :=
  match xs with
  | [] => Ok s
  | x :: xs' => s' <- body s x ;; for_each body xs' s'
  end.

Definition extract_amounts (text : str) : result dict :=
  total <- for_each amount_step (finditer TOTAL_REGEX text) None ;;
  tax <- for_each amount_step (finditer TAX_REGEX text) None ;;
  total <- match total with
           | None =>
             numbers <- comprehension (fun x => float (remove_commas x))
                          (findall DECIMAL_REGEX text) ;;
             match numbers with
             | [] => Ok None
             | _ => best <- max numbers ;; Ok (Some best)
             end
           | Some _ => Ok total
           end ;;
  Ok [("total_amount", of_opt_float total); ("tax_amount", of_opt_float tax)].

Definition DATE_FORMATS : list str :=
  map u ["%Y-%m-%d"; "%Y/%m/%d"; "%d-%m-%Y"; "%d/%m/%Y"; "%d %B %Y"; "%d %b %Y"].

(** The loop over the formats: the first that parses returns, a ValueError
    moves on to the next, and falling out of the loop returns [raw]. *)
Fixpoint try_formats (raw : str) (fmts : list str) : result str :=
  match fmts with
  | [] => Ok raw
  | fmt :: fmts' =>
    match strptime raw fmt with
    | Ok d => Ok (isoformat d)
    | Raise ValueError => try_formats raw fmts'
    | Raise e => Raise e
    end
  end.

Definition extract_date (text : str) : result (option str) :=
  match search DATE_REGEX text with
  | Some m => out <- try_formats (m_group 0 m) DATE_FORMATS ;; Ok (Some out)
  | None => Ok None
  end.

Definition has_digit (line : str) : bool :=
  match search DIGIT_REGEX line with Some _ => true | None => false end.

Fixpoint first_vendor (lines : list str) : option str :=
  match lines with
  | [] => None
  | line :: lines' =>
    if (2 <? length (strip line))%nat && negb (has_digit line)
    then Some (strip line)
    else first_vendor lines'
  end.

(** [lines[i]] *)
Definition getitem (lines : list str) (i : nat) : result str :=
  match nth_error lines i with
  | Some l => Ok l
  | None => Raise IndexError
  end.

Definition extract_vendor (lines : list str) : result (option str) :=
  match lines with
  | [] => Ok None
  | _ =>
    match first_vendor (firstn 5 lines) with
    | Some v => Ok (Some v)
    | None => l <- getitem lines 0 ;; Ok (Some (strip l))
    end
  end.

(** The currency lines of [process_image]:
    [{"$": "USD", "€": "EUR", "£": "GBP"}.get(symbol, symbol)]. *)
Definition CURRENCY_CODES : list (str * str) :=
  [(u "$", u "USD"); (u "€", u "EUR"); (u "£", u "GBP")].

Fixpoint get_default (d : list (str * str)) (k dflt : str) : str :=
  match d with
  | [] => dflt
  | (k', v) :: d' => if str_eqb k k' then v else get_default d' k dflt
  end.

Definition currency_of (raw_text : str) : option str :=
  match search CURRENCY_REGEX raw_text with
  | Some m => let symbol := m_group 1 m in
              Some (get_default CURRENCY_CODES symbol symbol)
  | None => None
  end.

(** What [ocr.py] takes from OpenCV, NumPy, Pillow and Tesseract.  A failed
    [cv2.imread] returns None; [Image.open] raises when it cannot identify
    the file.  The angle of the deskew goes from one library call to the
    next and is kept as the number it stands for. *)
Section Pipeline.

Variables ndarray Image points : Type.
Variable imread : str -> option ndarray.
Variable Image_open : str -> result Image.
Variable cvtColor_gray : ndarray -> ndarray.
Variable GaussianBlur3 : ndarray -> ndarray.
Variable threshold_otsu : ndarray -> ndarray.
Variable foreground : ndarray -> points.
Variable size : points -> N.
Variable minAreaRect_angle : points -> Q.
Variable shape : ndarray -> N * N.
Variable rotate : ndarray -> N * N -> Q -> ndarray.
Variable Image_fromarray : ndarray -> Image.
Variable image_to_string : Image -> str.

Definition preprocess_image (image_path : str) : result Image :=
  match imread image_path with
  | None => Image_open image_path
  | Some image =>
    let gray := cvtColor_gray image in
    let blur := GaussianBlur3 gray in
    let thresh := threshold_otsu blur in
    let coords := foreground thresh in
    let angle := if (size coords =? 0)%N then 0%Q else minAreaRect_angle coords in
    let angle := if Qgtb (- (45 # 1))%Q angle then (- ((90 # 1) + angle))%Q
                 else (- angle)%Q in
    let (h, w) := shape thresh in
    let center := ((w / 2)%N, (h / 2)%N) in
    Ok (Image_fromarray (rotate thresh center angle))
  end.

(** [fresh] is what [uuid.uuid4()] returns in this call. *)
Definition process_image (fresh : str) (image_path : str) : result dict :=
  processed <- preprocess_image image_path ;;
  let raw_text := image_to_string processed in
  let lines := filter (fun line => negb (Nat.eqb (length (strip line)) 0))
                      (splitlines raw_text) in
  amounts <- extract_amounts raw_text ;;
  date <- extract_date raw_text ;;
  vendor <- extract_vendor lines ;;
  let currency := currency_of raw_text in
  Ok [("id", VStr fresh);
      ("date", of_opt_str date);
      ("vendor", of_opt_str vendor);
      ("total_amount", get amounts "total_amount");
      ("tax_amount", get amounts "tax_amount");
      ("currency", of_opt_str currency);
      ("payment_method", VNone);
      ("category", VNone);
      ("notes", VNone);
      ("image_path", VStr image_path);
      ("raw_text", VStr raw_text)].

End Pipeline.

End Ocr.
Export Ocr.

(** ** The record assembly of [app/main.py] *)

Module Main.

Open Scope string_scope.
Open Scope list_scope.
Open Scope nat_scope.

(** [models.RECEIPT_FIELDS], the columns of the receipts table. *)
Definition RECEIPT_FIELDS : list string :=
  ["id"; "date"; "vendor"; "total_amount"; "tax_amount"; "currency";
   "payment_method"; "category"; "notes"; "image_path"; "raw_text";
   "created_at"; "updated_at"].

(** The dict literal that [scan] and [upload] both build from [parsed]:
    [fresh] is [str(uuid.uuid4())], [now] is [timestamp_now()], [today] is
    [datetime.now().date()], [rel] is [os.path.relpath(image_path, start=".")]. *)
Definition assemble (parsed : dict) (fresh now : str) (today : date) (rel : str)
  : dict :=
  let receipt_id := or_else (get parsed "id") (VStr fresh) in
  [("id", receipt_id);
   ("date", or_else (get parsed "date") (VStr (isoformat today)));
   ("vendor", or_else (get parsed "vendor") (VStr (u "Unknown")));
   ("total_amount", or_else (get parsed "total_amount") (VFloat 0%float));
   ("tax_amount", or_else (get parsed "tax_amount") (VFloat 0%float));
   ("currency", or_else (get parsed "currency") (VStr (u "USD")));
   ("payment_method", or_else (get parsed "payment_method") (VStr (u "Unknown")));
   ("category", or_else (get parsed "category") (VStr (u "Uncategorized")));
   ("notes", or_else (get parsed "notes") (VStr []));
   ("image_path", VStr rel);
   ("raw_text", or_else (get parsed "raw_text") (VStr []));
   ("created_at", VStr now);
   ("updated_at", VStr now)].

Section Routes.

(** [process_image] with the imaging libraries fixed, the successive values
    of [str(uuid.uuid4())], the clock, and [os.path]. *)
Variable process_image : str -> str -> result dict.
Variable uuid4 : nat -> str.
Variable timestamp_now : str.
Variable today : date.
Variable relpath : str -> str.
Variable join : str -> str -> str.
Variable IMAGE_DIR : str.

(** The POST branch of [scan], up to the record handed to [insert_receipt];
    [n] identifiers were drawn before the request. *)
Definition scan (n : nat) : result dict :=
  let filename := uuid4 n ++ u ".jpg" in
  let image_path := join IMAGE_DIR filename in
  parsed <- process_image (uuid4 (S n)) image_path ;;
  Ok (assemble parsed (uuid4 (S (S n))) timestamp_now today (relpath image_path)).

(** The POST branch of [upload].  [file] is the file name of the uploaded
    part, if there is one; [if not file] holds when the part is missing or
    its file name is empty, and then no record is built. *)
Definition upload (n : nat) (file : option str) : result (option dict) :=
  match file with
  | None => Ok None
  | Some [] => Ok None
  | Some file_filename =>
    let filename := uuid4 n ++ u "_" ++ file_filename in
    let path := join IMAGE_DIR filename in
    parsed <- process_image (uuid4 (S n)) path ;;
    Ok (Some (assemble parsed (uuid4 (S (S n))) timestamp_now today (relpath path)))
  end.

End Routes.

End Main.
Export Main.

(** ** What the operating system and sqlite3 add to the exceptions *)

Module Sys.

Inductive error : Type :=
| Builtin (e : exn)
| AttributeError
| OverflowError
| FileNotFoundError
| CalledProcessError
| OSError
| ProgrammingError
| OperationalError.

(** A call that may raise any of them. *)
Inductive outcome (A : Type) : Type :=
| Return (a : A)
| Throw (e : error).
Arguments Return {A} a.
Arguments Throw {A} e.

Definition and_then {A B} (x : outcome A) (f : A -> outcome B) : outcome B :=
  match x with
  | Return a => f a
  | Throw e => Throw e
  end.

Notation "x <~ c1 ;; c2" := (and_then c1 (fun x => c2))
  (at level 61, c1 at next level, right associativity).

Definition lift {A} (r : result A) : outcome A :=
  match r with
  | Ok a => Return a
  | Raise e => Throw (Builtin e)
  end.

End Sys.
Export Sys.

(** ** [app/camera.py] *)

Module Camera.

Open Scope string_scope.
Open Scope list_scope.
Open Scope nat_scope.


(** [s.split(sep)] for a separator of one character. *)
Fixpoint split_aux (sep : cp) (s cur : str) : list str :=
  match s with
  | [] => [rev cur]
  | c :: s' =>
    if (c =? sep)%N then rev cur :: split_aux sep s' []
    else split_aux sep s' (c :: cur)
  end.
Definition split (sep : cp) (s : str) : list str := split_aux sep s [].



Section Capture.

(** The file system, with [os.makedirs(d, exist_ok=True)], [os.path.dirname],
    [subprocess.run(cmd, check=True)] and [open(path, "wb").close()].  A call
    leaves a file system behind whether it returns or raises. *)
Variable fs : Type.
Variable makedirs : str -> fs -> fs * outcome unit.
Variable dirname : str -> str.
Variable run : list str -> fs -> fs * outcome unit.
Variable create_empty : str -> fs -> fs * outcome unit.


End Capture.

End Camera.
Export Camera.

(** ** [app/models.py] *)

Module Models.

Open Scope string_scope.
Open Scope list_scope.
Open Scope nat_scope.

(** A row of the receipts table ([sqlite3.Row]: the value of each column by
    name), and the table with its rows in rowid order. *)
Definition row := dict.
Definition table := list row.

(** The declared types of [SCHEMA_SQL]. *)
Inductive column_type : Type := TEXT | REAL.

Definition SCHEMA : list (string * column_type) :=
  [("id", TEXT); ("date", TEXT); ("vendor", TEXT); ("total_amount", REAL);
   ("tax_amount", REAL); ("currency", TEXT); ("payment_method", TEXT);
   ("category", TEXT); ("notes", TEXT); ("image_path", TEXT); ("raw_text", TEXT);
   ("created_at", TEXT); ("updated_at", TEXT)].

Definition declared_type (column : string) : column_type :=
  match find (fun ct => String.eqb column (fst ct)) SCHEMA with
  | Some (_, t) => t
  | None => TEXT
  end.

(** [d.keys()] and [d[k] = v]. *)
Definition keys (d : dict) : list string := map fst d.

Definition setitem (d : dict) (k : string) (v : value) : dict :=
  if has_key d k
  then map (fun kv => if String.eqb k (fst kv) then (k, v) else kv) d
  else d ++ [(k, v)].

(** Two values of the id column are the same key.  NULL is the same as
    nothing, itself included. *)
Definition same_key (a b : value) : bool :=
  match a, b with
  | VStr s, VStr t => str_eqb s t
  | VFloat x, VFloat y => PrimFloat.eqb x y
  | _, _ => false
  end.

Definition has_id (receipt_id : str) (r : row) : bool :=
  same_key (get r "id") (VStr receipt_id).

(** The bounds of an SQLite INTEGER. *)
Definition in_int64 (n : Z) : bool :=
  ((- 2 ^ 63 <=? n) && (n <? 2 ^ 63))%Z.

(** [LIMIT n]: a negative limit is no limit. *)
Definition limit {A} (n : Z) (l : list A) : list A :=
  if (n <? 0)%Z then l else firstn (Z.to_nat n) l.

(** [OFFSET n]: a negative offset is no offset. *)
Definition offset {A} (n : Z) (l : list A) : list A := skipn (Z.to_nat n) l.

Section Engine.

(** What is left to SQLite: the text it keeps for a number stored in a TEXT
    column, the number it reads in a text stored in a REAL column (None when
    the text is no number), whether [value LIKE pattern] holds, the order of
    [ORDER BY column DESC] (the order among equal values is the engine's),
    and what it does with a SET clause that names anything but columns of
    the schema as they are spelled there. *)
Variable text_of_real : pyfloat -> str.
Variable real_of_text : str -> option pyfloat.
Variable like : str -> value -> bool.
Variable order_by_desc : string -> table -> table.
Variable update_other : list string -> dict -> table -> outcome table.

(** Column affinity: the value a column keeps for a bound value. *)
Definition affinity (column : string) (v : value) : value :=
  match declared_type column, v with
  | TEXT, VFloat x => VStr (text_of_real x)
  | REAL, VStr s =>
    match real_of_text s with
    | Some x => VFloat x
    | None => VStr s
    end
  | _, _ => v
  end.

(** The named placeholders [:id, :date, ...] bound from a dict: a missing key
    is a ProgrammingError, other keys are ignored. *)
Definition bound_row (data : dict) : outcome row :=
  if forallb (has_key data) RECEIPT_FIELDS
  then Return (map (fun k => (k, affinity k (get data k))) RECEIPT_FIELDS)
  else Throw ProgrammingError.

(** [INSERT OR REPLACE]: a row with the same primary key is deleted, the new
    row gets the next rowid. *)
Definition insert_receipt (db : table) (data : dict) : outcome table :=
  r <~ bound_row data ;;
  Return (filter (fun r' => negb (same_key (get r' "id") (get r "id"))) db ++ [r]).

(** [SELECT * FROM receipts WHERE id = ?] and [fetchone()]. *)
Definition get_receipt (db : table) (receipt_id : str) : option row :=
  find (has_id receipt_id) db.

(** [DELETE FROM receipts WHERE id = ?] *)
Definition delete_receipt (db : table) (receipt_id : str) : table :=
  filter (fun r => negb (has_id receipt_id r)) db.

(** [UPDATE receipts SET k = :k, ... WHERE id = :id].  The SET clause is
    built from the keys before [updates["id"] = receipt_id]. *)
Definition update_receipt (db : table) (receipt_id : str) (updates : dict)
  : outcome table :=
  let columns := keys updates in
  let updates := setitem updates "id" (VStr receipt_id) in
  match columns with
  | [] => Throw OperationalError
  | _ =>
    if forallb (fun k => existsb (String.eqb k) RECEIPT_FIELDS) columns
    then Return
           (map (fun r =>
                   if has_id receipt_id r
                   then map (fun kv =>
                               if existsb (String.eqb (fst kv)) columns
                               then (fst kv, affinity (fst kv) (get updates (fst kv)))
                               else kv) r
                   else r) db)
    else update_other columns updates db
  end.

(** The WHERE clause of [list_receipts]: [if search:] and [if category:] add
    a condition each, joined by AND. *)
Definition clauses (search category : option str) : list (row -> bool) :=
  (match search with
   | Some (c :: s) =>
     let pattern := [37%N] ++ (c :: s) ++ [37%N] in
     [fun r => like pattern (get r "vendor") || like pattern (get r "raw_text")]
   | _ => []
   end)
  ++
  (match category with
   | Some (c :: s) => [fun r => same_key (get r "category") (VStr (c :: s))]
   | _ => []
   end).

Definition list_receipts (db : table) (search category : option str)
  (page per_page : Z) : outcome (table * nat) :=
  let where_ := clauses search category in
  let selected := filter (fun r => forallb (fun clause => clause r) where_) db in
  let ordered := order_by_desc "date" selected in
  let total := length selected in
  let skip := ((page - 1) * per_page)%Z in
  if in_int64 per_page && in_int64 skip
  then Return (limit per_page (offset skip ordered), total)
  else Throw OverflowError.

End Engine.

End Models.
Export Models.

(** ** The routes of [app/main.py] that edit and remove a receipt *)

Module Views.

Open Scope string_scope.
Open Scope list_scope.
Open Scope nat_scope.

(** The database, the rows of the CSV file as last exported (None while
    there is no file) and the paths that exist in the file system; the file
    system is taken to accept every write. *)
Record world : Type := mkWorld {
  db : table;
  csv : option table;
  files : list str
}.

(** What a route answers: a redirect with the message it flashed, or the
    page of a receipt. *)
Inductive response : Type :=
| redirect_receipt_list (message category : str)
| redirect_receipt_detail (receipt_id message category : str)
| render_receipt_detail (receipt : row).

(** [receipt.get(name)] on a [sqlite3.Row]: the class has [keys()] and item
    access, and no method [get]. *)
Definition Row_get (receipt : row) (name : string) : outcome value :=
  Throw AttributeError.

Section Routes.

Variable text_of_real : pyfloat -> str.
Variable real_of_text : str -> option pyfloat.
Variable order_by_desc : string -> table -> table.
Variable update_other : list string -> dict -> table -> outcome table.
Variable timestamp_now : str.

(** [export_to_csv]: the rows by [created_at], latest first. *)
Definition export_to_csv (w : world) : world :=
  {| db := db w; csv := Some (order_by_desc "created_at" (db w)); files := files w |}.

(** [ensure_csv_synced] *)
Definition ensure_csv_synced (w : world) : world :=
  match csv w with
  | None => export_to_csv w
  | Some _ => w
  end.

Definition with_db (w : world) (t : table) : world :=
  {| db := t; csv := csv w; files := files w |}.

(** [os.remove(path)] *)
Definition remove (path : str) (w : world) : world :=
  {| db := db w; csv := csv w;
     files := filter (fun p => negb (str_eqb p path)) (files w) |}.

(** [remove_receipt]; [if not receipt] holds for None and for a row without
    columns. *)
Definition remove_receipt (receipt_id : str) (w : world) : world * outcome response :=
  match get_receipt (db w) receipt_id with
  | None => (w, Return (redirect_receipt_list (u "Receipt not found") (u "danger")))
  | Some [] => (w, Return (redirect_receipt_list (u "Receipt not found") (u "danger")))
  | Some receipt =>
    let w := with_db w (delete_receipt (db w) receipt_id) in
    let w := export_to_csv w in
    match Row_get receipt "image_path" with
    | Throw e => (w, Throw e)
    | Return image_path =>
      let w :=
        if truthy image_path
        then match get receipt "image_path" with
             | VStr img_path =>
               if existsb (str_eqb img_path) (files w) then remove img_path w else w
             | _ => w
             end
        else w in
      (w, Return (redirect_receipt_list (u "Receipt deleted") (u "info")))
    end
  end.

(** The POST branch of [receipt_detail]; [form] is [request.form]. *)
Definition receipt_detail_post (receipt_id : str) (form : list (string * str))
  (w : world) : world * outcome response :=
  let updates := map (fun kv => (fst kv, VStr (snd kv))) form in
  let updates := setitem updates "updated_at" (VStr timestamp_now) in
  match update_receipt text_of_real real_of_text update_other (db w) receipt_id updates with
  | Throw e => (w, Throw e)
  | Return t =>
    let w := export_to_csv (with_db w t) in
    (w, Return (redirect_receipt_detail receipt_id (u "Receipt updated.") (u "success")))
  end.

(** The GET branch of [receipt_detail]. *)
Definition receipt_detail_get (receipt_id : str) (w : world) : response :=
  match get_receipt (db w) receipt_id with
  | None => redirect_receipt_list (u "Receipt not found") (u "danger")
  | Some [] => redirect_receipt_list (u "Receipt not found") (u "danger")
  | Some receipt => render_receipt_detail receipt
  end.

End Routes.

End Views.
Export Views.

(** ** [app/battery_monitor.py]

    Floats are the binary64 numbers of the kernel, with the arithmetic of
    the processor; [round] is written out from the exact value. *)

Module Battery.

Import PrimFloat SpecFloat FloatOps.

Set Warnings "-inexact-float".

Definition I2C_BUS_ID : Z := 1.
Definition INA219_ADDRESS : Z := 64.
Definition SHUTDOWN_THRESHOLD : Z := 10.

(** The number a finite float stands for, as [m * 2^e]. *)
Definition exact (x : float) : option (Z * Z) :=
  match Prim2SF x with
  | S754_zero _ => Some (0, 0)%Z
  | S754_finite s m e => Some (if s then Zneg m else Zpos m, e)
  | _ => None
  end.

(** [num / den] rounded to an integer, halves to the even neighbour. *)
Definition round_half_even (num den : Z) : Z :=
  let q := (num / den)%Z in
  let r := (num mod den)%Z in
  match (2 * r ?= den)%Z with
  | Lt => q
  | Gt => (q + 1)%Z
  | Eq => if Z.even q then q else (q + 1)%Z
  end.

(** [num / den / 2^e] as a fraction of integers. *)
Definition scaled (num den e : Z) : Z * Z :=
  if (0 <=? e)%Z then (num, den * 2 ^ e)%Z else (num * 2 ^ (- e), den)%Z.

(** The double nearest to [num / den], for [num] and [den] positive and a
    quotient in the normal range: a mantissa of 53 bits, halves to even. *)
Definition nearest (num den : Z) : float :=
  let e0 := (Z.log2 num - Z.log2 den - 52)%Z in
  let m0 := (let (n, d) := scaled num den e0 in n / d)%Z in
  let e := if (2 ^ 53 <=? m0)%Z then (e0 + 1)%Z
           else if (m0 <? 2 ^ 52)%Z then (e0 - 1)%Z else e0 in
  let (n, d) := scaled num den e in
  Z.ldexp (of_uint63 (Uint63Axioms.of_Z (round_half_even n d))) e.

(** [round(x, ndigits)] for a float and [ndigits] not negative: the decimal
    with [ndigits] digits nearest to the number [x] stands for, halves to
    even, and then the double nearest to that decimal; infinities and nan
    come back as they are. *)
Definition round (x : float) (ndigits : Z) : float :=
  match exact x with
  | None => x
  | Some (m, e) =>
    let p := (10 ^ ndigits)%Z in
    let n := if (0 <=? e)%Z then (m * 2 ^ e * p)%Z
             else round_half_even (m * p) (2 ^ (- e)) in
    match n with
    | Z0 => if get_sign x then neg_zero else zero
    | Zpos _ => nearest n p
    | Zneg _ => opp (nearest (- n) p)
    end
  end.

(** [float(n)] for an int below 2^63. *)
Definition of_int (n : Z) : float :=
  match n with
  | Zneg p => opp (of_uint63 (Uint63Axioms.of_Z (Zpos p)))
  | _ => of_uint63 (Uint63Axioms.of_Z n)
  end.

(** A Python number: [max(0, min(100, x))] returns the int or the float. *)
Inductive number : Type :=
| PyInt (n : Z)
| PyFloat (x : float).

(** [a < b] between ints and floats, which Python compares as the numbers
    they stand for; the comparisons with nan are false. *)
Definition int_lt_float (a : Z) (y : float) : bool :=
  match exact y with
  | Some (m, e) =>
    if (0 <=? e)%Z then (a <? m * 2 ^ e)%Z else (a * 2 ^ (- e) <? m)%Z
  | None => (zero <? y)%float
  end.

Definition float_lt_int (x : float) (b : Z) : bool :=
  match exact x with
  | Some (m, e) =>
    if (0 <=? e)%Z then (m * 2 ^ e <? b)%Z else (m <? b * 2 ^ (- e))%Z
  | None => (x <? zero)%float
  end.

Definition lt (a b : number) : bool :=
  match a, b with
  | PyInt m, PyInt n => (m <? n)%Z
  | PyFloat x, PyFloat y => (x <? y)%float
  | PyInt m, PyFloat y => int_lt_float m y
  | PyFloat x, PyInt n => float_lt_int x n
  end.

Definition is_nan_number (a : number) : bool :=
  match a with PyFloat x => is_nan x | PyInt _ => false end.

(** [a <= b] *)
Definition le (a b : number) : bool :=
  negb (is_nan_number a || is_nan_number b) && negb (lt b a).

(** [min(a, b)] and [max(a, b)]: the first argument wins a draw. *)
Definition min (a b : number) : number := if lt b a then b else a.
Definition max (a b : number) : number := if lt a b then b else a.

Record BatteryStatus : Type := mkBatteryStatus {
  voltage : option float;
  current : option float;
  percentage : option number;
  charging : bool
}.

Section Monitor.

(** [self.bus] is None where the smbus module is missing, and else the bus
    that [SMBus(bus_id)] opened.  A call of [read_word_data] returns a word
    of sixteen bits or raises; [word] is what the call returns, None when it
    raises. *)
Variable has_bus : bool.

Definition read_voltage (word : option Z) : option float :=
  if has_bus then
    match word with
    | Some raw => Some (round (of_int (Z.shiftr raw 3) * 4e-3) 3)
    | None => None
    end
  else None.

Definition read_current (word : option Z) : option float :=
  if has_bus then
    match word with
    | Some raw => Some (round (of_int raw * 0.001) 3)
    | None => None
    end
  else None.

Definition estimate_percentage (voltage : option float) : option number :=
  match voltage with
  | None => None
  | Some voltage =>
    let percent := ((voltage - 3.3) / (4.2 - 3.3) * 100)%float in
    Some (max (PyInt 0) (min (PyInt 100) (PyFloat (round percent 1))))
  end.

(** [status]: the two registers are read one after the other. *)
Definition status (words : option Z * option Z) : BatteryStatus :=
  let voltage := read_voltage (fst words) in
  let current := read_current (snd words) in
  let percentage := estimate_percentage voltage in
  let charging := match current with
                  | Some c => lt (PyFloat c) (PyInt 0)
                  | None => false
                  end in
  mkBatteryStatus voltage current percentage charging.

(** What [monitor_loop] does, in order: a line in the log, the warning, the
    shutdown command, a sleep. *)
Inductive event : Type :=
| Log (s : BatteryStatus)
| Warning (p : number)
| Shutdown
| Sleep (seconds : Z).

(** [monitor_loop] over the readings of the first rounds of the loop: the
    events, and whether the loop has ended. *)
Fixpoint monitor_loop (interval threshold : Z) (readings : list (option Z * option Z))
  : list event * bool :=
  match readings with
  | [] => ([], false)
  | words :: readings' =>
    let s := status words in
    match percentage s with
    | Some p =>
      if le p (PyInt threshold)
      then ([Log s; Warning p; Shutdown], true)
      else let (events, ended) := monitor_loop interval threshold readings' in
           (Log s :: Sleep interval :: events, ended)
    | None =>
      let (events, ended) := monitor_loop interval threshold readings' in
      (Log s :: Sleep interval :: events, ended)
    end
  end.

End Monitor.

End Battery.

(** * Properties *)

Set Warnings "-inexact-float".

Close Scope string_scope.
Open Scope list_scope.
Open Scope nat_scope.

(** ** Vocabulary of the statements *)

(** A line the heuristic accepts: more than two characters once trimmed, and
    no decimal digit anywhere. *)
Definition vendor_candidate (line : str) : Prop :=
  2 < length (strip line) /\ Forall (fun c => isdecimal c = false) line.

(** The symbols and codes the heuristic knows, each with the code it yields. *)
Definition currency_table : list (str * str) :=
  [(u "$", u "USD"); (u "€", u "EUR"); (u "£", u "GBP");
   (u "USD", u "USD"); (u "EUR", u "EUR"); (u "GBP", u "GBP")].

(** The date shapes of the heuristic, in words: year first or day first with
    [/] or [-] between the numbers, or day, month name and year with white
    space between them. *)
Definition digits (n : nat) (w : str) : Prop :=
  length w = n /\ forallb isdecimal w = true.

Definition date_separator (c : cp) : Prop := c = 47%N \/ c = 45%N.

Definition blanks (w : str) : Prop := w <> [] /\ forallb isspace w = true.

Inductive date_shape : str -> Prop :=
| year_first y s1 m s2 d :
    digits 4 y -> date_separator s1 -> digits 2 m -> date_separator s2 ->
    digits 2 d -> date_shape (y ++ [s1] ++ m ++ [s2] ++ d)
| day_first d s1 m s2 y :
    digits 2 d -> date_separator s1 -> digits 2 m -> date_separator s2 ->
    digits 4 y -> date_shape (d ++ [s1] ++ m ++ [s2] ++ y)
| day_month_name d b1 name b2 y :
    1 <= length d <= 2 -> forallb isdecimal d = true -> blanks b1 ->
    3 <= length name <= 9 -> forallb ascii_letter name = true -> blanks b2 ->
    digits 4 y -> date_shape (d ++ b1 ++ name ++ b2 ++ y).

(** The shape [date.isoformat()] writes. *)
Definition ascii_digits (n : nat) (w : str) : bool :=
  Nat.eqb (length w) n && forallb ascii_digit w.

Definition iso_shaped (s : str) : Prop :=
  exists y m d, s = y ++ [45%N] ++ m ++ [45%N] ++ d
    /\ ascii_digits 4 y = true /\ ascii_digits 2 m = true /\ ascii_digits 2 d = true.

(** A format on which [strptime] raises ValueError. *)
Definition fails (raw : str) (fmt : str) : Prop := strptime raw fmt = Raise ValueError.

(** [s] is empty or starts with a character outside the class [p]: a run
    of [p] that ends before [s] cannot be made longer. *)
Definition starts_outside (p : cp -> bool) (s : str) : Prop :=
  match s with [] => True | c :: _ => p c = false end.

(** [lab] spells the label [l], letter case aside. *)
Definition spells (l : string) (lab : str) : Prop :=
  Forall2 (fun p c => ieq p c = true) (u l) lab.

Definition label_of (labels : list string) (lab : str) : Prop :=
  exists l, In l labels /\ spells l lab.

(** An occurrence in [text] of a label, then colons and white space, then a
    whole run of digits, full stops and commas: [text] is
    [pre ++ lab ++ sep ++ num ++ rest]. *)
Definition labelled_number (labels : list string) (text pre lab sep num rest : str)
  : Prop :=
  text = pre ++ lab ++ sep ++ num ++ rest
  /\ label_of labels lab
  /\ forallb colon_or_space sep = true
  /\ num <> [] /\ forallb number_char num = true
  /\ starts_outside number_char rest.

(** The labels of a pattern are words without digits, full stops or commas. *)
Definition plain_labels (labels : list string) : Prop :=
  forall lab, label_of labels lab ->
    lab <> [] /\ forallb (fun c => negb (number_char c)) lab = true.

(** The code points a pattern character can match under IGNORECASE. *)
Definition ieq_candidates (p : cp) : list cp :=
  [ascii_lower p; (ascii_lower p - 32)%N; 304; 305; 8490; 383]%N.

Definition plain_label_char (p : cp) : bool :=
  forallb (fun c => negb (ieq p c) || negb (number_char c)) (ieq_candidates p).

(** The run [num] is a number with value [v]: without its commas it is a
    literal that [float] accepts. *)
Definition parses (num : str) (v : pyfloat) : Prop :=
  float (remove_commas num) = Ok v.

(** The shape the fallback looks for: ASCII digits, a full stop, two ASCII
    digits. *)
Definition decimal_shape (w : str) : Prop :=
  exists ip d1 d2,
    w = ip ++ [46%N; d1; d2] /\ ip <> [] /\ forallb ascii_digit ip = true
    /\ ascii_digit d1 = true /\ ascii_digit d2 = true.

(** Left-to-right scanning for a shape: each hit is a word of the shape at
    the first place, after the previous hit, where one starts. *)
Inductive scanning (shape : str -> Prop) : str -> list str -> Prop :=
| scan_end s :
    (forall pre w rest, s = pre ++ w ++ rest -> ~ shape w) -> scanning shape s []
| scan_hit pre w rest ws :
    shape w ->
    (forall pre' w' rest', pre ++ w ++ rest = pre' ++ w' ++ rest' -> shape w' ->
                           length pre <= length pre') ->
    scanning shape rest ws ->
    scanning shape (pre ++ w ++ rest) (w :: ws).

(** The value a loop of [extract_amounts] ends with. *)
Definition last_amount (ms : list Match) (cur : option pyfloat) : option pyfloat :=
  fold_left (fun cur m => match float (remove_commas (m_group 2 m)) with
                          | Ok v => Some v
                          | Raise _ => cur
                          end) ms cur.

Definition unparsable (m : Match) : Prop := forall v, ~ parses (m_group 2 m) v.

Definition total_labels : list string := ["total"; "amount due"; "grand total"]%string.

Definition tax_labels : list string := ["tax"; "vat"]%string.

(** What the fallback yields: nothing when the scan finds nothing, else a
    value of a found number that none of the found numbers exceeds. *)
Definition greatest_of (found : list str) (fb : option pyfloat) : Prop :=
  match found with
  | [] => fb = None
  | _ =>
    exists best, fb = Some best
      /\ (exists w, In w found /\ float w = Ok best)
      /\ (forall w, In w found ->
            exists x, float w = Ok x /\ PrimFloat.leb x best = true)
  end.

Fixpoint spellsb (w lab : str) : bool :=
  match w, lab with
  | [], [] => true
  | p :: w', c :: lab' => ieq p c && spellsb w' lab'
  | _, _ => false
  end.

Definition starts_outsideb (p : cp -> bool) (s : str) : bool :=
  match s with [] => true | c :: _ => negb (p c) end.

(** The two shapes written with digits only are ten characters long and
    have no blank among their first three. *)
Definition numeric_date (w : str) : Prop :=
  length w = 10
  /\ exists a b c t, w = a :: b :: c :: t /\ isdecimal b = true /\ isspace c = false.

Definition named_date (w : str) : Prop :=
  exists d b1 name b2 y,
    w = d ++ b1 ++ name ++ b2 ++ y
    /\ 1 <= length d <= 2 /\ forallb isdecimal d = true /\ blanks b1
    /\ 3 <= length name <= 9 /\ forallb ascii_letter name = true /\ blanks b2
    /\ digits 4 y.

Definition digit_or_point (c : cp) : Prop := isdecimal c = true \/ c = 46%N.

(** No white space at either end. *)
Definition trimmed (s : str) : Prop :=
  starts_outside isspace s /\ starts_outside isspace (rev s).

(** The text ids of a table, and what the primary key promises: no text id
    twice, and every row with the columns of the schema and an id that is a
    text or NULL. *)
Definition ids (t : table) : list str :=
  flat_map (fun r => match get r "id"%string with VStr s => [s] | _ => [] end) t.

Definition primary_key_holds (t : table) : Prop :=
  NoDup (ids t)
  /\ Forall (fun r => keys r = RECEIPT_FIELDS
                      /\ forall x, get r "id"%string <> VFloat x) t.

(** A date written in figures, year first or day first, with [sep] between
    the numbers. *)
Definition written_year_first (d : date) (sep : cp) : str :=
  zero_pad 4 (year d) ++ [sep] ++ zero_pad 2 (month d) ++ [sep] ++ zero_pad 2 (day d).

Definition written_day_first (d : date) (sep : cp) : str :=
  zero_pad 2 (day d) ++ [sep] ++ zero_pad 2 (month d) ++ [sep] ++ zero_pad 4 (year d).

(** The formats [%Y-%m-%d] and [%d-%m-%Y], and the same with [/]. *)
Definition year_first_format (sep : cp) : str :=
  [37; 89; sep; 37; 109; sep; 37; 100]%N.

Definition day_first_format (sep : cp) : str :=
  [37; 100; sep; 37; 109; sep; 37; 89]%N.

(** [f] holds of the [fuel] integers from [z] on. *)
Fixpoint all_from (f : Z -> bool) (fuel : nat) (z : Z) : bool :=
  match fuel with
  | O => true
  | S fuel' => f z && all_from f fuel' (z + 1)%Z
  end.



(** A float in its specification that is zero, a positive number or plus
    infinity: what [float] returns for digits and a point. *)
Definition unsigned_number (f : SpecFloat.spec_float) : Prop :=
  match f with
  | SpecFloat.S754_zero s => s = false
  | SpecFloat.S754_infinity s => s = false
  | SpecFloat.S754_finite s _ _ => s = false
  | SpecFloat.S754_nan => False
  end.

(** A float in its specification that is not below zero: zero with either
    sign, a positive number, plus infinity, or not a number. *)
Definition not_negative (f : SpecFloat.spec_float) : Prop :=
  match f with
  | SpecFloat.S754_finite s _ _ => s = false
  | SpecFloat.S754_infinity s => s = false
  | _ => True
  end.

(** ** The matcher against the words of a pattern *)

Section MatcherFacts.

Lemma taken_app (w s : str) : taken (w ++ s) s = w.
Proof.
  unfold taken. rewrite length_app.
  replace (length w + length s - length s) with (length w) by lia.
  rewrite firstn_app, Nat.sub_diag, firstn_all. simpl. apply app_nil_r.
Qed.

Lemma in_bounds_pred lo hi n :
  in_bounds lo hi (S n) -> in_bounds (pred lo) (option_map pred hi) n.
Proof.
  unfold in_bounds. destruct hi as [h|]; simpl; intros [H1 H2]; split; lia.
Qed.

Lemma in_bounds_succ lo hi n :
  may_take hi = true -> in_bounds (pred lo) (option_map pred hi) n ->
  in_bounds lo hi (S n).
Proof.
  unfold in_bounds. destruct hi as [[|h]|]; simpl; try discriminate;
    intros _ [H1 H2]; split; lia.
Qed.

Lemma in_bounds_may_take lo hi n : in_bounds lo hi (S n) -> may_take hi = true.
Proof.
  unfold in_bounds. destruct hi as [[|h]|]; simpl; intros [H1 H2]; auto; lia.
Qed.

(** Whatever [rep] returns comes from its continuation, run behind a run of
    the class of a permitted length. *)
Lemma rep_sound {A} p s : forall lo hi (k : str -> option A) x,
  rep p lo hi s k = Some x ->
  exists w s', s = w ++ s' /\ forallb p w = true
               /\ in_bounds lo hi (length w) /\ k s' = Some x.
Proof.
  induction s as [|c s IH]; intros lo hi k x H.
  - simpl in H. destruct lo; [|discriminate].
    exists [], []. repeat split; auto. destruct hi; simpl; lia.
  - simpl in H.
    assert (Hstop : match lo with 0 => k (c :: s) | S _ => None end = Some x ->
       exists w s', c :: s = w ++ s' /\ forallb p w = true
               /\ in_bounds lo hi (length w) /\ k s' = Some x).
    { destruct lo; [|discriminate]. intros Hk.
      exists [], (c :: s). repeat split; auto. destruct hi; simpl; lia. }
    destruct (p c && may_take hi) eqn:Hc; [|auto].
    apply andb_true_iff in Hc. destruct Hc as [Hp Hm].
    destruct (rep p (pred lo) (option_map pred hi) s k) as [y|] eqn:Hr; [|auto].
    inversion H; subst y.
    destruct (IH _ _ _ _ Hr) as (w & s' & -> & Hw & Hb & Hk).
    exists (c :: w), s'. simpl. rewrite Hp, Hw. repeat split; auto.
    + apply in_bounds_succ in Hb; auto. apply Hb.
    + apply in_bounds_succ in Hb; auto. apply Hb.
Qed.

(** A run of the class of a permitted length, with a continuation that
    accepts what follows it, makes [rep] succeed. *)
Lemma rep_complete {A} p w : forall lo hi s' (k : str -> option A),
  forallb p w = true -> in_bounds lo hi (length w) -> k s' <> None ->
  rep p lo hi (w ++ s') k <> None.
Proof.
  induction w as [|c w IH]; intros lo hi s' k Hw Hb Hk.
  - destruct Hb as [Hlo _]. simpl in Hlo. assert (lo = 0) by lia. subst lo.
    simpl. destruct s' as [|c s']; simpl; auto.
    destruct (p c && may_take hi); auto.
    destruct (rep p 0 (option_map pred hi) s' k); auto; try discriminate.
  - simpl in Hw. apply andb_true_iff in Hw. destruct Hw as [Hc Hw].
    simpl. rewrite Hc, (in_bounds_may_take Hb). simpl.
    specialize (IH (pred lo) (option_map pred hi) s' k Hw (in_bounds_pred Hb) Hk).
    destruct (rep p (pred lo) (option_map pred hi) (w ++ s') k); auto; try discriminate.
Qed.

Lemma exec_sound {A} r : forall s g (k : str -> groups -> option A) x,
  exec r s g k = Some x ->
  exists w s' g', s = w ++ s' /\ lang r w /\ k s' g' = Some x.
Proof.
  induction r as [|p|r1 IH1 r2 IH2|r1 IH1 r2 IH2|p lo hi|i r IH];
    intros s g k x H; simpl in H.
  - exists [], s, g. split; [reflexivity|]. split; [constructor|assumption].
  - destruct s as [|c s]; [discriminate|].
    destruct (p c) eqn:Hp; [|discriminate].
    exists [c], s, g. split; [reflexivity|]. split; [constructor; auto|assumption].
  - destruct (IH1 _ _ _ _ H) as (w1 & s1 & g1 & -> & L1 & H1).
    destruct (IH2 _ _ _ _ H1) as (w2 & s2 & g2 & -> & L2 & H2).
    exists (w1 ++ w2), s2, g2. rewrite app_assoc. repeat split; auto.
    constructor; auto.
  - destruct (exec r1 s g k) as [y|] eqn:E1.
    + inversion H; subst y.
      destruct (IH1 _ _ _ _ E1) as (w & s' & g' & -> & L & Hk).
      exists w, s', g'. repeat split; auto. apply L_alt_l; auto.
    + destruct (IH2 _ _ _ _ H) as (w & s' & g' & -> & L & Hk).
      exists w, s', g'. repeat split; auto. apply L_alt_r; auto.
  - destruct (rep_sound _ _ _ _ _ H) as (w & s' & -> & Hw & Hb & Hk).
    exists w, s', g. repeat split; auto. constructor; auto.
  - destruct (IH _ _ _ _ H) as (w & s' & g' & -> & L & Hk).
    eexists w, s', _. repeat split; eauto. constructor; auto.
Qed.

Lemma exec_complete {A} r w : lang r w ->
  forall s' g (k : str -> groups -> option A),
  (forall g', k s' g' <> None) -> exec r (w ++ s') g k <> None.
Proof.
  induction 1 as [|p c Hp|r1 r2 w1 w2 L1 IH1 L2 IH2|r1 r2 w L IH|r1 r2 w L IH
                 |p lo hi w Hw Hb|i r w L IH]; intros s' g k Hk; simpl.
  - apply Hk.
  - rewrite Hp. apply Hk.
  - rewrite <- app_assoc. apply IH1. intros g'. apply IH2. exact Hk.
  - specialize (IH s' g k Hk). destruct (exec r1 (w ++ s') g k); auto; try discriminate.
  - specialize (IH s' g k Hk). destruct (exec r1 (w ++ s') g k); auto; try discriminate.
  - apply rep_complete; auto.
  - apply IH. intros g'. apply Hk.
Qed.

Lemma match_here_sound r s rest g :
  match_here r s = Some (rest, g) -> exists w, s = w ++ rest /\ lang r w.
Proof.
  unfold match_here. intros H.
  destruct (exec_sound _ _ _ _ H) as (w & s' & g' & -> & L & Hk).
  inversion Hk; subst. exists w. auto.
Qed.

Lemma match_here_complete r w s' : lang r w -> match_here r (w ++ s') <> None.
Proof.
  intros L. unfold match_here. apply exec_complete; auto; try discriminate.
Qed.

(** [search] returns the leftmost occurrence of a word of the pattern. *)
Lemma search_from_sound r s : forall pos m,
  search_from r s pos = Some m ->
  exists pre rest, s = pre ++ m_text m ++ rest /\ m_start m = pos + length pre
    /\ lang r (m_text m)
    /\ forall pre' w' rest', s = pre' ++ w' ++ rest' -> lang r w' ->
                             length pre <= length pre'.
Proof.
  induction s as [|c s IH]; intros pos m H; simpl in H.
  - destruct (match_here r []) as [[rest g]|] eqn:E; [|discriminate].
    inversion H; subst m; simpl.
    destruct (match_here_sound _ _ E) as (w & Hs & L).
    symmetry in Hs. apply app_eq_nil in Hs. destruct Hs; subst w rest.
    exists [], []. simpl. repeat split; auto; simpl; lia.
  - destruct (match_here r (c :: s)) as [[rest g]|] eqn:E.
    + inversion H; subst m; simpl.
      destruct (match_here_sound _ _ E) as (w & Hs & L).
      exists [], rest. rewrite Hs, taken_app. simpl. repeat split; auto; simpl; lia.
    + destruct (IH _ _ H) as (pre & rest & Hs & Hst & L & Hleft).
      exists (c :: pre), rest. simpl. rewrite <- Hs. repeat split; auto; try lia.
      intros pre' w' rest' Hs' L'. destruct pre' as [|c' pre'].
      * simpl in Hs'. exfalso. apply (match_here_complete rest' L').
        rewrite <- Hs'. exact E.
      * simpl in Hs'. inversion Hs'; subst c'. simpl.
        apply le_n_S. eapply Hleft; eauto.
Qed.

Lemma search_from_none r s : forall pos,
  search_from r s pos = None ->
  forall pre w rest, s = pre ++ w ++ rest -> ~ lang r w.
Proof.
  induction s as [|c s IH]; intros pos H pre w rest Hs L; simpl in H.
  - destruct pre; [|discriminate]. simpl in Hs.
    destruct (match_here r []) as [[? ?]|] eqn:E; [discriminate|].
    apply (match_here_complete rest L). rewrite <- Hs. exact E.
  - destruct (match_here r (c :: s)) as [[? ?]|] eqn:E; [discriminate|].
    destruct pre as [|c' pre]; simpl in Hs.
    + apply (match_here_complete rest L). rewrite <- Hs. exact E.
    + inversion Hs; subst. eapply IH; eauto.
Qed.

End MatcherFacts.

(** ** The assembled record *)

Section AssembleFacts.

Open Scope string_scope.
Open Scope list_scope.

Lemma or_else_defined a b : b <> VNone -> or_else a b <> VNone.
Proof.
  unfold or_else. destruct (truthy a) eqn:T; auto.
  intros _ ->. discriminate.
Qed.

Lemma or_else_falsy a b : truthy a = false -> or_else a b = b.
Proof. unfold or_else. intros ->. reflexivity. Qed.

Lemma or_else_truthy a b : truthy a = true -> or_else a b = a.
Proof. unfold or_else. intros ->. reflexivity. Qed.

(** C9.  Whatever [parsed] holds, the record built by [scan] and [upload] has
    every column of the receipts table under a value that is not None; a
    field that extraction left None gets its default (vendor "Unknown",
    currency "USD", both amounts 0.0, category "Uncategorized", payment
    method "Unknown"); the id is the parsed one, or else a newly drawn one;
    the image path, the raw text and the two time stamps are carried; and
    this record is the one both routes hand to the database. *)
Theorem assemble_fills_every_field
  (parsed : dict) (fresh now : str) (today : date) (rel : str) :
  let record := assemble parsed fresh now today rel in
  (forall k, In k RECEIPT_FIELDS -> has_key record k = true /\ get record k <> VNone)
  /\ (get parsed "vendor" = VNone -> get record "vendor" = VStr (u "Unknown"))
  /\ (get parsed "currency" = VNone -> get record "currency" = VStr (u "USD"))
  /\ (get parsed "total_amount" = VNone -> get record "total_amount" = VFloat 0%float)
  /\ (get parsed "tax_amount" = VNone -> get record "tax_amount" = VFloat 0%float)
  /\ (get parsed "category" = VNone ->
      get record "category" = VStr (u "Uncategorized"))
  /\ (get parsed "payment_method" = VNone ->
      get record "payment_method" = VStr (u "Unknown"))
  /\ get record "id" = or_else (get parsed "id") (VStr fresh)
  /\ get record "image_path" = VStr rel
  /\ get record "raw_text" = or_else (get parsed "raw_text") (VStr [])
  /\ get record "created_at" = VStr now
  /\ get record "updated_at" = VStr now
  /\ (forall process_image uuid4 join IMAGE_DIR relpath n,
        let path := join IMAGE_DIR (uuid4 n ++ u ".jpg") in
        process_image (uuid4 (S n)) path = Ok parsed ->
        scan process_image uuid4 now today relpath join IMAGE_DIR n
        = Ok (assemble parsed (uuid4 (S (S n))) now today (relpath path)))
  /\ (forall process_image uuid4 join IMAGE_DIR relpath n name,
        let path := join IMAGE_DIR (uuid4 n ++ u "_" ++ name) in
        name <> [] ->
        process_image (uuid4 (S n)) path = Ok parsed ->
        upload process_image uuid4 now today relpath join IMAGE_DIR n (Some name)
        = Ok (Some (assemble parsed (uuid4 (S (S n))) now today (relpath path)))).
Proof.
  intros record. subst record. unfold assemble.
  split.
  { intros k Hk. simpl in Hk.
    repeat (destruct Hk as [<-|Hk]; [split; [reflexivity|]; simpl;
      try (apply or_else_defined); discriminate|]).
    contradiction. }
  repeat split; simpl; try reflexivity;
    try (intros ->; reflexivity).
  - intros process_image uuid4 join IMAGE_DIR relpath n H.
    unfold scan. rewrite H. reflexivity.
  - intros process_image uuid4 join IMAGE_DIR relpath n name Hname H.
    unfold upload. destruct name as [|c name]; [contradiction|].
    rewrite H. reflexivity.
Qed.

(** The record of a receipt on which every heuristic came back empty. *)
Example assemble_nothing_extracted :
  assemble [("id", VStr (u "id-1")); ("date", VNone); ("vendor", VNone);
            ("total_amount", VNone); ("tax_amount", VNone); ("currency", VNone);
            ("payment_method", VNone); ("category", VNone); ("notes", VNone);
            ("image_path", VStr (u "img/a.jpg")); ("raw_text", VStr [])]
           (u "id-2") (u "2024-05-01T10:00:00") (mkDate 2024 5 1) (u "img/a.jpg")
  = [("id", VStr (u "id-1")); ("date", VStr (u "2024-05-01"));
     ("vendor", VStr (u "Unknown")); ("total_amount", VFloat 0%float);
     ("tax_amount", VFloat 0%float); ("currency", VStr (u "USD"));
     ("payment_method", VStr (u "Unknown")); ("category", VStr (u "Uncategorized"));
     ("notes", VStr []); ("image_path", VStr (u "img/a.jpg")); ("raw_text", VStr []);
     ("created_at", VStr (u "2024-05-01T10:00:00"));
     ("updated_at", VStr (u "2024-05-01T10:00:00"))].
Proof. vm_compute. reflexivity. Qed.

(** C10.  When extraction found no date (None, or an empty string), the
    record is dated with the current calendar day in ISO form. *)
Theorem assemble_dates_undated_receipt_today
  (parsed : dict) (fresh now : str) (today : date) (rel : str) :
  get parsed "date" = VNone \/ get parsed "date" = VStr [] ->
  get (assemble parsed fresh now today rel) "date" = VStr (isoformat today).
Proof.
  intros H. unfold assemble. simpl.
  apply or_else_falsy. destruct H as [-> | ->]; reflexivity.
Qed.

Lemma assemble_dates_undated_receipt_today_witness :
  (get [("vendor", VStr (u "Joe's Diner"))] "date" = VNone
   \/ get [("vendor", VStr (u "Joe's Diner"))] "date" = VStr [])
  /\ get (assemble [("vendor", VStr (u "Joe's Diner"))] (u "id-1")
            (u "2024-05-01T10:00:00") (mkDate 2024 5 1) (u "img/a.jpg")) "date"
     = VStr (u "2024-05-01").
Proof.
  split; [left; reflexivity|].
  apply (assemble_dates_undated_receipt_today
           [("vendor", VStr (u "Joe's Diner"))] (u "id-1")
           (u "2024-05-01T10:00:00") (mkDate 2024 5 1) (u "img/a.jpg")).
  left; reflexivity.
Defined.

End AssembleFacts.

(** ** The vendor heuristic *)

Section VendorFacts.

Lemma has_digit_existsb line : has_digit line = existsb isdecimal line.
Proof.
  unfold has_digit, search. generalize 0.
  induction line as [|c line IH]; intros pos; simpl.
  - reflexivity.
  - unfold match_here. simpl. destruct (isdecimal c); simpl; auto.
Qed.

Lemma vendor_candidate_test line :
  (2 <? length (strip line)) && negb (has_digit line) = true
  <-> vendor_candidate line.
Proof.
  unfold vendor_candidate. rewrite andb_true_iff, Nat.ltb_lt, has_digit_existsb.
  rewrite negb_true_iff, <- not_true_iff_false, existsb_exists, Forall_forall.
  split; intros [H1 H2]; split; auto.
  - intros c Hc. destruct (isdecimal c) eqn:E; auto. exfalso. apply H2. eauto.
  - intros (c & Hc & E). rewrite (H2 c Hc) in E. discriminate.
Qed.

Lemma first_vendor_found before line after :
  Forall (fun l => ~ vendor_candidate l) before -> vendor_candidate line ->
  first_vendor (before ++ line :: after) = Some (strip line).
Proof.
  intros Hb Hl. induction Hb as [|l before Hn _ IH]; simpl.
  - apply vendor_candidate_test in Hl. rewrite Hl. reflexivity.
  - destruct ((2 <? length (strip l)) && negb (has_digit l)) eqn:E; auto.
    apply vendor_candidate_test in E. contradiction.
Qed.

Lemma first_vendor_none lines :
  Forall (fun l => ~ vendor_candidate l) lines -> first_vendor lines = None.
Proof.
  induction 1 as [|l lines Hn _ IH]; simpl; auto.
  destruct ((2 <? length (strip l)) && negb (has_digit l)) eqn:E; auto.
  apply vendor_candidate_test in E. contradiction.
Qed.

(** C4, as the code has it.  [extract_vendor] returns None exactly on the
    empty list; otherwise it returns the trimmed form of the first of the
    first five lines that has more than two characters once trimmed and no
    digit, and when none of them qualifies the trimmed form of the very
    first line, digits or not. *)
Theorem extract_vendor_returns_trimmed_line (lines : list str) :
  (extract_vendor lines = Ok None <-> lines = [])
  /\ (forall before line after,
        firstn 5 lines = before ++ line :: after ->
        Forall (fun l => ~ vendor_candidate l) before ->
        vendor_candidate line ->
        extract_vendor lines = Ok (Some (strip line)))
  /\ (forall first others,
        lines = first :: others ->
        Forall (fun l => ~ vendor_candidate l) (firstn 5 lines) ->
        extract_vendor lines = Ok (Some (strip first))).
Proof.
  split; [|split].
  - split.
    + destruct lines as [|l lines]; auto. unfold extract_vendor.
      destruct (first_vendor (firstn 5 (l :: lines))); simpl; discriminate.
    + intros ->. reflexivity.
  - intros before line after H5 Hb Hl.
    destruct lines as [|l lines]; [destruct before; discriminate|].
    unfold extract_vendor. rewrite H5, (first_vendor_found _ Hb Hl). reflexivity.
  - intros first others -> Hn. unfold extract_vendor.
    rewrite (first_vendor_none Hn). reflexivity.
Qed.

(** C4 as the claim words it fails: a first line with blanks around it is
    not returned verbatim. *)
Lemma extract_vendor_fallback_not_verbatim :
  first_vendor (firstn 5 [u " 12 "]) = None
  /\ extract_vendor [u " 12 "] = Ok (Some (u "12"))
  /\ extract_vendor [u " 12 "] <> Ok (Some (u " 12 ")).
Proof. repeat split; try reflexivity. discriminate. Qed.

Example extract_vendor_joes_diner :
  extract_vendor (map u ["123 Main St"; "Joe's Diner"; "Thank you"]%string)
  = Ok (Some (u "Joe's Diner")).
Proof. reflexivity. Qed.

End VendorFacts.

(** ** Words of the patterns, read off their syntax *)

Section LangFacts.

Lemma lang_eps w : lang Eps w <-> w = [].
Proof. split; [inversion 1; auto | intros ->; constructor]. Qed.

Lemma lang_chr p w : lang (Chr p) w <-> exists c, w = [c] /\ p c = true.
Proof.
  split.
  - inversion 1; subst. eauto.
  - intros (c & -> & H). constructor; auto.
Qed.

Lemma lang_cat r1 r2 w :
  lang (Cat r1 r2) w <-> exists w1 w2, w = w1 ++ w2 /\ lang r1 w1 /\ lang r2 w2.
Proof.
  split.
  - inversion 1; subst. eauto.
  - intros (w1 & w2 & -> & H1 & H2). constructor; auto.
Qed.

Lemma lang_alt r1 r2 w : lang (Alt r1 r2) w <-> lang r1 w \/ lang r2 w.
Proof.
  split.
  - inversion 1; subst; auto.
  - intros [H|H]; [apply L_alt_l | apply L_alt_r]; auto.
Qed.

Lemma lang_rep p lo hi w :
  lang (Rep p lo hi) w <-> forallb p w = true /\ in_bounds lo hi (length w).
Proof.
  split.
  - inversion 1; subst; auto.
  - intros [H1 H2]. constructor; auto.
Qed.

Lemma lang_grp i r w : lang (Grp i r) w <-> lang r w.
Proof.
  split.
  - inversion 1; subst; auto.
  - intros H. constructor; auto.
Qed.

(** A literal without flags spells itself. *)
Lemma lang_lit_exact w : forall v, lang (lit N.eqb w) v <-> v = w.
Proof.
  induction w as [|c w IH]; intros v.
  - simpl. apply lang_eps.
  - destruct w as [|d w].
    + simpl. rewrite lang_chr. split.
      * intros (x & -> & E). apply N.eqb_eq in E. subst; auto.
      * intros ->. exists c. split; auto. apply N.eqb_refl.
    + change (lit N.eqb (c :: d :: w)) with (Cat (Chr (N.eqb c)) (lit N.eqb (d :: w))).
      rewrite lang_cat. split.
      * intros (w1 & w2 & -> & H1 & H2). apply lang_chr in H1.
        destruct H1 as (x & -> & E). apply N.eqb_eq in E. subst x.
        apply IH in H2. subst. reflexivity.
      * intros ->. exists [c], (d :: w). repeat split.
        -- apply lang_chr. exists c. split; auto. apply N.eqb_refl.
        -- apply IH. reflexivity.
Qed.

Lemma lang_alts rs w : lang (alts rs) w <-> exists r, In r rs /\ lang r w.
Proof.
  induction rs as [|r rs IH].
  - simpl. rewrite lang_chr. split.
    + intros (c & _ & E). discriminate.
    + intros (r & [] & _).
  - destruct rs as [|r' rs].
    + simpl. split; [eauto|]. intros (r0 & [<-|[]] & H). exact H.
    + change (alts (r :: r' :: rs)) with (Alt r (alts (r' :: rs))).
      rewrite lang_alt, IH. split.
      * intros [H|(r0 & Hin & H)]; [exists r; simpl; auto|exists r0; simpl; auto].
      * intros (r0 & [<-|Hin] & H); [left; auto|right; eauto].
Qed.

End LangFacts.

(** ** Currency *)

Section CurrencyFacts.

Lemma lang_currency w :
  lang CURRENCY_REGEX w <->
  exists code, In (w, code) currency_table /\ get_default CURRENCY_CODES w w = code.
Proof.
  unfold CURRENCY_REGEX. rewrite lang_grp, lang_alts. split.
  - intros (r & Hin & H). cbn [In] in Hin.
    destruct Hin as [<-|[<-|[<-|[<-|[]]]]].
    + apply lang_chr in H. destruct H as (c & -> & E).
      cbn in E. rewrite !orb_true_iff, !N.eqb_eq in E.
      destruct E as [->|[->|[->|E]]]; [| | |discriminate];
        eexists; (split; [|reflexivity]); cbn; auto 10.
    + apply lang_lit_exact in H. subst w.
      eexists; (split; [|reflexivity]); cbn; auto 10.
    + apply lang_lit_exact in H. subst w.
      eexists; (split; [|reflexivity]); cbn; auto 10.
    + apply lang_lit_exact in H. subst w.
      eexists; (split; [|reflexivity]); cbn; auto 10.
  - intros (code & Hin & _). cbn in Hin.
    destruct Hin as [E|[E|[E|[E|[E|[E|[]]]]]]]; inversion E; subst.
    + eexists. split; [left; reflexivity|]. apply lang_chr. eexists. split; reflexivity.
    + eexists. split; [left; reflexivity|]. apply lang_chr. eexists. split; reflexivity.
    + eexists. split; [left; reflexivity|]. apply lang_chr. eexists. split; reflexivity.
    + eexists. split; [right; left; reflexivity|]. apply lang_lit_exact. reflexivity.
    + eexists. split; [right; right; left; reflexivity|]. apply lang_lit_exact. reflexivity.
    + eexists. split; [right; right; right; left; reflexivity|]. apply lang_lit_exact. reflexivity.
Qed.

Lemma group_of_outer_group i r s rest g :
  match_here (Grp i r) s = Some (rest, g) -> group i g = Some (taken s rest).
Proof.
  unfold match_here. simpl. intros H.
  destruct (exec_sound _ _ _ _ H) as (w & s' & g' & _ & _ & Hk).
  inversion Hk; subst. simpl. rewrite Nat.eqb_refl. reflexivity.
Qed.

Lemma search_from_outer_group i r s : forall pos m,
  search_from (Grp i r) s pos = Some m -> group i (m_groups m) = Some (m_text m).
Proof.
  induction s as [|c s IH]; intros pos m H; simpl in H.
  - destruct (match_here (Grp i r) []) as [[rest g]|] eqn:E; [|discriminate].
    inversion H; subst; simpl. eapply group_of_outer_group; eauto.
  - destruct (match_here (Grp i r) (c :: s)) as [[rest g]|] eqn:E.
    + inversion H; subst; simpl. eapply group_of_outer_group; eauto.
    + eauto.
Qed.

(** C7.  The currency is the code of the leftmost symbol or code of the
    table found in the text ($ gives USD, € EUR, £ GBP, a literal USD, EUR
    or GBP is kept); it is None exactly when the text holds none of them. *)
Theorem currency_is_first_symbol_or_code (text : str) :
  match currency_of text with
  | Some code =>
    exists pre tok post,
      text = pre ++ tok ++ post /\ In (tok, code) currency_table
      /\ forall pre' tok' post' code',
           text = pre' ++ tok' ++ post' -> In (tok', code') currency_table ->
           length pre <= length pre'
  | None =>
    forall pre tok post code,
      text = pre ++ tok ++ post -> ~ In (tok, code) currency_table
  end.
Proof.
  unfold currency_of. destruct (search CURRENCY_REGEX text) as [m|] eqn:E.
  - unfold search in E.
    destruct (search_from_sound _ _ _ E) as (pre & rest & Hs & _ & L & Hleft).
    unfold m_group. unfold CURRENCY_REGEX in E at 1.
    erewrite search_from_outer_group by exact E.
    apply lang_currency in L. destruct L as (code & Hin & ->).
    exists pre, (m_text m), rest. repeat split; auto.
    intros pre' tok' post' code' Hs' Hin'. eapply Hleft; eauto.
    apply lang_currency. 
    assert (exists c, In (tok', c) currency_table /\ get_default CURRENCY_CODES tok' tok' = c) as X; [|exact X].
    cbn in Hin'.
    destruct Hin' as [E'|[E'|[E'|[E'|[E'|[E'|[]]]]]]]; inversion E'; subst;
      eexists; (split; [|reflexivity]); cbn; auto 10.
  - intros pre tok post code Hs Hin.
    eapply search_from_none; [exact E|exact Hs|].
    apply lang_currency.
    cbn in Hin.
    destruct Hin as [E'|[E'|[E'|[E'|[E'|[E'|[]]]]]]]; inversion E'; subst;
      eexists; (split; [|reflexivity]); cbn; auto 10.
Qed.

Example currency_pound :
  currency_of (u "Total: £12.00") = Some (u "GBP").
Proof. reflexivity. Qed.

End CurrencyFacts.

(** ** Dates *)

Section DateFacts.

Lemma lang_digit_rep lo hi w :
  lang (digit_rep lo hi) w <-> lo <= length w <= hi /\ forallb isdecimal w = true.
Proof.
  unfold digit_rep. rewrite lang_rep. unfold in_bounds. tauto.
Qed.

Lemma lang_slash_or_dash w :
  lang slash_or_dash w <-> exists c, w = [c] /\ date_separator c.
Proof.
  unfold slash_or_dash, date_separator. rewrite lang_chr.
  split; intros (c & -> & H); exists c; split; auto.
  - cbn in H. rewrite !orb_true_iff, !N.eqb_eq in H.
    destruct H as [H|[H|H]]; auto. discriminate.
  - cbn. rewrite !orb_true_iff, !N.eqb_eq. tauto.
Qed.

Lemma lang_blanks w : lang (Rep isspace 1 None) w <-> blanks w.
Proof.
  rewrite lang_rep. unfold in_bounds, blanks.
  destruct w; simpl; split; intros [H1 H2]; repeat split; auto;
    try discriminate; try lia. congruence.
Qed.

Lemma digits_exact n w : digits n w <-> n <= length w <= n /\ forallb isdecimal w = true.
Proof. unfold digits. intuition lia. Qed.

(** The words of [DATE_REGEX] are the date shapes. *)
Lemma lang_date_regex w : lang DATE_REGEX w <-> date_shape w.
Proof.
  unfold DATE_REGEX. rewrite lang_grp, lang_alts. split.
  - intros (r & Hin & H). cbn [In] in Hin.
    destruct Hin as [<-|[<-|[<-|[]]]]; cbn [cats] in H;
      repeat (apply lang_cat in H;
              let w1 := fresh "w" in let w2 := fresh "w" in
              let H1 := fresh "H" in
              destruct H as (w1 & w2 & -> & H1 & H)).
    + apply lang_digit_rep, digits_exact in H0, H2, H.
      apply lang_slash_or_dash in H1, H3.
      destruct H1 as (s1 & -> & ?), H3 as (s2 & -> & ?).
      apply year_first; auto.
    + apply lang_digit_rep, digits_exact in H0, H2, H.
      apply lang_slash_or_dash in H1, H3.
      destruct H1 as (s1 & -> & ?), H3 as (s2 & -> & ?).
      apply day_first; auto.
    + apply lang_digit_rep in H0. apply lang_digit_rep, digits_exact in H.
      apply lang_blanks in H1, H3. apply lang_rep in H2.
      destruct H0, H2 as [? [? ?]].
      apply day_month_name; auto.
  - intros H. destruct H as [y s1 m s2 d Hy H1 Hm H2 Hd
                            |d s1 m s2 y Hd H1 Hm H2 Hy
                            |d b1 name b2 y Hd Hd' Hb1 Hn Hn' Hb2 Hy].
    + eexists. split; [left; reflexivity|]. cbn [cats].
      repeat (apply lang_cat; eexists _, _; split; [reflexivity|split]);
        try (apply lang_digit_rep, digits_exact; assumption);
        apply lang_slash_or_dash; eauto.
    + eexists. split; [right; left; reflexivity|]. cbn [cats].
      repeat (apply lang_cat; eexists _, _; split; [reflexivity|split]);
        try (apply lang_digit_rep, digits_exact; assumption);
        apply lang_slash_or_dash; eauto.
    + eexists. split; [right; right; left; reflexivity|]. cbn [cats].
      repeat (apply lang_cat; eexists _, _; split; [reflexivity|split]);
        try (apply lang_blanks; assumption).
      * apply lang_digit_rep. auto.
      * apply lang_rep. unfold in_bounds. auto.
      * apply lang_digit_rep, digits_exact; assumption.
Qed.

Lemma bind_ok {A B} (c : result A) (f : A -> result B) b :
  bind c f = Ok b -> exists a, c = Ok a /\ f a = Ok b.
Proof. destruct c; simpl; [eauto|discriminate]. Qed.

Lemma bind_raise {A B} (c : result A) (f : A -> result B) e :
  bind c f = Raise e -> c = Raise e \/ exists a, c = Ok a /\ f a = Raise e.
Proof. destruct c; simpl; [eauto|]. intros H; inversion H; auto. Qed.

Lemma int_raises_ValueError s e : int s = Raise e -> e = ValueError.
Proof.
  unfold int. destruct (strip s) as [|c l]; [inversion 1; auto|].
  destruct (forallb isdecimal (c :: l)); inversion 1; auto.
Qed.

Lemma index_of_raises_ValueError w l : forall i e,
  index_of w l i = Raise e -> e = ValueError.
Proof.
  induction l as [|x l IH]; simpl; intros i e H.
  - inversion H; auto.
  - destruct (str_eqb x w); [discriminate|eauto].
Qed.

Lemma new_date_raises_ValueError y m d e : new_date y m d = Raise e -> e = ValueError.
Proof.
  unfold new_date.
  destruct (_ && _); inversion 1; auto.
Qed.

(** [strptime] raises nothing but ValueError. *)
Lemma strptime_raises_ValueError raw fmt e :
  strptime raw fmt = Raise e -> e = ValueError.
Proof.
  unfold strptime. intros H.
  destruct (pattern fmt false); [|inversion H; auto].
  destruct (match_here r raw) as [[[|] g]|]; try (inversion H; auto; fail).
  apply bind_raise in H. destruct H as [H|(y & _ & H)].
  { destruct (group gY g); [eapply int_raises_ValueError; eauto|discriminate]. }
  apply bind_raise in H. destruct H as [H|(m & _ & H)].
  { destruct (group gm g); [eapply int_raises_ValueError; eauto|].
    destruct (group gB g); [eapply index_of_raises_ValueError; eauto|].
    destruct (group gb g); [eapply index_of_raises_ValueError; eauto|discriminate]. }
  apply bind_raise in H. destruct H as [H|(d & _ & H)].
  { destruct (group gd g); [eapply int_raises_ValueError; eauto|discriminate]. }
  eapply new_date_raises_ValueError; eauto.
Qed.

(** A date that [strptime] returns passed the checks of the constructor. *)
Lemma strptime_valid raw fmt d :
  strptime raw fmt = Ok d ->
  (1 <= year d <= 9999 /\ 1 <= month d <= 12 /\ 1 <= day d <= 31)%N.
Proof.
  unfold strptime. intros H.
  destruct (pattern fmt false); [|discriminate].
  destruct (match_here r raw) as [[[|] g]|]; try discriminate.
  apply bind_ok in H. destruct H as (y & _ & H).
  apply bind_ok in H. destruct H as (m & _ & H).
  apply bind_ok in H. destruct H as (dd & _ & H).
  unfold new_date in H.
  destruct (_ && _) eqn:E; inversion H; subst; simpl.
  rewrite !andb_true_iff, !N.leb_le in E.
  assert (days_in_month y m <= 31)%N.
  { unfold days_in_month.
    repeat match goal with |- context [if ?b then _ else _] => destruct b end; lia. }
  lia.
Qed.

Lemma zero_pad_range w bound :
  forallb (fun n => ascii_digits w (zero_pad w (N.of_nat n)))
          (seq 0 (N.to_nat bound)) = true ->
  forall n, (n < bound)%N -> ascii_digits w (zero_pad w n) = true.
Proof.
  intros H n Hn. rewrite forallb_forall in H.
  specialize (H (N.to_nat n)). rewrite N2Nat.id in H. apply H.
  apply in_seq. lia.
Qed.

Lemma zero_pad_year y : (y < 10000)%N -> ascii_digits 4 (zero_pad 4 y) = true.
Proof. apply (@zero_pad_range 4 10000%N). vm_compute. reflexivity. Qed.

Lemma zero_pad_two n : (n < 100)%N -> ascii_digits 2 (zero_pad 2 n) = true.
Proof. apply (@zero_pad_range 2 100%N). vm_compute. reflexivity. Qed.

Lemma isoformat_shape d :
  (1 <= year d <= 9999 /\ 1 <= month d <= 12 /\ 1 <= day d <= 31)%N ->
  iso_shaped (isoformat d).
Proof.
  intros (Hy & Hm & Hd). unfold isoformat.
  exists (zero_pad 4 (year d)), (zero_pad 2 (month d)), (zero_pad 2 (day d)).
  split; [reflexivity|].
  split; [|split]; (apply zero_pad_year || apply zero_pad_two); lia.
Qed.

Lemma try_formats_result raw fmts :
  (exists tried fmt later d,
     fmts = tried ++ fmt :: later /\ Forall (fails raw) tried
     /\ strptime raw fmt = Ok d /\ try_formats raw fmts = Ok (isoformat d))
  \/ (Forall (fails raw) fmts /\ try_formats raw fmts = Ok raw).
Proof.
  induction fmts as [|fmt fmts IH]; simpl.
  - right. split; auto.
  - destruct (strptime raw fmt) as [d|e] eqn:E.
    + left. exists [], fmt, fmts, d. repeat split; auto.
    + pose proof (strptime_raises_ValueError _ _ E). subst e.
      destruct IH as [(tried & f & later & d & -> & Ht & Hf & Hr)|[Hall Hr]].
      * left. exists (fmt :: tried), f, later, d. repeat split; auto.
      * right. split; auto.
Qed.

End DateFacts.

(** ** Successive matches *)

Section FinditerFacts.

Variable r : regex.

(** Stepping over the characters of the previous match. *)
Lemma finditer_from_skip w : forall s pos,
  finditer_from r (w ++ s) pos (length w) = finditer_from r s (pos + length w) 0.
Proof.
  induction w as [|c w IH]; intros s pos; simpl.
  - rewrite Nat.add_0_r. reflexivity.
  - rewrite IH. f_equal. lia.
Qed.

Lemma finditer_from_cons c s pos :
  finditer_from r (c :: s) pos 0
  = match match_here r (c :: s) with
    | Some (rest, g) =>
      mkMatch pos (taken (c :: s) rest) g
      :: finditer_from r s (S pos) (pred (length (c :: s) - length rest))
    | None => finditer_from r s (S pos) 0
    end.
Proof. simpl. destruct (match_here r (c :: s)) as [[? ?]|]; reflexivity. Qed.

(** After a match that consumed something the scan resumes at its end. *)
Lemma finditer_from_hit s rest g pos :
  match_here r s = Some (rest, g) -> length rest < length s ->
  finditer_from r s pos 0
  = mkMatch pos (taken s rest) g
    :: finditer_from r rest (pos + length (taken s rest)) 0.
Proof.
  intros H Hlen. destruct (match_here_sound _ _ H) as (w & Hs & _).
  subst s. rewrite taken_app.
  destruct w as [|c w]; [simpl in Hlen; lia|].
  change ((c :: w) ++ rest) with (c :: w ++ rest) in *.
  rewrite finditer_from_cons, H.
  change (c :: w ++ rest) with ((c :: w) ++ rest). rewrite taken_app.
  f_equal.
  replace (pred (length ((c :: w) ++ rest) - length rest)) with (length w)
    by (rewrite length_app; cbn [length]; lia).
  rewrite finditer_from_skip. f_equal. simpl. lia.
Qed.

Lemma finditer_from_miss c s pos :
  match_here r (c :: s) = None ->
  finditer_from r (c :: s) pos 0 = finditer_from r s (S pos) 0.
Proof. intros H. simpl. rewrite H. reflexivity. Qed.

(** Every match of [finditer] is a match of the pattern at its place. *)
Lemma finditer_from_sound s : forall pos skip m,
  In m (finditer_from r s pos skip) ->
  exists pre rest,
    s = pre ++ m_text m ++ rest
    /\ match_here r (m_text m ++ rest) = Some (rest, m_groups m).
Proof.
  induction s as [|c s IH]; intros pos skip m Hin.
  - destruct skip; simpl in Hin; [|contradiction].
    destruct (match_here r []) as [[rest g]|] eqn:E; [|contradiction].
    destruct Hin as [<-|[]]. simpl.
    destruct (match_here_sound _ _ E) as (w & Hs & _).
    symmetry in Hs. apply app_eq_nil in Hs. destruct Hs; subst.
    exists [], []. simpl. auto.
  - destruct skip as [|n]; simpl in Hin.
    + destruct (match_here r (c :: s)) as [[rest g]|] eqn:E.
      * destruct Hin as [<-|Hin].
        -- simpl. destruct (match_here_sound _ _ E) as (w & Hs & _).
           exists [], rest. rewrite Hs, taken_app. simpl. rewrite <- Hs. auto.
        -- destruct (IH _ _ _ Hin) as (pre & rest' & Hs & Hm).
           exists (c :: pre), rest'. simpl. rewrite <- Hs. auto.
      * destruct (IH _ _ _ Hin) as (pre & rest' & Hs & Hm).
        exists (c :: pre), rest'. simpl. rewrite <- Hs. auto.
    + destruct (IH _ _ _ Hin) as (pre & rest' & Hs & Hm).
      exists (c :: pre), rest'. simpl. rewrite <- Hs. auto.
Qed.

(** Where no word of the pattern occurs there is no match. *)
Lemma finditer_from_none s : forall pos,
  (forall pre w rest, s = pre ++ w ++ rest -> ~ lang r w) ->
  finditer_from r s pos 0 = [].
Proof.
  intros pos H. destruct (finditer_from r s pos 0) as [|m ms] eqn:E; auto.
  exfalso. assert (Hin : In m (finditer_from r s pos 0)) by (rewrite E; left; auto).
  destruct (finditer_from_sound _ _ _ _ Hin) as (pre & rest & Hs & Hm).
  destruct (match_here_sound _ _ Hm) as (w & Hw & L).
  apply app_inv_tail in Hw. subst w. eapply H; eauto.
Qed.

(** The groups of the matches do not depend on where the text starts. *)
Lemma finditer_from_groups s : forall pos pos' skip,
  map m_groups (finditer_from r s pos skip) = map m_groups (finditer_from r s pos' skip).
Proof.
  induction s as [|c s IH]; intros pos pos' skip.
  - destruct skip; simpl; auto. destruct (match_here r []) as [[? ?]|]; auto.
  - destruct skip; simpl; auto.
    destruct (match_here r (c :: s)) as [[? ?]|]; simpl; auto. f_equal. auto.
Qed.

End FinditerFacts.

(** ** Runs of a character class *)

Section RunFacts.

Variable p : cp -> bool.

(** With nothing behind it that can fail, a greedy repetition takes the
    whole run. *)
Lemma rep_takes_whole_run {A} (f : str -> A) s : forall lo x,
  rep p lo None s (fun s' => Some (f s')) = Some x ->
  exists w s', s = w ++ s' /\ forallb p w = true /\ lo <= length w
               /\ x = f s' /\ starts_outside p s'.
Proof.
  induction s as [|c s IH]; intros lo x H.
  - simpl in H. destruct lo; [|discriminate]. inversion H.
    exists [], []. simpl. auto.
  - simpl in H. destruct (p c) eqn:Hc; simpl in H.
    + destruct (rep p (pred lo) None s (fun s' => Some (f s'))) as [y|] eqn:E.
      * inversion H; subst y.
        destruct (IH _ _ E) as (w & s' & -> & Hw & Hlo & Hx & Hout).
        exists (c :: w), s'. simpl. rewrite Hc, Hw. repeat split; auto. lia.
      * exfalso. destruct lo; [|discriminate].
        apply (@rep_complete _ p [] 0 None s (fun s' => Some (f s'))); simpl; auto.
        -- unfold in_bounds. simpl. auto.
        -- discriminate.
    + destruct lo; [|discriminate]. inversion H.
      exists [], (c :: s). simpl. auto.
Qed.

(** A run that ends where the class ends is determined by the text. *)
Lemma run_unique w1 : forall w2 s1 s2,
  w1 ++ s1 = w2 ++ s2 -> forallb p w1 = true -> forallb p w2 = true ->
  starts_outside p s1 -> starts_outside p s2 -> w1 = w2 /\ s1 = s2.
Proof.
  induction w1 as [|c w1 IH]; intros w2 s1 s2 H H1 H2 O1 O2.
  - destruct w2 as [|d w2]; [auto|]. simpl in *. subst s1.
    simpl in O1. apply andb_true_iff in H2. destruct H2. congruence.
  - destruct w2 as [|d w2]; simpl in *.
    + subst s2. simpl in O2. apply andb_true_iff in H1. destruct H1. congruence.
    + inversion H; subst d. apply andb_true_iff in H1, H2.
      destruct H1, H2. destruct (IH w2 s1 s2); auto. subst. auto.
Qed.

End RunFacts.

(** ** Labelled numbers *)

Section LabelFacts.

Lemma lang_lit eq w : forall v,
  lang (lit eq w) v <-> Forall2 (fun p c => eq p c = true) w v.
Proof.
  induction w as [|c w IH]; intros v.
  - simpl. rewrite lang_eps. split.
    + intros ->. constructor.
    + inversion 1. reflexivity.
  - destruct w as [|d w].
    + simpl. rewrite lang_chr. split.
      * intros (x & -> & E). repeat constructor. exact E.
      * inversion 1 as [|? x ? ? E T]; subst. inversion T; subst. eauto.
    + change (lit eq (c :: d :: w)) with (Cat (Chr (eq c)) (lit eq (d :: w))).
      rewrite lang_cat. split.
      * intros (w1 & w2 & -> & H1 & H2). apply lang_chr in H1.
        destruct H1 as (x & -> & E). apply IH in H2. constructor; auto.
      * inversion 1 as [|? x ? t E T]; subst.
        exists [x], t. repeat split.
        -- apply lang_chr. eauto.
        -- apply IH. exact T.
Qed.

Lemma lang_labels labels lab :
  lang (alts (map (fun l => lit ieq (u l)) labels)) lab <-> label_of labels lab.
Proof.
  rewrite lang_alts. unfold label_of, spells. split.
  - intros (r & Hin & L). apply in_map_iff in Hin. destruct Hin as (l & <- & Hin).
    exists l. split; auto. apply lang_lit. exact L.
  - intros (l & Hin & S). exists (lit ieq (u l)). split.
    + apply in_map_iff. eauto.
    + apply lang_lit. exact S.
Qed.

Lemma ieq_in_candidates p c : ieq p c = true -> In c (ieq_candidates p).
Proof.
  unfold ieq, ieq_candidates. rewrite !orb_true_iff, !andb_true_iff, !orb_true_iff.
  rewrite !N.eqb_eq. intros [[[H|[_ [H|H]]]|[_ H]]|[_ H]]; subst; simpl; auto 10.
  unfold ascii_lower in H at 1. destruct (in_range 65 90 c).
  - right; left. lia.
  - left. auto.
Qed.

Lemma plain_label_char_sound p c :
  plain_label_char p = true -> ieq p c = true -> number_char c = false.
Proof.
  unfold plain_label_char. rewrite forallb_forall. intros H E.
  specialize (H c (ieq_in_candidates _ _ E)). rewrite E in H. simpl in H.
  destruct (number_char c); auto; discriminate.
Qed.

(** A check that decides [plain_labels] on a list of labels. *)
Lemma plain_labels_check labels :
  forallb (fun l => negb (Nat.eqb (length (u l)) 0) && forallb plain_label_char (u l))
          labels = true ->
  plain_labels labels.
Proof.
  rewrite forallb_forall. intros H lab (l & Hin & S).
  specialize (H l Hin). apply andb_true_iff in H. destruct H as [Hne Hall].
  unfold spells in S. split.
  - intros ->. inversion S as [E|]. rewrite <- E in Hne. discriminate.
  - clear Hne. induction S as [|p c w v E S IH]; auto.
    simpl in Hall. apply andb_true_iff in Hall. destruct Hall as [Hp Hall].
    simpl. rewrite (plain_label_char_sound _ _ Hp E). simpl. auto.
Qed.

Lemma plain_total_labels : plain_labels ["total"; "amount due"; "grand total"]%string.
Proof. apply plain_labels_check. vm_compute. reflexivity. Qed.

Lemma plain_tax_labels : plain_labels ["tax"; "vat"]%string.
Proof. apply plain_labels_check. vm_compute. reflexivity. Qed.

Lemma find_all_false {A} (f : A -> bool) l :
  (forall x, In x l -> f x = false) -> find f l = None.
Proof.
  induction l as [|x l IH]; simpl; intros H; auto.
  rewrite (H x) by auto. apply IH. auto.
Qed.

Lemma separator_is_no_number_char c : colon_or_space c = true -> number_char c = false.
Proof.
  unfold colon_or_space, number_char, isspace, isdecimal, decimal_value.
  rewrite !orb_true_iff, !andb_true_iff, !N.eqb_eq, !N.leb_le.
  intros H.
  assert (Hc : (c = 58 \/ 9 <= c <= 13 \/ 28 <= c <= 32 \/ c = 133 \/ c = 160
                \/ c = 5760 \/ 8192 <= c <= 8202 \/ c = 8232 \/ c = 8233
                \/ c = 8239 \/ c = 8287 \/ c = 12288)%N) by lia.
  clear H.
  assert (Hf : find (fun z => ((z <=? c) && (c <? z + 10))%N) Nd_zeros = None).
  { apply find_all_false. intros z Hz.
    apply andb_false_iff. rewrite N.leb_gt, N.ltb_ge.
    unfold Nd_zeros in Hz. simpl in Hz.
    repeat (destruct Hz as [<-|Hz]; [lia|]). contradiction. }
  rewrite Hf. simpl.
  apply orb_false_iff. split; apply N.eqb_neq; lia.
Qed.

Lemma separators_are_no_number_chars sep :
  forallb colon_or_space sep = true ->
  forallb (fun c => negb (number_char c)) sep = true.
Proof.
  induction sep as [|c sep IH]; simpl; auto.
  rewrite !andb_true_iff. intros [Hc Hs].
  rewrite (separator_is_no_number_char _ Hc). auto.
Qed.

(** What a match of a labelled pattern at the head of [s] consists of. *)
Lemma labelled_match_here labels s rest g :
  match_here (labelled labels) s = Some (rest, g) ->
  exists lab sep num,
    labelled_number labels s [] lab sep num rest /\ group 2 g = Some num.
Proof.
  unfold match_here, labelled. cbn [cats exec]. intros H.
  apply exec_sound in H. destruct H as (lab & s1 & g1 & -> & Llab & H).
  apply rep_sound in H. destruct H as (sep & s2 & -> & Hsep & _ & H).
  apply (rep_takes_whole_run number_char
           (fun s3 => (s3, (2, taken s2 s3) :: (1, taken (lab ++ sep ++ s2) (sep ++ s2)) :: g1)))
    in H.
  destruct H as (num & s3 & -> & Hnum & Hlen & Hx & Hout).
  inversion Hx; subst rest g. clear Hx.
  exists lab, sep, num. split.
  - unfold labelled_number. repeat split; auto.
    + apply lang_labels. exact Llab.
    + intros ->. simpl in Hlen. lia.
  - simpl. rewrite taken_app. reflexivity.
Qed.

(** An occurrence makes the pattern match where the label starts. *)
Lemma labelled_number_lang labels text pre lab sep num rest :
  labelled_number labels text pre lab sep num rest ->
  lang (labelled labels) (lab ++ sep ++ num).
Proof.
  intros (_ & Hlab & Hsep & Hne & Hnum & _). unfold labelled. cbn [cats].
  apply lang_cat. exists lab, (sep ++ num). repeat split.
  - apply lang_grp, lang_labels. exact Hlab.
  - apply lang_cat. exists sep, num. repeat split.
    + apply lang_rep. split; auto. unfold in_bounds. split; [lia|auto].
    + apply lang_grp, lang_rep. split; auto. unfold in_bounds. split; auto.
      destruct num; [contradiction|simpl; lia].
Qed.

End LabelFacts.

(** ** Where a match can end around a labelled number *)

Section CoverFacts.

Variable p : cp -> bool.

Local Abbreviation outside w := (forallb (fun c => negb (p c)) w = true).
Local Abbreviation inside w := (forallb p w = true).

(** A run that starts before a stretch outside the class ends before it. *)
Lemma run_stops_before P : forall Y r U T,
  Y ++ r = P ++ U ++ T -> inside Y -> U <> [] -> outside U ->
  length Y <= length P.
Proof.
  induction P as [|c P IH]; intros Y r U T H HY HU HoU.
  - destruct Y as [|y Y]; [simpl; lia|]. exfalso.
    destruct U as [|x U]; [contradiction|].
    simpl in H. inversion H; subst x.
    simpl in HY, HoU. apply andb_true_iff in HY, HoU.
    destruct HY as [HY _], HoU as [HoU _]. rewrite HY in HoU. discriminate.
  - destruct Y as [|y Y]; [simpl; lia|].
    simpl in H. inversion H; subst y.
    simpl in HY. apply andb_true_iff in HY. destruct HY as [_ HY].
    simpl. apply le_n_S. eapply IH; eauto.
Qed.

(** Two runs, each behind a stretch outside the class, in the same text. *)
Lemma run_aligned X : forall U Y r M R,
  X ++ Y ++ r = U ++ M ++ R -> outside X -> outside U ->
  inside Y -> Y <> [] -> inside M -> M <> [] ->
  starts_outside p r -> starts_outside p R -> Y = M /\ r = R.
Proof.
  induction X as [|x X IH]; intros U Y r M R H HX HU HY HYn HM HMn Hr HR.
  - destruct U as [|c U].
    + simpl in H. eapply run_unique; eauto.
    + exfalso. destruct Y as [|y Y]; [contradiction|].
      simpl in H. inversion H; subst y.
      simpl in HY, HU. apply andb_true_iff in HY, HU.
      destruct HY as [HY _], HU as [HU _]. rewrite HY in HU. discriminate.
  - destruct U as [|c U].
    + exfalso. destruct M as [|m M]; [contradiction|].
      simpl in H. inversion H; subst m.
      simpl in HX, HM. apply andb_true_iff in HX, HM.
      destruct HX as [HX _], HM as [HM _]. rewrite HM in HX. discriminate.
    + simpl in H. inversion H; subst c.
      simpl in HX, HU. apply andb_true_iff in HX, HU.
      destruct HX as [_ HX], HU as [_ HU]. eapply IH; eauto.
Qed.

(** A stretch outside the class followed by a whole run, found somewhere in
    [P ++ U ++ M ++ R] where [M] is a whole run behind [U]: the found run
    ends within [P], or it is [M]. *)
Lemma run_located P : forall X Y r U M R,
  X ++ Y ++ r = P ++ U ++ M ++ R -> outside X ->
  inside Y -> Y <> [] -> starts_outside p r ->
  outside U -> U <> [] -> inside M -> M <> [] -> starts_outside p R ->
  length (X ++ Y) <= length P \/ (Y = M /\ r = R).
Proof.
  induction P as [|c P IH]; intros X Y r U M R H HX HY HYn Hr HU HUn HM HMn HR.
  - right. simpl in H. eapply run_aligned; eauto.
  - destruct X as [|x X].
    + left. apply (@run_stops_before (c :: P) Y r U (M ++ R)); auto.
    + simpl in H. inversion H; subst x.
      simpl in HX. apply andb_true_iff in HX. destruct HX as [_ HX].
      destruct (IH X Y r U M R) as [Hl|Hr']; auto.
      left. simpl. lia.
Qed.

End CoverFacts.

Lemma app_prefix_split {A} (a : list A) : forall r P b,
  a ++ r = P ++ b -> length a <= length P -> exists P2, P = a ++ P2 /\ r = P2 ++ b.
Proof.
  induction a as [|x a IH]; intros r P b H Hlen.
  - exists P. auto.
  - destruct P as [|c P]; [simpl in Hlen; lia|].
    simpl in H. inversion H; subst c.
    destruct (IH r P b) as (P2 & -> & ->); auto. { simpl in Hlen. lia. }
    exists P2. auto.
Qed.

Lemma forallb_app_true {A} (f : A -> bool) a b :
  forallb f a = true -> forallb f b = true -> forallb f (a ++ b) = true.
Proof. intros Ha Hb. rewrite forallb_app, Ha, Hb. reflexivity. Qed.

Section LabelledScan.

Variable labels : list string.
Hypothesis plain : plain_labels labels.

(** A match that starts anywhere before a labelled number either ends
    before its label, or ends with that number as its own. *)
Lemma labelled_match_around P pre lab sep num rest text r g :
  labelled_number labels text pre lab sep num rest ->
  match_here (labelled labels) (P ++ lab ++ sep ++ num ++ rest) = Some (r, g) ->
  (exists P1 P2, P = P1 ++ P2 /\ P1 <> [] /\ r = P2 ++ lab ++ sep ++ num ++ rest)
  \/ (r = rest /\ group 2 g = Some num).
Proof.
  intros (_ & Hlab & Hsep & Hne & Hnum & Hout) H.
  apply labelled_match_here in H.
  destruct H as (lab' & sep' & num' & (Hs & Hlab' & Hsep' & Hne' & Hnum' & Hout') & Hg).
  simpl in Hs.
  destruct (plain Hlab) as [Hlne Hlo], (plain Hlab') as [Hlne' Hlo'].
  destruct (@run_located number_char P (lab' ++ sep') num' r (lab ++ sep) num rest)
    as [Hin|[-> ->]].
  - rewrite <- !app_assoc. symmetry. exact Hs.
  - apply forallb_app_true; auto. apply separators_are_no_number_chars; auto.
  - exact Hnum'.
  - exact Hne'.
  - exact Hout'.
  - apply forallb_app_true; auto. apply separators_are_no_number_chars; auto.
  - destruct lab; [contradiction|discriminate].
  - exact Hnum.
  - exact Hne.
  - exact Hout.
  - left. destruct (@app_prefix_split _ ((lab' ++ sep') ++ num') r P
                      (lab ++ sep ++ num ++ rest)) as (P2 & HP & Hr); auto.
    { rewrite <- !app_assoc. symmetry. exact Hs. }
    exists ((lab' ++ sep') ++ num'), P2. repeat split; auto.
    destruct lab'; [contradiction|discriminate].
  - right. auto.
Qed.

(** The matches over a text with a labelled number: some matches before it,
    one that carries the number, and the matches of what follows. *)
Lemma finditer_reaches_number pre lab sep num rest text :
  labelled_number labels text pre lab sep num rest ->
  forall n P, length P <= n -> forall pos,
  exists before m pos',
    finditer_from (labelled labels) (P ++ lab ++ sep ++ num ++ rest) pos 0
    = before ++ m :: finditer_from (labelled labels) rest pos' 0
    /\ group 2 (m_groups m) = Some num.
Proof.
  intros Hocc. pose proof Hocc as (_ & Hlab & _ & Hne & _).
  destruct (plain Hlab) as [Hlne _].
  induction n as [|n IH]; intros P Hlen pos.
  - destruct P; [|simpl in Hlen; lia]. simpl.
    destruct (match_here (labelled labels) (lab ++ sep ++ num ++ rest))
      as [[r g]|] eqn:E.
    + destruct (@labelled_match_around [] pre lab sep num rest text r g Hocc E)
        as [(P1 & P2 & HP & HP1 & _)|[-> Hg]].
      { symmetry in HP. apply app_eq_nil in HP. destruct HP. contradiction. }
      rewrite (@finditer_from_hit _ _ _ _ pos E).
      * eexists [], _, _. simpl. split; [reflexivity|exact Hg].
      * rewrite !length_app. destruct lab; [contradiction|simpl; lia].
    + exfalso. pose proof (labelled_number_lang Hocc) as L.
      apply (match_here_complete rest L). rewrite <- !app_assoc. exact E.
  - destruct P as [|c P]; [apply (IH []); simpl; lia|].
    destruct (match_here (labelled labels) ((c :: P) ++ lab ++ sep ++ num ++ rest))
      as [[r g]|] eqn:E.
    + destruct (labelled_match_around _ Hocc E)
        as [(P1 & P2 & HP & HP1 & Hr)|[-> Hg]].
      * assert (Hlt : length P2 <= n).
        { apply (f_equal (@length _)) in HP. rewrite length_app in HP.
          simpl in Hlen, HP. destruct P1; [contradiction|simpl in HP; lia]. }
        rewrite (@finditer_from_hit _ _ _ _ pos E).
        2:{ rewrite Hr, HP, <- app_assoc, !length_app.
            destruct P1; [contradiction|simpl; lia]. }
        rewrite Hr.
        destruct (IH P2 Hlt (pos + length (taken ((c :: P) ++ lab ++ sep ++ num ++ rest)
                                                 (P2 ++ lab ++ sep ++ num ++ rest))))
          as (before & m & pos' & Heq & Hg).
        rewrite Heq. eexists (_ :: before), m, pos'. split; [reflexivity|exact Hg].
      * rewrite (@finditer_from_hit _ _ _ _ pos E).
        -- eexists [], _, _. simpl. split; [reflexivity|exact Hg].
        -- rewrite !length_app. simpl. destruct lab; [contradiction|simpl; lia].
    + change ((c :: P) ++ lab ++ sep ++ num ++ rest)
        with (c :: P ++ lab ++ sep ++ num ++ rest) in *.
      rewrite (@finditer_from_miss _ _ _ pos E).
      destruct (IH P ltac:(simpl in Hlen; lia) (S pos))
        as (before & m & pos' & Heq & Hg).
      exists before, m, pos'. auto.
Qed.

End LabelledScan.

(** ** Scanning, and the numbers of the fallback *)

Section ScanFacts.

Variable r : regex.
Hypothesis nonempty : ~ lang r [].

Lemma scan_shift shape c s ws :
  scanning shape s ws -> (forall w rest, c :: s = w ++ rest -> ~ shape w) ->
  scanning shape (c :: s) ws.
Proof.
  intros H Hc. destruct H as [s Hnone|pre w rest ws Hw Hleft Hrest].
  - apply scan_end. intros pre w rest Hs. destruct pre as [|c' pre].
    + eapply Hc; eauto.
    + simpl in Hs. inversion Hs; subst. eapply Hnone; eauto.
  - change (c :: pre ++ w ++ rest) with ((c :: pre) ++ w ++ rest).
    apply scan_hit; auto.
    intros pre' w' rest' Hs Hw'. destruct pre' as [|c' pre'].
    + exfalso. simpl in Hs. exact (Hc w' rest' Hs Hw').
    + simpl in Hs. inversion Hs; subst c'. simpl. apply le_n_S. eapply Hleft; eauto.
Qed.

(** [findall] scans for the words of its pattern. *)
Lemma findall_from_scans n : forall s pos, length s <= n ->
  scanning (lang r) s (map m_text (finditer_from r s pos 0)).
Proof.
  induction n as [|n IH]; intros s pos Hlen.
  - destruct s; [|simpl in Hlen; lia]. simpl.
    destruct (match_here r []) as [[rest g]|] eqn:E.
    + exfalso. destruct (match_here_sound _ _ E) as (w & Hs & L).
      symmetry in Hs. apply app_eq_nil in Hs. destruct Hs; subst. auto.
    + simpl. apply scan_end. intros pre w rest Hs L.
      destruct pre; [|discriminate]. destruct w; [auto|discriminate].
  - destruct s as [|c s]; [apply (IH [] pos); simpl; lia|].
    destruct (match_here r (c :: s)) as [[rest g]|] eqn:E.
    + destruct (match_here_sound _ _ E) as (w & Hs & L).
      assert (Hw : w <> []) by (intros ->; auto).
      assert (Hlt : length rest < length (c :: s)).
      { rewrite Hs, length_app. destruct w; [contradiction|simpl; lia]. }
      rewrite (@finditer_from_hit _ _ _ _ pos E Hlt). simpl map.
      rewrite Hs at 1. rewrite Hs, taken_app.
      apply (@scan_hit (lang r) [] w rest); auto.
      * intros. simpl. lia.
      * apply IH. simpl in Hlt, Hlen. lia.
    + rewrite (@finditer_from_miss _ _ _ pos E).
      apply scan_shift.
      * apply IH. simpl in Hlen. lia.
      * intros w rest Hs L. apply (match_here_complete rest L).
        rewrite <- Hs. exact E.
Qed.

Lemma findall_scans s : scanning (lang r) s (findall r s).
Proof. apply (@findall_from_scans (length s)). lia. Qed.

End ScanFacts.

Lemma scan_ext (shape shape' : str -> Prop) s ws :
  (forall w, shape w <-> shape' w) -> scanning shape s ws -> scanning shape' s ws.
Proof.
  intros Hiff H. induction H as [s Hnone|pre w rest ws Hw Hleft Hrest IH].
  - apply scan_end. intros pre w rest Hs Hw. apply (Hnone _ _ _ Hs). apply Hiff; auto.
  - apply scan_hit; auto.
    + apply Hiff; auto.
    + intros pre' w' rest' Hs Hw'. eapply Hleft; eauto. apply Hiff; auto.
Qed.

(** ** Floats without a sign, and their order *)

Section FloatFacts.

Import SpecFloat FloatOps.

Lemma to_Z_rec_not_negative n : forall i, (0 <= Uint63Axioms.to_Z_rec n i)%Z.
Proof.
  induction n as [|n IH]; intros i; simpl; [lia|].
  match goal with
  | |- context [Uint63Axioms.to_Z_rec n ?j] => specialize (IH j)
  end.
  destruct (Uint63Axioms.is_even i).
  - rewrite Z.double_spec. lia.
  - rewrite Z.succ_double_spec. lia.
Qed.

Lemma shr_1_not_negative mrs : (0 <= shr_m mrs)%Z -> (0 <= shr_m (shr_1 mrs))%Z.
Proof.
  destruct mrs as [m r s]. simpl.
  destruct m as [|[p|p|]|p]; simpl; lia.
Qed.

Lemma iter_shr_1_not_negative p : forall mrs,
  (0 <= shr_m mrs)%Z -> (0 <= shr_m (iter_pos shr_1 p mrs))%Z.
Proof.
  induction p as [p IH|p IH|]; intros mrs H; simpl.
  - apply IH, IH, shr_1_not_negative, H.
  - apply IH, IH, H.
  - apply shr_1_not_negative, H.
Qed.

Lemma shr_fexp_not_negative m e l :
  (0 <= m)%Z -> (0 <= shr_m (fst (shr_fexp prec emax m e l)))%Z.
Proof.
  intros H. unfold shr_fexp, shr.
  assert (H0 : (0 <= shr_m (shr_record_of_loc m l))%Z)
    by (destruct l as [|[| |]]; exact H).
  destruct (_ - e)%Z; simpl; auto.
  apply iter_shr_1_not_negative, H0.
Qed.

Lemma round_nearest_even_not_negative m l :
  (0 <= m)%Z -> (0 <= round_nearest_even m l)%Z.
Proof.
  intros H. destruct l as [|[| |]]; simpl; try lia.
  destruct (Z.even m); lia.
Qed.

Lemma binary_round_aux_unsigned mx ex lx :
  (0 <= mx)%Z -> unsigned_number (binary_round_aux prec emax false mx ex lx).
Proof.
  intros H. unfold binary_round_aux.
  pose proof (@shr_fexp_not_negative mx ex lx H) as H1.
  destruct (shr_fexp prec emax mx ex lx) as (mrs' & e'). simpl in H1.
  pose proof (@shr_fexp_not_negative _ e' loc_Exact
                (@round_nearest_even_not_negative _ (loc_of_shr_record mrs') H1)) as H2.
  destruct (shr_fexp prec emax _ e' loc_Exact) as (mrs'' & e''). simpl in H2.
  destruct (shr_m mrs''); simpl; auto; try lia.
  destruct (Z.leb e'' _); simpl; auto.
Qed.

Lemma binary_round_unsigned mx ex :
  unsigned_number (binary_round prec emax false mx ex).
Proof.
  unfold binary_round. destruct (shl_align _ _ _) as (mz & ez).
  apply binary_round_aux_unsigned. lia.
Qed.

Lemma of_uint63_unsigned i : unsigned_number (Prim2SF (PrimFloat.of_uint63 i)).
Proof.
  rewrite FloatAxioms.of_uint63_spec. unfold binary_normalize.
  pose proof (to_Z_rec_not_negative Uint63Axioms.size i) as H.
  fold (Uint63Axioms.to_Z i) in H.
  destruct (Uint63Axioms.to_Z i); simpl; auto.
  - apply binary_round_unsigned.
  - lia.
Qed.

Lemma ldexp_unsigned f e :
  unsigned_number (Prim2SF f) -> unsigned_number (Prim2SF (Z.ldexp f e)).
Proof.
  intros H. unfold Z.ldexp. rewrite FloatAxioms.ldshiftexp_spec.
  unfold SFldexp. destruct (Prim2SF f); simpl in *; auto.
  subst. apply binary_round_unsigned.
Qed.

Lemma nearest_double_unsigned num den :
  unsigned_number (Prim2SF (nearest_double num den)).
Proof.
  unfold nearest_double.
  destruct (over_power num den _) as (n & d).
  apply ldexp_unsigned, of_uint63_unsigned.
Qed.

(** The comparison of two unsigned numbers, and of the same two the other
    way round. *)
Lemma compare_unsigned x y :
  unsigned_number x -> unsigned_number y ->
  exists c, SFcompare x y = Some c /\ SFcompare y x = Some (CompOpp c).
Proof.
  destruct x as [s|s| |s m e], y as [s'|s'| |s' m' e']; simpl;
    intros Hx Hy; try contradiction; subst; eauto.
  fold (Pos.compare m m'). fold (Pos.compare m' m).
  rewrite (Z.compare_antisym e e'), (Pos.compare_antisym m m').
  destruct (e ?= e')%Z; simpl; eauto.
Qed.

Lemma compare_unsigned_trans x y z :
  unsigned_number x -> unsigned_number y -> unsigned_number z ->
  SFleb x y = true -> SFleb y z = true -> SFleb x z = true.
Proof.
  unfold SFleb.
  destruct x as [s|s| |s m e], y as [s'|s'| |s' m' e'], z as [s''|s''| |s'' m'' e''];
    simpl; intros Hx Hy Hz; try contradiction; subst; auto; try discriminate.
  fold (Pos.compare m m'). fold (Pos.compare m' m''). fold (Pos.compare m m'').
  destruct (Z.compare_spec e e'), (Z.compare_spec e' e''); try discriminate;
    destruct (Z.compare_spec e e''); try lia; auto;
    destruct (Pos.compare_spec m m'), (Pos.compare_spec m' m''); try discriminate;
    destruct (Pos.compare_spec m m''); try lia; auto.
Qed.

Lemma leb_reflexive x : unsigned_number (Prim2SF x) -> PrimFloat.leb x x = true.
Proof.
  intros H. rewrite FloatAxioms.leb_spec. unfold SFleb.
  destruct (Prim2SF x) as [s|s| |s m e]; simpl in *; try contradiction; subst; auto.
  rewrite Z.compare_refl. fold (Pos.compare m m). rewrite Pos.compare_refl. reflexivity.
Qed.

Lemma leb_transitive x y z :
  unsigned_number (Prim2SF x) -> unsigned_number (Prim2SF y) ->
  unsigned_number (Prim2SF z) ->
  PrimFloat.leb x y = true -> PrimFloat.leb y z = true -> PrimFloat.leb x z = true.
Proof. rewrite !FloatAxioms.leb_spec. apply compare_unsigned_trans. Qed.

Lemma ltb_leb x y :
  PrimFloat.ltb x y = true -> PrimFloat.leb x y = true.
Proof.
  rewrite FloatAxioms.ltb_spec, FloatAxioms.leb_spec. unfold SFltb, SFleb.
  destruct (SFcompare _ _) as [[| |]|]; auto.
Qed.

Lemma not_ltb_leb x y :
  unsigned_number (Prim2SF x) -> unsigned_number (Prim2SF y) ->
  PrimFloat.ltb x y = false -> PrimFloat.leb y x = true.
Proof.
  intros Hx Hy. rewrite FloatAxioms.ltb_spec, FloatAxioms.leb_spec. unfold SFltb, SFleb.
  destruct (compare_unsigned _ _ Hx Hy) as (c & -> & ->).
  destruct c; simpl; auto; discriminate.
Qed.

Lemma zero_leb x : unsigned_number (Prim2SF x) -> PrimFloat.leb PrimFloat.zero x = true.
Proof.
  intros H. rewrite FloatAxioms.leb_spec. unfold SFleb.
  change (Prim2SF PrimFloat.zero) with (S754_zero false).
  destruct (Prim2SF x) as [s|s| |s m e]; simpl in *; try contradiction; subst; auto.
Qed.

End FloatFacts.

(** ** Numbers that [float] reads *)

Section NumberFacts.

Lemma float_raises_ValueError s e : float s = Raise e -> e = ValueError.
Proof.
  unfold float.
  destruct (dropwhile isdecimal (strip s)) as [|c fr].
  - destruct (takewhile isdecimal (strip s)); inversion 1; auto.
  - destruct (_ && _); inversion 1; auto.
Qed.

Lemma ascii_digit_isdecimal c : ascii_digit c = true -> isdecimal c = true.
Proof.
  unfold ascii_digit, in_range, isdecimal, decimal_value.
  rewrite andb_true_iff, !N.leb_le. intros [H1 H2].
  unfold Nd_zeros. cbn [find].
  assert (E : ((48 <=? c) && (c <? 48 + 10) = true)%N).
  { apply andb_true_iff. rewrite N.leb_le, N.ltb_lt. lia. }
  rewrite E. reflexivity.
Qed.

Lemma ascii_digits_isdecimal w :
  forallb ascii_digit w = true -> forallb isdecimal w = true.
Proof.
  induction w as [|c w IH]; simpl; auto.
  rewrite !andb_true_iff. intros [Hc Hw]. split; auto.
  apply ascii_digit_isdecimal; auto.
Qed.

Lemma ascii_digit_plain c :
  ascii_digit c = true -> isspace c = false /\ (c =? 44)%N = false /\ (c =? 46)%N = false.
Proof.
  unfold ascii_digit, in_range, isspace.
  rewrite andb_true_iff, !N.leb_le. intros [H1 H2].
  repeat split.
  - repeat (apply orb_false_iff; split);
      try (apply N.eqb_neq; lia);
      apply andb_false_iff; rewrite !N.leb_gt; lia.
  - apply N.eqb_neq; lia.
  - apply N.eqb_neq; lia.
Qed.

Lemma lang_decimal_regex w : lang DECIMAL_REGEX w <-> decimal_shape w.
Proof.
  unfold DECIMAL_REGEX, decimal_shape. cbn [cats]. split.
  - intros H. apply lang_cat in H. destruct H as (ip & w2 & -> & Hip & H).
    apply lang_cat in H. destruct H as (dot & fr & -> & Hdot & Hfr).
    apply lang_rep in Hip, Hfr. destruct Hip as [Hip [Hlo _]], Hfr as [Hfr [Hlo' Hhi']].
    apply lang_chr in Hdot. destruct Hdot as (c & -> & Hc).
    apply N.eqb_eq in Hc. subst c.
    destruct fr as [|d1 [|d2 [|d3 fr]]]; simpl in Hlo', Hhi'; try lia.
    simpl in Hfr. rewrite !andb_true_iff in Hfr. destruct Hfr as (H1 & H2 & _).
    exists ip, d1, d2. repeat split; auto.
    intros ->. simpl in Hlo. lia.
  - intros (ip & d1 & d2 & -> & Hne & Hip & H1 & H2).
    apply lang_cat. exists ip, [46%N; d1; d2]. repeat split.
    + apply lang_rep. split; auto. unfold in_bounds.
      destruct ip; [contradiction|simpl; split; [lia|auto]].
    + apply lang_cat. exists [46%N], [d1; d2]. repeat split.
      * apply lang_chr. exists 46%N. split; auto.
      * apply lang_rep. simpl. rewrite H1, H2. unfold in_bounds. simpl. auto.
Qed.

Lemma decimal_shape_nonempty : ~ lang DECIMAL_REGEX [].
Proof.
  rewrite lang_decimal_regex. intros (ip & d1 & d2 & H & _).
  destruct ip; discriminate.
Qed.

Lemma lstrip_plain c s : isspace c = false -> lstrip (c :: s) = c :: s.
Proof. unfold lstrip. simpl. intros ->. reflexivity. Qed.

Lemma takewhile_app_stop {A} (f : A -> bool) a c b :
  forallb f a = true -> f c = false -> takewhile f (a ++ c :: b) = a.
Proof.
  induction a as [|x a IH]; simpl; intros Ha Hc.
  - rewrite Hc. reflexivity.
  - apply andb_true_iff in Ha. destruct Ha as [Hx Ha]. rewrite Hx, IH; auto.
Qed.

Lemma dropwhile_app_stop {A} (f : A -> bool) a c b :
  forallb f a = true -> f c = false -> dropwhile f (a ++ c :: b) = c :: b.
Proof.
  induction a as [|x a IH]; simpl; intros Ha Hc.
  - rewrite Hc. reflexivity.
  - apply andb_true_iff in Ha. destruct Ha as [Hx Ha]. rewrite Hx, IH; auto.
Qed.

Lemma filter_all {A} (f : A -> bool) l : forallb f l = true -> filter f l = l.
Proof.
  induction l as [|x l IH]; simpl; auto.
  rewrite andb_true_iff. intros [Hx Hl]. rewrite Hx, IH; auto.
Qed.

(** Every word of the fallback pattern is a literal that [float] accepts;
    it has no comma to remove. *)
Lemma decimal_shape_parses w :
  decimal_shape w ->
  remove_commas w = w /\ exists v, float w = Ok v.
Proof.
  intros (ip & d1 & d2 & -> & Hne & Hip & H1 & H2).
  destruct (ascii_digit_plain _ H1) as (S1 & C1 & _).
  destruct (ascii_digit_plain _ H2) as (S2 & C2 & _).
  split.
  - unfold remove_commas. apply filter_all. rewrite forallb_app.
    apply andb_true_iff. split.
    + clear Hne. induction ip as [|c ip IH]; simpl; auto.
      simpl in Hip. apply andb_true_iff in Hip. destruct Hip as [Hc Hip].
      destruct (ascii_digit_plain _ Hc) as (_ & -> & _). simpl. auto.
    + simpl. rewrite C1, C2. reflexivity.
  - unfold float.
    assert (Hstrip : strip (ip ++ [46%N; d1; d2]) = ip ++ [46%N; d1; d2]).
    { unfold strip. destruct ip as [|c ip]; [contradiction|].
      simpl in Hip. apply andb_true_iff in Hip. destruct Hip as [Hc _].
      destruct (ascii_digit_plain _ Hc) as (Sc & _ & _).
      change ((c :: ip) ++ [46%N; d1; d2]) with (c :: (ip ++ [46%N; d1; d2])).
      rewrite (@lstrip_plain c _ Sc).
      change (c :: ip ++ [46%N; d1; d2]) with ((c :: ip) ++ [46%N; d1] ++ [d2]).
      rewrite !app_assoc, rev_unit, (@lstrip_plain d2 _ S2).
      change (d2 :: rev (((c :: ip) ++ [46%N; d1])))
        with (rev [d2] ++ rev ((c :: ip) ++ [46%N; d1])).
      rewrite <- rev_app_distr, rev_involutive. reflexivity. }
    rewrite Hstrip.
    pose proof (ascii_digits_isdecimal _ Hip) as Hd.
    assert (Hdot : isdecimal 46%N = false) by reflexivity.
    rewrite (@dropwhile_app_stop _ _ _ _ _ Hd Hdot), (@takewhile_app_stop _ _ _ _ _ Hd Hdot).
    rewrite N.eqb_refl. simpl forallb.
    rewrite (ascii_digit_isdecimal _ H1), (ascii_digit_isdecimal _ H2). simpl.
    cbn [andb length].
    match goal with |- context [negb ?b] => destruct b eqn:E0 end;
      [apply Nat.eqb_eq in E0; lia|].
    cbn [negb]. eauto.
Qed.

Lemma amount_step_result cur m :
  amount_step cur m
  = Ok (match float (remove_commas (m_group 2 m)) with
        | Ok v => Some v
        | Raise _ => cur
        end).
Proof.
  unfold amount_step.
  destruct (float (remove_commas (m_group 2 m))) as [v|e] eqn:E; auto.
  rewrite (float_raises_ValueError _ E). reflexivity.
Qed.

Lemma for_each_amount_step ms : forall cur,
  for_each amount_step ms cur = Ok (last_amount ms cur).
Proof.
  induction ms as [|m ms IH]; intros cur; [reflexivity|].
  cbn [for_each]. rewrite amount_step_result. cbn [bind]. apply IH.
Qed.

Lemma last_amount_unparsable ms : forall cur,
  Forall unparsable ms -> last_amount ms cur = cur.
Proof.
  induction ms as [|m ms IH]; intros cur H; [reflexivity|].
  inversion H as [|? ? Hm Hms]; subst.
  unfold last_amount. cbn [fold_left].
  destruct (float (remove_commas (m_group 2 m))) as [v|e] eqn:E.
  - exfalso. apply (Hm v). exact E.
  - apply IH. auto.
Qed.

Lemma last_amount_last before m after v cur :
  parses (m_group 2 m) v -> Forall unparsable after ->
  last_amount (before ++ m :: after) cur = Some v.
Proof.
  intros Hm Hafter. unfold last_amount. rewrite fold_left_app. cbn [fold_left].
  unfold parses in Hm. rewrite Hm. apply last_amount_unparsable. auto.
Qed.

(** [float] rounds to the nearest double, halves to the even mantissa; a
    literal past the greatest double is inf, and one of at most half the
    least double is 0.0. *)
Example float_rounds :
  float (u "0.1") = Ok 0x1.999999999999ap-4%float
  /\ float (u "9007199254740993") = Ok 9007199254740992%float
  /\ float (u "9007199254740995") = Ok 9007199254740996%float
  /\ float (u "1" ++ repeat 48%N 308) = Ok 1e308%float
  /\ float (u "1" ++ repeat 48%N 309) = Ok PrimFloat.infinity
  /\ float (u "0." ++ repeat 48%N 323 ++ u "3") = Ok 0x1p-1074%float
  /\ float (u "0." ++ repeat 48%N 323 ++ u "2") = Ok 0%float.
Proof. repeat split; vm_compute; reflexivity. Qed.

Lemma float_unsigned s v : float s = Ok v -> unsigned_number (FloatOps.Prim2SF v).
Proof.
  unfold float.
  destruct (dropwhile isdecimal (strip s)) as [|c fr].
  - destruct (takewhile isdecimal (strip s)); [discriminate|].
    intros H. injection H as <-. apply nearest_double_unsigned.
  - destruct (_ && _); [|discriminate].
    intros H. injection H as <-. apply nearest_double_unsigned.
Qed.

Lemma greater_pick (z x : pyfloat) :
  unsigned_number (FloatOps.Prim2SF x) -> unsigned_number (FloatOps.Prim2SF z) ->
  let x' := if PrimFloat.ltb x z then z else x in
  (x' = x \/ x' = z) /\ PrimFloat.leb x x' = true /\ PrimFloat.leb z x' = true.
Proof.
  intros Hx Hz. destruct (PrimFloat.ltb x z) eqn:E; simpl.
  - split; [auto|]. split; [apply ltb_leb; exact E|apply leb_reflexive; exact Hz].
  - split; [auto|]. split; [apply leb_reflexive; exact Hx|].
    apply not_ltb_leb; auto.
Qed.

Lemma fold_max (xs : list pyfloat) : forall x : pyfloat,
  unsigned_number (FloatOps.Prim2SF x) ->
  Forall (fun y : pyfloat => unsigned_number (FloatOps.Prim2SF y)) xs ->
  let best := fold_left (fun best y => if PrimFloat.ltb best y then y else best) xs x in
  (best = x \/ In best xs) /\ PrimFloat.leb x best = true
  /\ forall y, In y xs -> PrimFloat.leb y best = true.
Proof.
  induction xs as [|z xs IH]; intros x Hx Hxs; cbn [fold_left].
  - split; [auto|]. split; [apply leb_reflexive; exact Hx|]. intros y [].
  - inversion Hxs as [|? ? Hz Hxs']; subst.
    pose proof (@greater_pick z x Hx Hz) as Hpick. cbv zeta in Hpick.
    match goal with
    | |- context [fold_left _ xs ?t] => change t with (if PrimFloat.ltb x z then z else x)
    end.
    set (x' := if PrimFloat.ltb x z then z else x) in *.
    destruct Hpick as (Hpick & Hxle & Hzle).
    assert (Hx' : unsigned_number (FloatOps.Prim2SF x'))
      by (destruct Hpick as [-> | ->]; assumption).
    destruct (IH x' Hx' Hxs') as (Hin & Hle & Hall). clearbody x'.
    assert (Hbest : unsigned_number
              (FloatOps.Prim2SF (fold_left (fun best y => if PrimFloat.ltb best y then y else best)
                                  xs x'))).
    { destruct Hin as [-> | Hin]; [exact Hx'|].
      rewrite Forall_forall in Hxs'. apply Hxs'. exact Hin. }
    split; [|split].
    + destruct Hin as [Hin|Hin]; [|right; right; exact Hin].
      destruct Hpick as [Hp|Hp];
        [left; rewrite Hin; exact Hp|right; left; rewrite Hin; symmetry; exact Hp].
    + apply (@leb_transitive x x' _); auto.
    + intros y [Hy|Hy].
      * subst y. apply (@leb_transitive z x' _); auto.
      * apply Hall. exact Hy.
Qed.

(** [max] returns an element that no element exceeds. *)
Lemma max_greatest (x : pyfloat) (xs : list pyfloat) :
  Forall (fun y : pyfloat => unsigned_number (FloatOps.Prim2SF y)) (x :: xs) ->
  exists best, max (x :: xs) = Ok best /\ In best (x :: xs)
               /\ forall y, In y (x :: xs) -> PrimFloat.leb y best = true.
Proof.
  intros H. inversion H as [|? ? Hx Hxs]; subst.
  unfold max. eexists. split; [reflexivity|].
  destruct (@fold_max xs x Hx Hxs) as (Hin & Hle & Hall). split.
  - destruct Hin as [Hin|Hin]; [left; auto|right; auto].
  - intros y [Hy|Hy]; [subst y; exact Hle|apply Hall; exact Hy].
Qed.

Lemma comprehension_ok {A B} (f : A -> result B) xs :
  Forall (fun x => exists y, f x = Ok y) xs ->
  exists ys, comprehension f xs = Ok ys /\ Forall2 (fun x y => f x = Ok y) xs ys.
Proof.
  induction 1 as [|x xs (y & Hy) _ (ys & Hys & H2)]; simpl.
  - exists []. split; auto.
  - rewrite Hy. simpl. rewrite Hys. simpl. exists (y :: ys). split; auto.
Qed.

End NumberFacts.

(** ** The amounts *)

Section AmountFacts.

Lemma scan_all_shape shape s ws : scanning shape s ws -> Forall shape ws.
Proof. induction 1; auto. Qed.

Lemma Forall2_In_l {A B} (R : A -> B -> Prop) xs ys x :
  Forall2 R xs ys -> In x xs -> exists y, In y ys /\ R x y.
Proof.
  induction 1 as [|a b xs ys Hab _ IH]; intros Hin; [destruct Hin|].
  destruct Hin as [<-|Hin]; [exists b; simpl; auto|].
  destruct (IH Hin) as (y & Hy & Hr). exists y. simpl. auto.
Qed.

Lemma Forall2_In_r {A B} (R : A -> B -> Prop) xs ys y :
  Forall2 R xs ys -> In y ys -> exists x, In x xs /\ R x y.
Proof.
  induction 1 as [|a b xs ys Hab _ IH]; intros Hin; [destruct Hin|].
  destruct Hin as [<-|Hin]; [exists a; simpl; auto|].
  destruct (IH Hin) as (x & Hx & Hr). exists x. simpl. auto.
Qed.

Lemma findall_decimal_scans text :
  scanning decimal_shape text (findall DECIMAL_REGEX text).
Proof.
  apply scan_ext with (shape := lang DECIMAL_REGEX).
  - apply lang_decimal_regex.
  - apply findall_scans. apply decimal_shape_nonempty.
Qed.

(** The fallback of [extract_amounts] never raises. *)
Lemma fallback_result text :
  exists fb,
    greatest_of (findall DECIMAL_REGEX text) fb
    /\ (numbers <- comprehension (fun x => float (remove_commas x))
                     (findall DECIMAL_REGEX text) ;;
        match numbers with
        | [] => Ok None
        | _ => best <- max numbers ;; Ok (Some best)
        end) = Ok fb.
Proof.
  pose proof (scan_all_shape (findall_decimal_scans text)) as Hall.
  destruct (@comprehension_ok _ _ (fun x => float (remove_commas x))
              (findall DECIMAL_REGEX text)) as (ys & Hc & H2).
  { eapply Forall_impl; [|exact Hall]. intros w Hw.
    destruct (decimal_shape_parses Hw) as (-> & v & Hv). eauto. }
  rewrite Hc. cbn [bind].
  assert (H2' : Forall2 (fun x y => float x = Ok y) (findall DECIMAL_REGEX text) ys).
  { clear Hc. induction H2 as [|x y xs ys' Hxy H2 IH]; constructor.
    - inversion Hall; subst.
      destruct (@decimal_shape_parses x) as (E & _); auto. rewrite E in Hxy. auto.
    - apply IH. inversion Hall; auto. }
  clear H2 Hc.
  destruct ys as [|y ys].
  - exists None. inversion H2'. split; reflexivity.
  - assert (Hys : Forall (fun v : pyfloat => unsigned_number (FloatOps.Prim2SF v))
                         (y :: ys)).
    { apply Forall_forall. intros v Hv.
      destruct (@Forall2_In_r _ _ _ _ _ _ H2' Hv) as (w & _ & Hf).
      exact (float_unsigned _ Hf). }
    destruct (@max_greatest y ys Hys) as (best & Hmax & Hin & Hle).
    rewrite Hmax. cbn [bind]. exists (Some best). split; [|reflexivity].
    destruct (findall DECIMAL_REGEX text) as [|x xs] eqn:Ef; [inversion H2'|].
    unfold greatest_of. exists best. split; [reflexivity|]. split.
    + destruct (@Forall2_In_r _ _ _ _ _ _ H2' Hin) as (w & Hw & Hf). eauto.
    + intros w Hw. destruct (@Forall2_In_l _ _ _ _ _ _ H2' Hw) as (v & Hv & Hf). eauto.
Qed.

(** [extract_amounts] never raises; its total is the last labelled amount
    that parses, else the fallback; its tax is the last labelled tax amount
    that parses. *)
Lemma extract_amounts_result text :
  exists fb,
    greatest_of (findall DECIMAL_REGEX text) fb
    /\ extract_amounts text
       = Ok [("total_amount"%string,
              of_opt_float (match last_amount (finditer TOTAL_REGEX text) None with
                            | Some v => Some v
                            | None => fb
                            end));
             ("tax_amount"%string,
              of_opt_float (last_amount (finditer TAX_REGEX text) None))].
Proof.
  destruct (fallback_result text) as (fb & Hfb & Hrun).
  exists fb. split; [exact Hfb|].
  unfold extract_amounts. rewrite !for_each_amount_step. cbn [bind].
  destruct (last_amount (finditer TOTAL_REGEX text) None) as [v|].
  - reflexivity.
  - rewrite Hrun. reflexivity.
Qed.

(** Matches over a text without a labelled number that parses. *)
Lemma matches_unparsable labels s pos :
  (forall pre lab sep num rest v,
     labelled_number labels s pre lab sep num rest -> ~ parses num v) ->
  Forall unparsable (finditer_from (labelled labels) s pos 0).
Proof.
  intros H. apply Forall_forall. intros m Hin v Hv.
  destruct (@finditer_from_sound _ _ _ _ _ Hin) as (pre & rest & Hs & Hm).
  apply labelled_match_here in Hm.
  destruct Hm as (lab & sep & num & (Heq & Hlab & Hsep & Hne & Hnum & Hout) & Hg).
  apply (H pre lab sep num rest v).
  - unfold labelled_number. repeat split; auto.
    rewrite Hs. simpl in Heq. rewrite Heq. reflexivity.
  - unfold m_group in Hv. rewrite Hg in Hv. exact Hv.
Qed.

Lemma no_labelled_number_check labels text :
  search (labelled labels) text = None ->
  forall pre lab sep num rest, ~ labelled_number labels text pre lab sep num rest.
Proof.
  intros H pre lab sep num rest Hocc.
  pose proof (labelled_number_lang Hocc) as L.
  destruct Hocc as (Hs & _).
  apply (@search_from_none _ _ _ H pre (lab ++ sep ++ num) rest); [|exact L].
  rewrite Hs, <- !app_assoc. reflexivity.
Qed.

Lemma spellsb_sound w : forall lab,
  spellsb w lab = true -> Forall2 (fun p c => ieq p c = true) w lab.
Proof.
  induction w as [|p w IH]; intros [|c lab] H; simpl in H; try discriminate.
  - constructor.
  - apply andb_true_iff in H. destruct H. constructor; auto.
Qed.

(** A check that builds a labelled number from its parts. *)
Lemma labelled_number_check labels pre lab sep num rest :
  existsb (fun l => spellsb (u l) lab) labels
  && forallb colon_or_space sep && negb (Nat.eqb (length num) 0)
  && forallb number_char num && starts_outsideb number_char rest = true ->
  labelled_number labels (pre ++ lab ++ sep ++ num ++ rest) pre lab sep num rest.
Proof.
  rewrite !andb_true_iff. intros ((((Hl & Hs) & Hn) & Hc) & Ho).
  unfold labelled_number. repeat split; auto.
  - apply existsb_exists in Hl. destruct Hl as (l & Hin & Hsp).
    exists l. split; auto. apply spellsb_sound. exact Hsp.
  - intros ->. discriminate.
  - destruct rest; simpl in *; auto. destruct (number_char c); auto; discriminate.
Qed.

End AmountFacts.

Section AmountClaims.

Open Scope string_scope.
Open Scope list_scope.
Open Scope nat_scope.

(** C2, as the code has it.  Take the last place in the text where a total
    label (total, amount due, grand total, in any letter case) is followed
    by colons or white space, if any, and then by a run of digits, full
    stops and commas that, commas removed, is a number for [float] -- last,
    that is, with no such place in what follows the run.  The total is that
    number.  The run is taken whole and need not have two decimals; a run
    that is no number (25.50. with its full stop, 1.2.3) is passed over; and
    the fallback is not consulted. *)
Theorem total_is_last_labelled_number
  (text pre lab sep num rest : str) (v : pyfloat) :
  labelled_number total_labels text pre lab sep num rest ->
  parses num v ->
  (forall pre' lab' sep' num' rest' v',
     labelled_number total_labels rest pre' lab' sep' num' rest' ->
     ~ parses num' v') ->
  exists tax,
    extract_amounts text = Ok [("total_amount", VFloat v); ("tax_amount", tax)].
Proof.
  intros Hocc Hv Hlast.
  destruct (extract_amounts_result text) as (fb & _ & ->).
  destruct (@finditer_reaches_number total_labels plain_total_labels
              pre lab sep num rest text Hocc (length pre) pre (le_n _) 0)
    as (before & m & pos' & Heq & Hg).
  destruct Hocc as (Hs & _).
  unfold finditer. change TOTAL_REGEX with (labelled total_labels).
  rewrite Hs, Heq.
  rewrite (@last_amount_last before m _ v None).
  - eexists. reflexivity.
  - unfold parses, m_group. rewrite Hg. exact Hv.
  - apply matches_unparsable. exact Hlast.
Qed.

Lemma total_is_last_labelled_number_witness :
  let pre := u "Subtotal: 10.00 ... " in
  let lab := u "Total" in
  let sep := u ": " in
  let num := u "25.50" in
  let text := pre ++ lab ++ sep ++ num ++ [] in
  labelled_number total_labels text pre lab sep num []
  /\ parses num 25.5%float
  /\ (forall pre' lab' sep' num' rest' v',
        labelled_number total_labels [] pre' lab' sep' num' rest' ->
        ~ parses num' v')
  /\ exists tax,
       extract_amounts text
       = Ok [("total_amount", VFloat 25.5%float); ("tax_amount", tax)].
Proof.
  intros pre lab sep num text.
  assert (H1 : labelled_number total_labels text pre lab sep num []).
  { apply labelled_number_check. vm_compute. reflexivity. }
  assert (H2 : parses num 25.5%float).
  { vm_compute. reflexivity. }
  assert (H3 : forall pre' lab' sep' num' rest' v',
             labelled_number total_labels [] pre' lab' sep' num' rest' ->
             ~ parses num' v').
  { intros pre' lab' sep' num' rest' v' Hocc _.
    refine (@no_labelled_number_check total_labels _ _ _ _ _ _ _ Hocc).
    vm_compute. reflexivity. }
  split; [exact H1|]. split; [exact H2|]. split; [exact H3|].
  exact (total_is_last_labelled_number H1 H2 H3).
Defined.

(** C2 as the claim words it fails: the last labelled decimal number, 25.50,
    is followed by a full stop; the run 25.50. is no number for [float], and
    the total stays the earlier 10.00. *)
Lemma total_last_label_passed_over :
  let text := u "Subtotal: 10.00 Total: 25.50." in
  text = u "Subtotal: 10.00 " ++ u "Total" ++ u ": " ++ u "25.50" ++ u "."
  /\ label_of total_labels (u "Total")
  /\ decimal_shape (u "25.50")
  /\ float (u "25.50") = Ok 25.5%float
  /\ extract_amounts text
     = Ok [("total_amount", VFloat 10%float); ("tax_amount", VNone)]
  /\ PrimFloat.eqb 10 25.5 = false.
Proof.
  cbv zeta. split; [vm_compute; reflexivity|]. split.
  { exists "total". split; [left; reflexivity|]. apply spellsb_sound.
    vm_compute. reflexivity. }
  split.
  { exists (u "25"), 53%N, 48%N. repeat split; try (vm_compute; reflexivity).
    vm_compute. discriminate. }
  split; [vm_compute; reflexivity|]. split; [vm_compute; reflexivity|].
  vm_compute. reflexivity.
Qed.

Example total_after_subtotal :
  extract_amounts (u "Subtotal: 10.00 ... Total: 25.50")
  = Ok [("total_amount", VFloat 25.5%float); ("tax_amount", VNone)].
Proof. vm_compute. reflexivity. Qed.

(** The value is the double [float] reads: 2^53 + 1 is halfway between two
    doubles and comes back as 2^53. *)
Example total_is_rounded :
  extract_amounts (u "Total: 9007199254740993")
  = Ok [("total_amount", VFloat 9007199254740992%float); ("tax_amount", VNone)].
Proof. vm_compute. reflexivity. Qed.

(** C6.  Where no tax label (tax, vat, in any letter case) is followed by a
    number -- colons or white space, if any, then a run of digits, full
    stops and commas that parses -- the tax amount is None, whatever other
    numbers the text holds. *)
Theorem tax_amount_needs_label (text : str) :
  (forall pre lab sep num rest v,
     labelled_number tax_labels text pre lab sep num rest -> ~ parses num v) ->
  exists total,
    extract_amounts text = Ok [("total_amount", total); ("tax_amount", VNone)].
Proof.
  intros Hnone.
  destruct (extract_amounts_result text) as (fb & _ & ->).
  unfold finditer at 2. change TAX_REGEX with (labelled tax_labels).
  rewrite (last_amount_unparsable None (matches_unparsable 0 Hnone)).
  eexists. reflexivity.
Qed.

Lemma tax_amount_needs_label_witness :
  (forall pre lab sep num rest v,
     labelled_number tax_labels (u "12.30 4.50 45.00") pre lab sep num rest ->
     ~ parses num v)
  /\ exists total,
       extract_amounts (u "12.30 4.50 45.00")
       = Ok [("total_amount", total); ("tax_amount", VNone)].
Proof.
  assert (H : forall pre lab sep num rest v,
            labelled_number tax_labels (u "12.30 4.50 45.00") pre lab sep num rest ->
            ~ parses num v).
  { intros pre lab sep num rest v Hocc _.
    refine (@no_labelled_number_check tax_labels _ _ _ _ _ _ _ Hocc).
    vm_compute. reflexivity. }
  split; [exact H|]. exact (tax_amount_needs_label H).
Defined.

End AmountClaims.

Section FallbackClaims.

Open Scope string_scope.
Open Scope list_scope.
Open Scope nat_scope.

(** Two words of the fallback shape that start at the same place are the
    same word. *)
Lemma decimal_shape_unique w1 w2 r1 r2 :
  w1 ++ r1 = w2 ++ r2 -> decimal_shape w1 -> decimal_shape w2 ->
  w1 = w2 /\ r1 = r2.
Proof.
  intros H (ip1 & a1 & b1 & -> & _ & Hip1 & _) (ip2 & a2 & b2 & -> & _ & Hip2 & _).
  rewrite <- !app_assoc in H.
  destruct (@run_unique ascii_digit ip1 ip2 _ _ H Hip1 Hip2) as [-> E];
    try reflexivity.
  simpl in E. inversion E; subst. auto.
Qed.

(** So the scan is determined by the text. *)
Lemma scan_decimal_unique s ws1 :
  scanning decimal_shape s ws1 -> forall ws2, scanning decimal_shape s ws2 -> ws1 = ws2.
Proof.
  induction 1 as [s Hnone|pre w rest ws Hw Hleft Hrest IH]; intros ws2 H2.
  - inversion H2 as [|pre' w' rest' ws' Hw' Hleft' Hrest' Hs]; subst; auto.
    exfalso. eapply Hnone; eauto.
  - inversion H2 as [s' Hnone Hs|pre' w' rest' ws' Hw' Hleft' Hrest' Hs]; subst.
    + exfalso. eapply Hnone; eauto.
    + assert (Hlen : length pre = length pre').
      { apply Nat.le_antisymm.
        - eapply Hleft; eauto.
        - eapply Hleft'; eauto. }
      assert (Hpre : pre' = pre /\ w' ++ rest' = w ++ rest).
      { clear - Hs Hlen. revert pre' Hs Hlen.
        induction pre as [|c pre IHp]; intros [|c' pre'] Hs Hlen;
          simpl in *; try discriminate; auto.
        inversion Hs; subst. destruct (IHp pre'); auto. subst. auto. }
      destruct Hpre as [-> Hrw].
      destruct (decimal_shape_unique _ _ Hrw Hw' Hw) as [-> ->].
      f_equal. apply IH. exact Hrest'.
Qed.

(** C3, as the code has it.  When no total label is followed by a number
    that parses, the text is scanned from left to right for digits, a full
    stop and two digits, each search starting where the previous hit ended;
    the total is the greatest of the numbers found, and None exactly when no
    part of the text has that shape. *)
Theorem total_falls_back_to_greatest_scanned_decimal (text : str) :
  (forall pre lab sep num rest v,
     labelled_number total_labels text pre lab sep num rest -> ~ parses num v) ->
  exists found fb tax,
    scanning decimal_shape text found
    /\ (forall found', scanning decimal_shape text found' -> found' = found)
    /\ (found = [] <->
        forall pre w rest, text = pre ++ w ++ rest -> ~ decimal_shape w)
    /\ greatest_of found fb
    /\ extract_amounts text
       = Ok [("total_amount", of_opt_float fb); ("tax_amount", tax)].
Proof.
  intros Hnone.
  destruct (extract_amounts_result text) as (fb & Hfb & ->).
  pose proof (findall_decimal_scans text) as Hscan.
  exists (findall DECIMAL_REGEX text), fb. eexists.
  split; [exact Hscan|]. split.
  { intros found' H'. eapply scan_decimal_unique; eauto. }
  split.
  { split.
    - intros E. rewrite E in Hscan. inversion Hscan; auto.
    - intros Hno. destruct Hscan as [|pre w rest ws Hw _ _]; auto.
      exfalso. eapply Hno; eauto. }
  split; [exact Hfb|].
  unfold finditer at 1. change TOTAL_REGEX with (labelled total_labels).
  rewrite (last_amount_unparsable None (matches_unparsable 0 Hnone)).
  reflexivity.
Qed.

Lemma total_falls_back_to_greatest_scanned_decimal_witness :
  (forall pre lab sep num rest v,
     labelled_number total_labels (u "12.30 4.50 45.00") pre lab sep num rest ->
     ~ parses num v)
  /\ exists found fb tax,
       scanning decimal_shape (u "12.30 4.50 45.00") found
       /\ (forall found', scanning decimal_shape (u "12.30 4.50 45.00") found' ->
                          found' = found)
       /\ (found = [] <->
           forall pre w rest,
             u "12.30 4.50 45.00" = pre ++ w ++ rest -> ~ decimal_shape w)
       /\ greatest_of found fb
       /\ extract_amounts (u "12.30 4.50 45.00")
          = Ok [("total_amount", of_opt_float fb); ("tax_amount", tax)].
Proof.
  assert (H : forall pre lab sep num rest v,
            labelled_number total_labels (u "12.30 4.50 45.00") pre lab sep num rest ->
            ~ parses num v).
  { intros pre lab sep num rest v Hocc _.
    refine (@no_labelled_number_check total_labels _ _ _ _ _ _ _ Hocc).
    vm_compute. reflexivity. }
  split; [exact H|]. exact (total_falls_back_to_greatest_scanned_decimal H).
Defined.

Example fallback_picks_greatest :
  extract_amounts (u "12.30 4.50 45.00")
  = Ok [("total_amount", VFloat 45%float); ("tax_amount", VNone)].
Proof. vm_compute. reflexivity. Qed.

(** The numbers are compared as the doubles they are read as: the first of
    two that round to the same double stays. *)
Example fallback_compares_doubles :
  extract_amounts (u "9007199254740992.00 9007199254740993.00")
  = Ok [("total_amount", VFloat 9007199254740992%float); ("tax_amount", VNone)]
  /\ float (u "9007199254740993.00") = Ok 9007199254740992%float.
Proof. split; vm_compute; reflexivity. Qed.

(** C3 as the claim words it fails: 239.99 is a part of the text of the
    shape digits, full stop, two digits, and exceeds the total returned; the
    scan has taken 1.23 first and resumed behind it. *)
Lemma fallback_misses_overlapping_decimal :
  let text := u "1.239.99" in
  search TOTAL_REGEX text = None
  /\ text = u "1." ++ u "239.99" ++ []
  /\ decimal_shape (u "239.99")
  /\ float (u "239.99") = Ok 239.99%float
  /\ findall DECIMAL_REGEX text = [u "1.23"; u "9.99"]
  /\ extract_amounts text
     = Ok [("total_amount", VFloat 9.99%float); ("tax_amount", VNone)]
  /\ PrimFloat.ltb 9.99 239.99 = true.
Proof.
  cbv zeta. split; [vm_compute; reflexivity|]. split; [vm_compute; reflexivity|].
  split.
  { exists (u "239"), 57%N, 57%N. repeat split; try (vm_compute; reflexivity).
    vm_compute. discriminate. }
  split; [vm_compute; reflexivity|]. split; [vm_compute; reflexivity|].
  split; [vm_compute; reflexivity|]. vm_compute. reflexivity.
Qed.

End FallbackClaims.

(** ** Texts without digits; no heuristic raises *)

Section DigitFacts.

Lemma takewhile_In {A} (f : A -> bool) l x :
  In x (takewhile f l) -> In x l /\ f x = true.
Proof.
  induction l as [|y l IH]; simpl; [contradiction|].
  destruct (f y) eqn:E; [|contradiction].
  intros [<-|H]; [auto|]. destruct (IH H). auto.
Qed.

Lemma dropwhile_In {A} (f : A -> bool) l x : In x (dropwhile f l) -> In x l.
Proof.
  induction l as [|y l IH]; simpl; auto.
  destruct (f y); auto.
Qed.

Lemma strip_In s c : In c (strip s) -> In c s.
Proof.
  unfold strip, lstrip. intros H.
  apply in_rev, dropwhile_In, in_rev, dropwhile_In in H. exact H.
Qed.

Lemma remove_commas_In s c : In c (remove_commas s) -> In c s.
Proof. unfold remove_commas. intros H. apply filter_In in H. tauto. Qed.

(** A run that parses holds a digit. *)
Lemma parses_has_digit num v :
  parses num v -> exists c, In c num /\ isdecimal c = true.
Proof.
  unfold parses, float. set (s := strip (remove_commas num)).
  assert (Hsub : forall c, In c s -> In c num).
  { intros c Hc. apply remove_commas_In, strip_In. exact Hc. }
  assert (Hip : takewhile isdecimal s <> [] -> exists c, In c num /\ isdecimal c = true).
  { destruct (takewhile isdecimal s) as [|c ip] eqn:E; [contradiction|]. intros _.
    assert (Hin : In c (takewhile isdecimal s)) by (rewrite E; left; auto).
    apply takewhile_In in Hin. destruct Hin. eauto. }
  destruct (dropwhile isdecimal s) as [|d fr] eqn:Ed.
  - destruct (takewhile isdecimal s) as [|c ip] eqn:E; [discriminate|].
    intros _. apply Hip. discriminate.
  - destruct ((d =? 46)%N && forallb isdecimal fr
              && negb (Nat.eqb (length (takewhile isdecimal s) + length fr) 0)) eqn:C;
      [|discriminate].
    intros _. rewrite !andb_true_iff in C. destruct C as [[_ Hfr] Hlen].
    destruct (takewhile isdecimal s) as [|c ip] eqn:E.
    + destruct fr as [|c fr]; [discriminate|].
      simpl in Hfr. apply andb_true_iff in Hfr. destruct Hfr as [Hc _].
      exists c. split; auto. apply Hsub, (dropwhile_In isdecimal).
      rewrite Ed. right; left; auto.
    + apply Hip. discriminate.
Qed.

Lemma digits_has_digit n w :
  0 < n -> digits n w -> exists c, In c w /\ isdecimal c = true.
Proof.
  intros Hn [Hlen Hall]. destruct w as [|c w]; [simpl in Hlen; lia|].
  simpl in Hall. apply andb_true_iff in Hall. destruct Hall.
  exists c. split; [left|]; auto.
Qed.

Lemma date_shape_has_digit w : date_shape w -> exists c, In c w /\ isdecimal c = true.
Proof.
  intros [y s1 m s2 d Hy _ _ _ _|d s1 m s2 y Hd _ _ _ _|d b1 name b2 y Hd Hd' _ _ _ _ _].
  - destruct (@digits_has_digit 4 y) as (c & Hc & E); auto.
    exists c. split; auto. apply in_or_app. auto.
  - destruct (@digits_has_digit 2 d) as (c & Hc & E); auto.
    exists c. split; auto. apply in_or_app. auto.
  - destruct (@digits_has_digit (length d) d) as (c & Hc & E); try lia.
    { split; auto. }
    exists c. split; auto. apply in_or_app. auto.
Qed.

Lemma decimal_shape_has_digit w :
  decimal_shape w -> exists c, In c w /\ isdecimal c = true.
Proof.
  intros (ip & d1 & d2 & -> & Hne & Hip & _).
  destruct ip as [|c ip]; [contradiction|].
  simpl in Hip. apply andb_true_iff in Hip. destruct Hip as [Hc _].
  exists c. split; [left; auto|]. apply ascii_digit_isdecimal. exact Hc.
Qed.

Lemma extract_date_ok text : exists date, extract_date text = Ok date.
Proof.
  unfold extract_date. destruct (search DATE_REGEX text) as [m|]; [|eauto].
  destruct (try_formats_result (m_group 0 m) DATE_FORMATS)
    as [(tried & f & later & d & _ & _ & _ & ->)|[_ ->]]; simpl; eauto.
Qed.

Lemma extract_vendor_ok lines : exists vendor, extract_vendor lines = Ok vendor.
Proof.
  unfold extract_vendor. destruct lines as [|l lines]; [eauto|].
  destruct (first_vendor (firstn 5 (l :: lines))); simpl; eauto.
Qed.

(** A text without digits gives no evidence for an amount or a date. *)
Lemma no_digits_no_amounts_no_date text :
  Forall (fun c => isdecimal c = false) text ->
  extract_amounts text
  = Ok [("total_amount"%string, VNone); ("tax_amount"%string, VNone)]
  /\ extract_date text = Ok None.
Proof.
  intros Hno. rewrite Forall_forall in Hno.
  assert (Hsub : forall pre w rest c,
            text = pre ++ w ++ rest -> In c w -> isdecimal c = true -> False).
  { intros pre w rest c Hs Hc E.
    assert (Hin : In c text).
    { rewrite Hs. apply in_or_app. right. apply in_or_app. left. exact Hc. }
    rewrite (Hno c Hin) in E. discriminate. }
  assert (Hlab : forall labels pre lab sep num rest v,
            labelled_number labels text pre lab sep num rest -> ~ parses num v).
  { intros labels pre lab sep num rest v (Hs & _) Hv.
    destruct (parses_has_digit Hv) as (c & Hc & E).
    apply (Hsub (pre ++ lab ++ sep) num rest c); auto.
    rewrite Hs, <- !app_assoc. reflexivity. }
  split.
  - destruct (extract_amounts_result text) as (fb & Hfb & ->).
    unfold finditer.
    change TOTAL_REGEX with (labelled total_labels).
    change TAX_REGEX with (labelled tax_labels).
    rewrite !(last_amount_unparsable None (matches_unparsable 0 (Hlab _))).
    assert (Hnone : findall DECIMAL_REGEX text = []).
    { unfold findall, finditer. rewrite finditer_from_none; auto.
      intros pre w rest Hs L. apply lang_decimal_regex in L.
      destruct (decimal_shape_has_digit L) as (c & Hc & E). eapply Hsub; eauto. }
    rewrite Hnone in Hfb. simpl in Hfb. subst fb. reflexivity.
  - unfold extract_date. destruct (search DATE_REGEX text) as [m|] eqn:E; auto.
    exfalso. unfold search in E.
    destruct (search_from_sound _ _ _ E) as (pre & rest & Hs & _ & L & _).
    apply lang_date_regex in L.
    destruct (date_shape_has_digit L) as (c & Hc & Ed). eapply Hsub; eauto.
Qed.

End DigitFacts.

(** ** Evidence: a field is None exactly where the text has none *)

Section EvidenceFacts.

Open Scope string_scope.
Open Scope list_scope.
Open Scope nat_scope.

Lemma last_amount_keeps ms : forall v, exists v', last_amount ms (Some v) = Some v'.
Proof.
  induction ms as [|m ms IH]; intros v; [eexists; reflexivity|].
  unfold last_amount. cbn [fold_left]. fold (last_amount ms).
  destruct (float (remove_commas (m_group 2 m))); apply IH.
Qed.

Lemma last_amount_found ms : forall cur m v,
  In m ms -> parses (m_group 2 m) v -> exists v', last_amount ms cur = Some v'.
Proof.
  induction ms as [|m0 ms IH]; intros cur m v Hin Hv; [destruct Hin|].
  unfold last_amount. cbn [fold_left]. fold (last_amount ms).
  destruct Hin as [->|Hin].
  - unfold parses in Hv. rewrite Hv. apply last_amount_keeps.
  - eapply IH; eauto.
Qed.

(** A loop of [extract_amounts] ends with None exactly when no label of its
    pattern is followed by a run that parses. *)
Lemma labelled_amount_none labels text :
  plain_labels labels ->
  last_amount (finditer (labelled labels) text) None = None
  <-> (forall pre lab sep num rest v,
         labelled_number labels text pre lab sep num rest -> ~ parses num v).
Proof.
  intros Hplain. split.
  - intros Hnone pre lab sep num rest v Hocc Hv.
    destruct (@finditer_reaches_number labels Hplain
                pre lab sep num rest text Hocc (length pre) pre (le_n _) 0)
      as (before & m & pos' & Heq & Hg).
    destruct Hocc as (Hs & _).
    assert (Hin : In m (finditer (labelled labels) text)).
    { unfold finditer. rewrite Hs, Heq. apply in_or_app. right. left. reflexivity. }
    assert (Hm : parses (m_group 2 m) v).
    { unfold parses, m_group. rewrite Hg. exact Hv. }
    destruct (@last_amount_found _ None m v Hin Hm) as (v' & E).
    rewrite E in Hnone. discriminate.
  - intros H. unfold finditer.
    apply (last_amount_unparsable None (matches_unparsable 0 H)).
Qed.

(** The fallback finds nothing exactly when no part of the text has the
    shape digits, full stop, two digits. *)
Lemma fallback_none text fb :
  greatest_of (findall DECIMAL_REGEX text) fb ->
  fb = None <-> (forall pre w rest, text = pre ++ w ++ rest -> ~ decimal_shape w).
Proof.
  intros Hfb. pose proof (findall_decimal_scans text) as Hscan.
  destruct (findall DECIMAL_REGEX text) as [|x xs] eqn:E; simpl in Hfb.
  - split; [|auto]. intros _. inversion Hscan; auto.
  - destruct Hfb as (best & -> & _). split; [discriminate|].
    intros Hno. exfalso. inversion Hscan as [|pre w rest ws Hw _ _ Hs]; subst.
    eapply Hno; eauto.
Qed.

Lemma extract_date_none text :
  extract_date text = Ok None
  <-> (forall pre w post, text = pre ++ w ++ post -> ~ date_shape w).
Proof.
  unfold extract_date. destruct (search DATE_REGEX text) as [m|] eqn:E.
  - split.
    + destruct (try_formats_result (m_group 0 m) DATE_FORMATS)
        as [(tried & f & later & d & _ & _ & _ & ->)|[_ ->]]; simpl; discriminate.
    + intros Hno. exfalso. unfold search in E.
      destruct (search_from_sound _ _ _ E) as (pre & post & Hs & _ & L & _).
      apply lang_date_regex in L. eapply Hno; eauto.
  - split; [|reflexivity]. intros _ pre w post Hs Hw.
    eapply search_from_none; [exact E|exact Hs|]. apply lang_date_regex; auto.
Qed.

Lemma extract_vendor_none lines : extract_vendor lines = Ok None <-> lines = [].
Proof.
  unfold extract_vendor. destruct lines as [|l lines]; [tauto|].
  destruct (first_vendor (firstn 5 (l :: lines))); simpl; split; discriminate.
Qed.

Lemma currency_none text :
  currency_of text = None
  <-> (forall pre tok post code,
         text = pre ++ tok ++ post -> ~ In (tok, code) currency_table).
Proof.
  unfold currency_of. destruct (search CURRENCY_REGEX text) as [m|] eqn:E.
  - split; [discriminate|]. intros Hno. exfalso. unfold search in E.
    destruct (search_from_sound _ _ _ E) as (pre & post & Hs & _ & L & _).
    apply lang_currency in L. destruct L as (code & Hin & _).
    eapply Hno; eauto.
  - split; [|reflexivity]. intros _ pre tok post code Hs Hin.
    eapply search_from_none; [exact E|exact Hs|].
    apply lang_currency. exists code. split; [exact Hin|].
    cbn in Hin.
    repeat (destruct Hin as [Hin|Hin]; [inversion Hin; subst; reflexivity|]).
    destruct Hin.
Qed.

(** What the heuristics return, and when each field is None. *)
Lemma heuristics_need_evidence text lines :
  exists total tax date vendor,
    extract_amounts text
    = Ok [("total_amount", of_opt_float total); ("tax_amount", of_opt_float tax)]
    /\ extract_date text = Ok date
    /\ extract_vendor lines = Ok vendor
    /\ (total = None <->
        (forall pre lab sep num rest v,
           labelled_number total_labels text pre lab sep num rest -> ~ parses num v)
        /\ (forall pre w rest, text = pre ++ w ++ rest -> ~ decimal_shape w))
    /\ (tax = None <->
        (forall pre lab sep num rest v,
           labelled_number tax_labels text pre lab sep num rest -> ~ parses num v))
    /\ (date = None <->
        (forall pre w post, text = pre ++ w ++ post -> ~ date_shape w))
    /\ (vendor = None <-> lines = []).
Proof.
  destruct (extract_amounts_result text) as (fb & Hfb & Ha).
  destruct (extract_date_ok text) as (date & Hd).
  destruct (extract_vendor_ok lines) as (vendor & Hv).
  eexists _, _, date, vendor. split; [exact Ha|].
  split; [exact Hd|]. split; [exact Hv|].
  pose proof (@labelled_amount_none total_labels text plain_total_labels) as Ht.
  pose proof (@labelled_amount_none tax_labels text plain_tax_labels) as Hx.
  pose proof (@fallback_none text fb Hfb) as Hf.
  change (labelled total_labels) with TOTAL_REGEX in Ht.
  change (labelled tax_labels) with TAX_REGEX in Hx.
  split; [|split; [exact Hx|split]].
  - destruct (last_amount (finditer TOTAL_REGEX text) None) as [t|].
    + split; [discriminate|]. intros [H _]. apply Ht in H. discriminate.
    + split.
      * intros E. split; [apply Ht; reflexivity|apply Hf; exact E].
      * intros [_ H]. apply Hf. exact H.
  - rewrite <- (extract_date_none text), Hd. split; intros H; congruence.
  - rewrite <- (extract_vendor_none lines), Hv. split; intros H; congruence.
Qed.

End EvidenceFacts.

Section PipelineClaims.

Open Scope string_scope.
Open Scope list_scope.
Open Scope nat_scope.

Variables ndarray Image points : Type.
Variable imread : str -> option ndarray.
Variable Image_open : str -> result Image.
Variable cvtColor_gray : ndarray -> ndarray.
Variable GaussianBlur3 : ndarray -> ndarray.
Variable threshold_otsu : ndarray -> ndarray.
Variable foreground : ndarray -> points.
Variable size : points -> N.
Variable minAreaRect_angle : points -> Q.
Variable shape : ndarray -> N * N.
Variable rotate : ndarray -> N * N -> Q -> ndarray.
Variable Image_fromarray : ndarray -> Image.
Variable image_to_string : Image -> str.

Local Abbreviation preprocess :=
  (preprocess_image imread Image_open cvtColor_gray GaussianBlur3 threshold_otsu
     foreground size minAreaRect_angle shape rotate Image_fromarray).
Local Abbreviation process :=
  (process_image imread Image_open cvtColor_gray GaussianBlur3 threshold_otsu
     foreground size minAreaRect_angle shape rotate Image_fromarray image_to_string).

(** C8.  On every text and every list of lines the heuristics return: none
    of [extract_amounts], [extract_date] and [extract_vendor] raises (the
    currency lookup is a search and a dictionary lookup, which cannot).
    Each field is None exactly where the text holds no evidence for it: the
    total when no total label is followed by a run that parses and no part
    of the text has the shape digits, full stop, two digits; the tax when
    no tax label is followed by a run that parses; the date when no part of
    the text has a date shape; the vendor when there is no line; the
    currency when no symbol or code of the table occurs.  A labelled run
    that [float] rejects leaves the loop's value as it was and the loop goes
    on.  So a text without digits yields None for both amounts and for the
    date, an empty list of lines None for the vendor, an empty text None for
    the currency.  And once the image is read, [process_image] returns a
    record whose fields are the results of the heuristics, each computed
    from the recognised text alone. *)
Theorem heuristics_never_raise (text : str) (lines : list str) :
  (exists total tax date vendor,
     extract_amounts text
     = Ok [("total_amount", of_opt_float total); ("tax_amount", of_opt_float tax)]
     /\ extract_date text = Ok date
     /\ extract_vendor lines = Ok vendor
     /\ (total = None <->
         (forall pre lab sep num rest v,
            labelled_number total_labels text pre lab sep num rest -> ~ parses num v)
         /\ (forall pre w rest, text = pre ++ w ++ rest -> ~ decimal_shape w))
     /\ (tax = None <->
         (forall pre lab sep num rest v,
            labelled_number tax_labels text pre lab sep num rest -> ~ parses num v))
     /\ (date = None <->
         (forall pre w post, text = pre ++ w ++ post -> ~ date_shape w))
     /\ (vendor = None <-> lines = []))
  /\ (currency_of text = None <->
      (forall pre tok post code,
         text = pre ++ tok ++ post -> ~ In (tok, code) currency_table))
  /\ (forall cur m, unparsable m -> amount_step cur m = Ok cur)
  /\ (Forall (fun c => isdecimal c = false) text ->
      extract_amounts text = Ok [("total_amount", VNone); ("tax_amount", VNone)]
      /\ extract_date text = Ok None)
  /\ extract_vendor [] = Ok None
  /\ currency_of [] = None
  /\ (forall fresh image_path img,
        preprocess image_path = Ok img ->
        image_to_string img = text ->
        exists amounts date vendor,
          extract_amounts text = Ok amounts
          /\ extract_date text = Ok date
          /\ extract_vendor
               (filter (fun line => negb (Nat.eqb (length (strip line)) 0))
                       (splitlines text)) = Ok vendor
          /\ process fresh image_path
             = Ok [("id", VStr fresh);
                   ("date", of_opt_str date);
                   ("vendor", of_opt_str vendor);
                   ("total_amount", get amounts "total_amount");
                   ("tax_amount", get amounts "tax_amount");
                   ("currency", of_opt_str (currency_of text));
                   ("payment_method", VNone);
                   ("category", VNone);
                   ("notes", VNone);
                   ("image_path", VStr image_path);
                   ("raw_text", VStr text)]).
Proof.
  assert (Ha : exists amounts, extract_amounts text = Ok amounts).
  { destruct (extract_amounts_result text) as (fb & _ & ->). eauto. }
  split; [apply heuristics_need_evidence|].
  split; [apply currency_none|]. split.
  { intros cur m Hm. rewrite amount_step_result.
    destruct (float (remove_commas (m_group 2 m))) as [v|e] eqn:E; auto.
    exfalso. apply (Hm v). exact E. }
  split; [apply no_digits_no_amounts_no_date|].
  split; [reflexivity|]. split; [reflexivity|].
  intros fresh image_path img Hpre Hocr.
  destruct Ha as (amounts & Ha).
  destruct (extract_date_ok text) as (date & Hd).
  destruct (extract_vendor_ok
              (filter (fun line => negb (Nat.eqb (length (strip line)) 0))
                      (splitlines text))) as (vendor & Hv).
  exists amounts, date, vendor. repeat split; auto.
  unfold process_image. rewrite Hpre. cbn [bind]. rewrite Hocr, Ha. cbn [bind].
  rewrite Hd. cbn [bind]. rewrite Hv. reflexivity.
Qed.

(** C1, on the code.  When OpenCV cannot decode the file, [preprocess_image]
    is [Image.open] on the same path and nothing else: it returns the image
    Pillow opens, untouched, and when Pillow cannot identify the file either
    the exception leaves [preprocess_image], and [process_image] with it. *)
Theorem preprocess_image_propagates_open_failure
  (image_path fresh : str) (e : exn) :
  imread image_path = None ->
  Image_open image_path = Raise e ->
  preprocess image_path = Raise e /\ process fresh image_path = Raise e.
Proof.
  intros Hcv Hpil. unfold process_image, preprocess_image.
  rewrite Hcv, Hpil. split; reflexivity.
Qed.

End PipelineClaims.

(** An empty file, as [capture_receipt] leaves behind when the camera
    command is missing: neither library decodes it. *)
Lemma preprocess_image_propagates_open_failure_witness :
  (fun _ : str => @None unit) (u "app/captured_receipts/a.jpg") = None
  /\ (fun _ : str => @Raise unit UnidentifiedImageError)
       (u "app/captured_receipts/a.jpg") = Raise UnidentifiedImageError
  /\ @preprocess_image unit unit unit
       (fun _ => None) (fun _ => Raise UnidentifiedImageError)
       (fun a => a) (fun a => a) (fun a => a) (fun _ => tt) (fun _ => 0%N)
       (fun _ => 0%Q) (fun _ => (0%N, 0%N)) (fun a _ _ => a) (fun a => a)
       (u "app/captured_receipts/a.jpg")
     = Raise UnidentifiedImageError
  /\ @process_image unit unit unit
       (fun _ => None) (fun _ => Raise UnidentifiedImageError)
       (fun a => a) (fun a => a) (fun a => a) (fun _ => tt) (fun _ => 0%N)
       (fun _ => 0%Q) (fun _ => (0%N, 0%N)) (fun a _ _ => a) (fun a => a)
       (fun _ => []) (u "id") (u "app/captured_receipts/a.jpg")
     = Raise UnidentifiedImageError.
Proof.
  split; [reflexivity|]. split; [reflexivity|].
  exact (@preprocess_image_propagates_open_failure unit unit unit
           (fun _ => None) (fun _ => Raise UnidentifiedImageError)
           (fun a => a) (fun a => a) (fun a => a) (fun _ => tt) (fun _ => 0%N)
           (fun _ => 0%Q) (fun _ => (0%N, 0%N)) (fun a _ _ => a) (fun a => a)
           (fun _ => []) (u "app/captured_receipts/a.jpg") (u "id")
           UnidentifiedImageError eq_refl eq_refl).
Defined.

(** ** The date heuristic *)

Section DateClaims.

Lemma space_not_decimal c : isspace c = true -> isdecimal c = false.
Proof.
  intros H. assert (Hc : colon_or_space c = true).
  { unfold colon_or_space. rewrite H. apply orb_true_r. }
  apply separator_is_no_number_char in Hc. unfold number_char in Hc.
  destruct (isdecimal c); [discriminate|reflexivity].
Qed.

Lemma letter_not_space c : ascii_letter c = true -> isspace c = false.
Proof.
  unfold ascii_letter, in_range, isspace.
  rewrite orb_true_iff, !andb_true_iff, !N.leb_le. intros H.
  repeat (apply orb_false_iff; split);
    try (apply N.eqb_neq; lia);
    apply andb_false_iff; rewrite !N.leb_gt; lia.
Qed.

Lemma date_separator_plain c :
  date_separator c -> isdecimal c = false /\ isspace c = false.
Proof. intros [->| ->]; split; reflexivity. Qed.

Lemma app_same_length {A} (a : list A) : forall b r1 r2,
  a ++ r1 = b ++ r2 -> length a = length b -> a = b /\ r1 = r2.
Proof.
  induction a as [|x a IH]; intros [|y b] r1 r2 H Hlen; simpl in *;
    try discriminate; auto.
  inversion H; subst. destruct (IH b r1 r2); auto. subst. auto.
Qed.

Lemma digits_two w : digits 2 w -> exists a b, w = [a; b] /\ isdecimal a = true /\ isdecimal b = true.
Proof.
  intros [Hl Ha]. destruct w as [|a [|b [|c w]]]; try discriminate.
  simpl in Ha. rewrite !andb_true_iff in Ha. exists a, b. tauto.
Qed.

Lemma digits_four w :
  digits 4 w -> exists a b c d, w = [a; b; c; d] /\ isdecimal b = true /\ isdecimal c = true.
Proof.
  intros [Hl Ha]. destruct w as [|a [|b [|c [|d [|e w]]]]]; try discriminate.
  simpl in Ha. rewrite !andb_true_iff in Ha. exists a, b, c, d. tauto.
Qed.

Lemma date_shape_kinds w : date_shape w -> numeric_date w \/ named_date w.
Proof.
  intros [y s1 m s2 d Hy H1 Hm H2 Hd|d s1 m s2 y Hd H1 Hm H2 Hy
         |d b1 name b2 y Hd Hd' Hb1 Hn Hn' Hb2 Hy].
  - left. destruct (digits_four Hy) as (a & b & c & e & -> & Hb & Hc).
    destruct (digits_two Hm) as (m1 & m2 & -> & _), (digits_two Hd) as (d1 & d2 & -> & _).
    split; [reflexivity|]. eexists a, b, c, _. split; [reflexivity|].
    split; auto. destruct (isspace c) eqn:E; auto.
    apply space_not_decimal in E. congruence.
  - left. destruct (digits_four Hy) as (a & b & c & e & -> & _).
    destruct (digits_two Hm) as (m1 & m2 & -> & _), (digits_two Hd) as (d1 & d2 & -> & _ & Hd2).
    split; [reflexivity|]. eexists d1, d2, s1, _. split; [reflexivity|].
    split; auto. apply date_separator_plain. exact H1.
  - right. exists d, b1, name, b2, y. repeat split; auto; try lia;
      try apply Hb1; try apply Hb2; apply Hy.
Qed.

(** Two date shapes that start at the same place are the same part of the
    text. *)
Lemma date_shape_unique w1 w2 r1 r2 :
  w1 ++ r1 = w2 ++ r2 -> date_shape w1 -> date_shape w2 -> w1 = w2.
Proof.
  assert (Hcross : forall w1 w2 r1 r2,
            w1 ++ r1 = w2 ++ r2 -> numeric_date w1 -> named_date w2 -> False).
  { clear. intros w1 w2 r1 r2 H (_ & a & b & c & t & -> & Hb & Hc)
      (d & b1 & name & b2 & y & -> & Hd & Hd' & [Hb1 Hs1] & _).
    destruct b1 as [|s b1]; [contradiction|].
    simpl in Hs1. apply andb_true_iff in Hs1. destruct Hs1 as [Hs _].
    destruct d as [|d1 [|d2 [|d3 d]]]; simpl in Hd; try lia.
    - simpl in H. inversion H; subst.
      apply space_not_decimal in Hs. congruence.
    - simpl in H. inversion H; subst. congruence. }
  intros H S1 S2.
  destruct (date_shape_kinds S1) as [N1|M1], (date_shape_kinds S2) as [N2|M2].
  - destruct N1 as [L1 _], N2 as [L2 _].
    apply (app_same_length _ _ _ _ H). congruence.
  - exfalso. eapply Hcross; eauto.
  - exfalso. symmetry in H. eapply Hcross; eauto.
  - clear S1 S2 Hcross.
    destruct M1 as (d & b1 & name & b2 & y & -> & _ & Hd & [Hb1 Hs1] & Hn & Hl & [Hb2 Hs2] & Hy).
    destruct M2 as (d' & b1' & name' & b2' & y' & -> & _ & Hd' & [Hb1' Hs1'] & Hn' & Hl'
                    & [Hb2' Hs2'] & Hy').
    rewrite <- !app_assoc in H.
    assert (Hout : forall (p : cp -> bool) (b t : str) (q : cp -> bool),
              b <> [] -> forallb q b = true ->
              (forall c, q c = true -> p c = false) -> starts_outside p (b ++ t)).
    { intros p b t q Hne Hq Hpq. destruct b as [|c b]; [contradiction|].
      simpl in Hq. apply andb_true_iff in Hq. destruct Hq. simpl. auto. }
    assert (Nn : name <> []) by (intros ->; simpl in Hn; lia).
    assert (Nn' : name' <> []) by (intros ->; simpl in Hn'; lia).
    destruct Hy as [Ly Dy], Hy' as [Ly' Dy'].
    assert (Ny : y <> []) by (intros ->; discriminate).
    assert (Ny' : y' <> []) by (intros ->; discriminate).
    destruct (@run_unique isdecimal d d' _ _ H Hd Hd') as [-> H1];
      try (eapply Hout; eauto using space_not_decimal).
    destruct (@run_unique isspace b1 b1' _ _ H1 Hs1 Hs1') as [-> H2];
      try (eapply Hout; eauto using letter_not_space).
    destruct (@run_unique ascii_letter name name' _ _ H2 Hl Hl') as [-> H3];
      try (eapply Hout; eauto).
    1,2: intros c Hc; destruct (ascii_letter c) eqn:E; auto;
      apply letter_not_space in E; congruence.
    destruct (@run_unique isspace b2 b2' _ _ H3 Hs2 Hs2') as [-> H4];
      try (eapply Hout; eauto).
    1,2: intros c Hc; destruct (isspace c) eqn:E; auto;
      apply space_not_decimal in E; congruence.
    destruct (app_same_length _ _ _ _ H4) as [-> _]; [congruence|].
    reflexivity.
Qed.

Example extract_date_iso : extract_date (u "2024-05-01") = Ok (Some (u "2024-05-01")).
Proof. vm_compute. reflexivity. Qed.

Example extract_date_day_first :
  extract_date (u "01/05/2024") = Ok (Some (u "2024-05-01")).
Proof. vm_compute. reflexivity. Qed.

Example extract_date_unparseable_kept :
  extract_date (u "due 2024-05/01") = Ok (Some (u "2024-05/01")).
Proof. vm_compute. reflexivity. Qed.

Example extract_date_month_name :
  extract_date (u "Paid on 7 March 2023, thanks") = Ok (Some (u "2023-03-07")).
Proof. vm_compute. reflexivity. Qed.

End DateClaims.

(** ** What [float] is called on *)

Section FloatArguments.

(** The strings [extract_amounts] hands to [float] hold decimal digits and
    full stops only. *)
Lemma float_argument_alphabet labels text :
  (forall m, In m (finditer (labelled labels) text) ->
             Forall digit_or_point (remove_commas (m_group 2 m)))
  /\ (forall x, In x (findall DECIMAL_REGEX text) ->
                Forall digit_or_point (remove_commas x)).
Proof.
  split.
  - intros m Hin. unfold finditer in Hin.
    destruct (@finditer_from_sound _ _ _ _ _ Hin) as (pre & rest & _ & Hm).
    apply labelled_match_here in Hm.
    destruct Hm as (lab & sep & num & (_ & _ & _ & _ & Hnum & _) & Hg).
    unfold m_group. rewrite Hg. unfold remove_commas.
    apply Forall_forall. intros c Hc. apply filter_In in Hc. destruct Hc as [Hc Hn].
    rewrite forallb_forall in Hnum. specialize (Hnum c Hc).
    unfold number_char in Hnum. unfold digit_or_point.
    rewrite !orb_true_iff, !N.eqb_eq in Hnum. apply negb_true_iff, N.eqb_neq in Hn.
    tauto.
  - intros x Hin.
    pose proof (scan_all_shape (findall_decimal_scans text)) as Hall.
    rewrite Forall_forall in Hall. specialize (Hall x Hin).
    destruct (decimal_shape_parses Hall) as [-> _].
    destruct Hall as (ip & d1 & d2 & -> & _ & Hip & H1 & H2).
    apply Forall_app. split.
    + apply Forall_forall. intros c Hc. left.
      rewrite forallb_forall in Hip. apply ascii_digit_isdecimal. auto.
    + constructor; [right; reflexivity|].
      constructor; [left; apply ascii_digit_isdecimal; assumption|].
      constructor; [left; apply ascii_digit_isdecimal; assumption|constructor].
Qed.

End FloatArguments.

(** ** Further properties of the amounts *)

Section MoreAmountFacts.

Open Scope string_scope.
Open Scope list_scope.
Open Scope nat_scope.

(** The tax amount is read like the total: it is the number of the last tax
    label followed by a run that parses. *)
Theorem tax_is_last_labelled_number
  (text pre lab sep num rest : str) (v : pyfloat) :
  labelled_number tax_labels text pre lab sep num rest ->
  parses num v ->
  (forall pre' lab' sep' num' rest' v',
     labelled_number tax_labels rest pre' lab' sep' num' rest' ->
     ~ parses num' v') ->
  exists total,
    extract_amounts text = Ok [("total_amount", total); ("tax_amount", VFloat v)].
Proof.
  intros Hocc Hv Hlast.
  destruct (extract_amounts_result text) as (fb & _ & ->).
  destruct (@finditer_reaches_number tax_labels plain_tax_labels
              pre lab sep num rest text Hocc (length pre) pre (le_n _) 0)
    as (before & m & pos' & Heq & Hg).
  destruct Hocc as (Hs & _).
  unfold finditer. change TAX_REGEX with (labelled tax_labels).
  rewrite Hs, Heq.
  rewrite (@last_amount_last before m _ v None).
  - eexists. reflexivity.
  - unfold parses, m_group. rewrite Hg. exact Hv.
  - apply matches_unparsable. exact Hlast.
Qed.

Lemma tax_is_last_labelled_number_witness :
  let pre := u "Total: 25.50 " in
  let lab := u "VAT" in
  let sep := u ":  " in
  let num := u "4.25" in
  let rest := u " thank you" in
  let text := pre ++ lab ++ sep ++ num ++ rest in
  labelled_number tax_labels text pre lab sep num rest
  /\ parses num 4.25%float
  /\ (forall pre' lab' sep' num' rest' v',
        labelled_number tax_labels rest pre' lab' sep' num' rest' ->
        ~ parses num' v')
  /\ exists total,
       extract_amounts text
       = Ok [("total_amount", total); ("tax_amount", VFloat 4.25%float)].
Proof.
  intros pre lab sep num rest text.
  assert (H1 : labelled_number tax_labels text pre lab sep num rest).
  { apply labelled_number_check. vm_compute. reflexivity. }
  assert (H2 : parses num 4.25%float).
  { vm_compute. reflexivity. }
  assert (H3 : forall pre' lab' sep' num' rest' v',
             labelled_number tax_labels rest pre' lab' sep' num' rest' ->
             ~ parses num' v').
  { intros pre' lab' sep' num' rest' v' Hocc _.
    refine (@no_labelled_number_check tax_labels _ _ _ _ _ _ _ Hocc).
    vm_compute. reflexivity. }
  split; [exact H1|]. split; [exact H2|]. split; [exact H3|].
  exact (tax_is_last_labelled_number H1 H2 H3).
Defined.

Lemma float_nonnegative s v : float s = Ok v -> PrimFloat.leb 0 v = true.
Proof. intros H. apply zero_leb. exact (float_unsigned _ H). Qed.

Lemma last_amount_origin ms : forall cur,
  last_amount ms cur = cur
  \/ exists m v, In m ms /\ parses (m_group 2 m) v /\ last_amount ms cur = Some v.
Proof.
  induction ms as [|m ms IH]; intros cur; [left; reflexivity|].
  unfold last_amount. cbn [fold_left]. fold (last_amount ms).
  destruct (float (remove_commas (m_group 2 m))) as [v|e] eqn:E.
  - destruct (IH (Some v)) as [H|(m' & v' & Hin & Hp & H)].
    + right. exists m, v. split; [left; auto|]. split; [exact E|exact H].
    + right. exists m', v'. split; [right; auto|]. auto.
  - destruct (IH cur) as [H|(m' & v' & Hin & Hp & H)].
    + left. exact H.
    + right. exists m', v'. split; [right; auto|]. auto.
Qed.

(** The patterns have no sign: an amount, when there is one, is never
    negative. *)
Theorem amounts_are_never_negative (text : str) :
  exists total tax,
    extract_amounts text
    = Ok [("total_amount", of_opt_float total); ("tax_amount", of_opt_float tax)]
    /\ (forall v, total = Some v -> PrimFloat.leb 0 v = true)
    /\ (forall v, tax = Some v -> PrimFloat.leb 0 v = true).
Proof.
  destruct (extract_amounts_result text) as (fb & Hfb & ->).
  eexists _, _. split; [reflexivity|].
  assert (Hlast : forall ms v, last_amount ms None = Some v -> PrimFloat.leb 0 v = true).
  { intros ms v H. destruct (last_amount_origin ms None) as [E|(m & v' & _ & Hp & E)].
    - congruence.
    - rewrite E in H. inversion H; subst. eapply float_nonnegative; eauto. }
  split.
  - intros v Hv.
    destruct (last_amount (finditer TOTAL_REGEX text) None) as [t|] eqn:E.
    + inversion Hv; subst. eapply Hlast; eauto.
    + subst fb. unfold greatest_of in Hfb.
      destruct (findall DECIMAL_REGEX text); [discriminate|].
      destruct Hfb as (best & Hb & (w & _ & Hw) & _). inversion Hb; subst.
      eapply float_nonnegative; eauto.
  - intros v Hv. eapply Hlast; eauto.
Qed.

(** A part of the text of the shape digits, full stop, two digits is enough
    for a total: the total is None only where the text has no such part. *)
Theorem total_present_when_text_has_decimal (text pre w rest : str) :
  text = pre ++ w ++ rest -> decimal_shape w ->
  exists v tax,
    extract_amounts text = Ok [("total_amount", VFloat v); ("tax_amount", tax)].
Proof.
  intros Hs Hw.
  destruct (extract_amounts_result text) as (fb & Hfb & ->).
  destruct (last_amount (finditer TOTAL_REGEX text) None) as [t|].
  - eexists _, _. reflexivity.
  - pose proof (findall_decimal_scans text) as Hscan.
    destruct (findall DECIMAL_REGEX text) as [|x xs].
    + exfalso. inversion Hscan as [s Hnone|]; subst. eapply Hnone; eauto.
    + destruct Hfb as (best & -> & _). eexists _, _. reflexivity.
Qed.

Lemma total_present_when_text_has_decimal_witness :
  u "2 x 4.50 = 9.00" = u "2 x " ++ u "4.50" ++ u " = 9.00"
  /\ decimal_shape (u "4.50")
  /\ exists v tax,
       extract_amounts (u "2 x 4.50 = 9.00")
       = Ok [("total_amount", VFloat v); ("tax_amount", tax)].
Proof.
  assert (H1 : u "2 x 4.50 = 9.00" = u "2 x " ++ u "4.50" ++ u " = 9.00")
    by (vm_compute; reflexivity).
  assert (H2 : decimal_shape (u "4.50")).
  { exists (u "4"), 53%N, 48%N. repeat split; try (vm_compute; reflexivity).
    vm_compute. discriminate. }
  split; [exact H1|]. split; [exact H2|].
  exact (@total_present_when_text_has_decimal _ _ _ _ H1 H2).
Defined.

End MoreAmountFacts.

(** ** The vendor of a whole text, and the defaults of the record *)

Section MoreVendorFacts.

Open Scope string_scope.
Open Scope list_scope.
Open Scope nat_scope.

Lemma dropwhile_starts_outside p (s : str) : starts_outside p (dropwhile p s).
Proof.
  induction s as [|c s IH]; simpl; auto.
  destruct (p c) eqn:E; simpl; auto.
Qed.

Lemma takewhile_dropwhile {A} (p : A -> bool) (l : list A) :
  takewhile p l ++ dropwhile p l = l.
Proof.
  induction l as [|x l IH]; simpl; auto.
  destruct (p x); simpl; [rewrite IH|]; reflexivity.
Qed.

Lemma strip_prefix_of_lstrip s :
  exists blanks, lstrip s = strip s ++ blanks.
Proof.
  unfold strip. exists (rev (takewhile isspace (rev (lstrip s)))).
  rewrite <- rev_app_distr.
  change (lstrip (rev (lstrip s))) with (dropwhile isspace (rev (lstrip s))).
  rewrite takewhile_dropwhile, rev_involutive. reflexivity.
Qed.

Lemma strip_trimmed s : trimmed (strip s).
Proof.
  split.
  - destruct (strip_prefix_of_lstrip s) as (b & Hb).
    pose proof (dropwhile_starts_outside isspace s) as H.
    fold (lstrip s) in H. rewrite Hb in H.
    destruct (strip s); simpl in *; auto.
  - unfold strip. rewrite rev_involutive. apply dropwhile_starts_outside.
Qed.

Lemma first_vendor_origin lines v :
  first_vendor lines = Some v -> exists l, In l lines /\ v = strip l.
Proof.
  induction lines as [|l lines IH]; simpl; [discriminate|].
  destruct (_ && _).
  - intros [= <-]. exists l. auto.
  - intros H. destruct (IH H) as (l' & Hin & ->). eauto.
Qed.

Lemma In_firstn {A} n (l : list A) x : In x (firstn n l) -> In x l.
Proof.
  revert l. induction n as [|n IH]; intros [|y l]; simpl; try tauto.
  intros [->|H]; auto.
Qed.

Lemma extract_vendor_origin lines :
  match extract_vendor lines with
  | Ok None => lines = []
  | Ok (Some v) => exists l, In l (firstn 5 lines) /\ v = strip l
  | Raise _ => False
  end.
Proof.
  unfold extract_vendor. destruct lines as [|l lines]; auto.
  destruct (first_vendor (firstn 5 (l :: lines))) as [v|] eqn:E.
  - apply first_vendor_origin in E. exact E.
  - simpl. exists l. auto.
Qed.

(** Lines after the fifth never matter to the vendor. *)
Lemma extract_vendor_reads_five_lines lines :
  extract_vendor (firstn 5 lines) = extract_vendor lines.
Proof.
  destruct lines as [|l lines]; [reflexivity|].
  unfold extract_vendor. rewrite firstn_firstn. reflexivity.
Qed.

Lemma isoformat_not_empty d : isoformat d <> [].
Proof.
  unfold isoformat. intros H. apply (f_equal (@length cp)) in H.
  rewrite !length_app in H. simpl in H. lia.
Qed.

Lemma or_else_is_truthy a b : truthy b = true -> truthy (or_else a b) = true.
Proof. unfold or_else. destruct (truthy a) eqn:E; auto. Qed.

(** The text fields with a default are never empty in the record: [or]
    replaces an empty string as it replaces None. *)
Theorem assemble_text_fields_are_never_empty
  (parsed : dict) (fresh now : str) (today : date) (rel : str) (k : string) :
  In k ["date"; "vendor"; "currency"; "payment_method"; "category"] ->
  let v := get (assemble parsed fresh now today rel) k in
  truthy v = true /\ v <> VNone /\ v <> VStr [].
Proof.
  intros Hk v.
  assert (H : truthy v = true).
  { subst v. cbn [In] in Hk.
    destruct Hk as [<-|[<-|[<-|[<-|[<-|[]]]]]]; cbn [assemble get String.eqb];
      simpl get; apply or_else_is_truthy; try reflexivity.
    cbn [truthy]. pose proof (isoformat_not_empty today).
    destruct (isoformat today); congruence. }
  split; [exact H|]. split; intros E; rewrite E in H; discriminate.
Qed.

Lemma assemble_text_fields_are_never_empty_witness :
  In "vendor" ["date"; "vendor"; "currency"; "payment_method"; "category"]
  /\ let v := get (assemble [("vendor", VStr [])] (u "id") (u "now")
                            (mkDate 2024 5 1) (u "a.jpg")) "vendor" in
     truthy v = true /\ v <> VNone /\ v <> VStr [].
Proof.
  assert (H : In "vendor" ["date"; "vendor"; "currency"; "payment_method"; "category"])
    by (simpl; auto).
  split; [exact H|].
  exact (@assemble_text_fields_are_never_empty
           [("vendor", VStr [])] (u "id") (u "now") (mkDate 2024 5 1)
           (u "a.jpg") "vendor" H).
Defined.

End MoreVendorFacts.

Section MorePipelineFacts.

Open Scope string_scope.
Open Scope list_scope.
Open Scope nat_scope.

Variables ndarray Image points : Type.
Variable imread : str -> option ndarray.
Variable Image_open : str -> result Image.
Variable cvtColor_gray : ndarray -> ndarray.
Variable GaussianBlur3 : ndarray -> ndarray.
Variable threshold_otsu : ndarray -> ndarray.
Variable foreground : ndarray -> points.
Variable size : points -> N.
Variable minAreaRect_angle : points -> Q.
Variable shape : ndarray -> N * N.
Variable rotate : ndarray -> N * N -> Q -> ndarray.
Variable Image_fromarray : ndarray -> Image.
Variable image_to_string : Image -> str.

Local Abbreviation process :=
  (process_image imread Image_open cvtColor_gray GaussianBlur3 threshold_otsu
     foreground size minAreaRect_angle shape rotate Image_fromarray image_to_string).

(** The vendor [process_image] reports is the trimmed form of one of the first
    five lines of the recognised text that are not blank: it is never empty
    and has no white space at either end.  It is None exactly when every line
    of the text is blank. *)
Theorem process_image_vendor_is_a_trimmed_line
  (fresh image_path : str) (parsed : dict) :
  process fresh image_path = Ok parsed ->
  exists raw_text,
    get parsed "raw_text" = VStr raw_text
    /\ (get parsed "vendor" = VNone
        /\ Forall (fun line => strip line = []) (splitlines raw_text)
        \/ exists line v,
             In line (splitlines raw_text) /\ v = strip line
             /\ v <> [] /\ trimmed v /\ get parsed "vendor" = VStr v).
Proof.
  unfold process_image.
  destruct (preprocess_image _ _ _ _ _ _ _ _ _ _ _ image_path) as [img|e];
    [|discriminate].
  cbn [bind]. set (raw := image_to_string img).
  destruct (extract_amounts raw) as [amounts|e]; [|discriminate]. cbn [bind].
  destruct (extract_date raw) as [date|e]; [|discriminate]. cbn [bind].
  set (lines := filter _ (splitlines raw)).
  pose proof (extract_vendor_origin lines) as Hv.
  destruct (extract_vendor lines) as [[v|]|e]; [| |contradiction]; cbn [bind];
    intros [= <-]; exists raw; (split; [reflexivity|]).
  - right. destruct Hv as (l & Hin & ->). apply In_firstn in Hin.
    apply filter_In in Hin. destruct Hin as (Hin & Hne).
    exists l, (strip l). repeat split; auto; try apply strip_trimmed.
    intros E. rewrite E in Hne. discriminate.
  - left. split; [reflexivity|].
    apply Forall_forall. intros l Hin.
    destruct (strip l) as [|c s] eqn:E; auto.
    assert (Hl : In l lines).
    { apply filter_In. split; auto. rewrite E. reflexivity. }
    rewrite Hv in Hl. destruct Hl.
Qed.

End MorePipelineFacts.

(** A recognised text whose first line is blank and whose second carries the
    shop's name between blanks. *)
Lemma process_image_vendor_is_a_trimmed_line_witness :
  let parsed :=
    [("id", VStr (u "id")); ("date", VNone); ("vendor", VStr (u "Corner Shop"));
     ("total_amount", VNone); ("tax_amount", VNone); ("currency", VNone);
     ("payment_method", VNone); ("category", VNone); ("notes", VNone);
     ("image_path", VStr (u "a.jpg"));
     ("raw_text", VStr [32; 10; 32; 32; 67; 111; 114; 110; 101; 114; 32; 83;
                        104; 111; 112; 32; 10]%N)]%string in
  @process_image unit unit unit
    (fun _ => None) (fun _ => Ok tt)
    (fun a => a) (fun a => a) (fun a => a) (fun _ => tt) (fun _ => 0%N)
    (fun _ => 0%Q) (fun _ => (0%N, 0%N)) (fun a _ _ => a) (fun a => a)
    (fun _ => [32; 10; 32; 32; 67; 111; 114; 110; 101; 114; 32; 83;
               104; 111; 112; 32; 10]%N) (u "id") (u "a.jpg") = Ok parsed
  /\ exists raw_text,
       get parsed "raw_text"%string = VStr raw_text
       /\ (get parsed "vendor"%string = VNone
           /\ Forall (fun line => strip line = []) (splitlines raw_text)
           \/ exists line v,
                In line (splitlines raw_text) /\ v = strip line
                /\ v <> [] /\ trimmed v /\ get parsed "vendor"%string = VStr v).
Proof.
  intros parsed.
  assert (H : @process_image unit unit unit
    (fun _ => None) (fun _ => Ok tt)
    (fun a => a) (fun a => a) (fun a => a) (fun _ => tt) (fun _ => 0%N)
    (fun _ => 0%Q) (fun _ => (0%N, 0%N)) (fun a _ _ => a) (fun a => a)
    (fun _ => [32; 10; 32; 32; 67; 111; 114; 110; 101; 114; 32; 83;
               104; 111; 112; 32; 10]%N) (u "id") (u "a.jpg") = Ok parsed)
    by (vm_compute; reflexivity).
  split; [exact H|].
  exact (@process_image_vendor_is_a_trimmed_line unit unit unit
           _ _ _ _ _ _ _ _ _ _ _ _ _ _ _ H).
Defined.

(** ** The camera command *)

Section CameraFacts.

Open Scope string_scope.
Open Scope list_scope.
Open Scope nat_scope.





Section CaptureFacts.

Variable fs : Type.
Variable makedirs : str -> fs -> fs * outcome unit.
Variable dirname : str -> str.
Variable run : list str -> fs -> fs * outcome unit.
Variable create_empty : str -> fs -> fs * outcome unit.


End CaptureFacts.


End CameraFacts.

(** ** The receipts table *)

Section TableFacts.

Open Scope string_scope.
Open Scope list_scope.
Open Scope nat_scope.

Variable text_of_real : pyfloat -> str.
Variable real_of_text : str -> option pyfloat.
Variable update_other : list string -> dict -> table -> outcome table.

Local Abbreviation affinity' := (affinity text_of_real real_of_text).
Local Abbreviation insert := (insert_receipt text_of_real real_of_text).
Local Abbreviation update := (update_receipt text_of_real real_of_text update_other).

Lemma str_eqb_refl s : str_eqb s s = true.
Proof. unfold str_eqb. destruct (list_eq_dec N.eq_dec s s); congruence. Qed.

Lemma str_eqb_eq s t : str_eqb s t = true <-> s = t.
Proof.
  unfold str_eqb. destruct (list_eq_dec N.eq_dec s t); split; congruence.
Qed.

Lemma str_eqb_neq s t : s <> t -> str_eqb s t = false.
Proof.
  intros H. destruct (str_eqb s t) eqn:E; auto. apply str_eqb_eq in E. contradiction.
Qed.

Lemma has_id_text rid r : has_id rid r = true <-> get r "id" = VStr rid.
Proof.
  unfold has_id, same_key. destruct (get r "id") as [|s|x]; split;
    try discriminate.
  - intros H. apply str_eqb_eq in H. congruence.
  - intros [= ->]. apply str_eqb_refl.
Qed.

Lemma has_id_other rid other r :
  has_id rid r = true -> other <> rid -> has_id other r = false.
Proof.
  intros H Hne. apply has_id_text in H. unfold has_id. rewrite H. simpl.
  apply str_eqb_neq. congruence.
Qed.



Lemma find_beside_filter {A} (p q : A -> bool) t :
  (forall x, In x t -> q x = false -> p x = false) ->
  find p (filter q t) = find p t.
Proof.
  intros H. induction t as [|x t IH]; simpl; auto.
  destruct (q x) eqn:E; simpl.
  - destruct (p x); auto. apply IH. intros y Hy. apply H. simpl; auto.
  - rewrite (H x) by (simpl; auto). apply IH. intros y Hy. apply H. simpl; auto.
Qed.

Lemma find_filter_out {A} (p : A -> bool) t :
  find p (filter (fun x => negb (p x)) t) = None.
Proof.
  induction t as [|x t IH]; simpl; auto.
  destruct (p x) eqn:E; simpl; auto. rewrite E. exact IH.
Qed.

(** The value of column [k] in a row built column by column. *)
Lemma get_columns (f : string -> value) k :
  In k RECEIPT_FIELDS -> get (map (fun k => (k, f k)) RECEIPT_FIELDS) k = f k.
Proof.
  intros H. cbn [In RECEIPT_FIELDS] in H.
  repeat (destruct H as [<-|H]; [reflexivity|]). destruct H.
Qed.

Lemma keys_columns (f : string -> value) :
  keys (map (fun k => (k, f k)) RECEIPT_FIELDS) = RECEIPT_FIELDS.
Proof. reflexivity. Qed.

Lemma bound_row_returns data :
  forallb (has_key data) RECEIPT_FIELDS = true ->
  bound_row text_of_real real_of_text data
  = Return (map (fun k => (k, affinity' k (get data k))) RECEIPT_FIELDS).
Proof. intros H. unfold bound_row. rewrite H. reflexivity. Qed.



(** Delete, then look up: nothing is found under the id, and the rows under
    every other id are as they were. *)
Theorem delete_receipt_then_get_receipt (t : table) (rid : str) :
  get_receipt (delete_receipt t rid) rid = None
  /\ (forall other, other <> rid ->
        get_receipt (delete_receipt t rid) other = get_receipt t other)
  /\ (get_receipt t rid = None -> delete_receipt t rid = t).
Proof.
  unfold get_receipt, delete_receipt. split; [apply find_filter_out|]. split.
  - intros other Hne. apply find_beside_filter.
    intros x _ Hx. apply negb_false_iff in Hx.
    apply (@has_id_other rid other x); auto.
  - intros H. induction t as [|x t IH]; simpl in *; auto.
    destruct (has_id rid x); [discriminate|]. simpl. rewrite IH by exact H.
    reflexivity.
Qed.

Lemma has_key_keys d k : has_key d k = existsb (String.eqb k) (keys d).
Proof.
  unfold has_key, keys. induction d as [|kv d IH]; simpl; auto.
  rewrite IH. reflexivity.
Qed.

Lemma get_without_key d k : has_key d k = false -> get d k = VNone.
Proof.
  unfold has_key. induction d as [|[k' v] d IH]; simpl; auto.
  destruct (String.eqb k k'); simpl; [discriminate|auto].
Qed.

Lemma get_setitem d k v : get (setitem d k v) k = v.
Proof.
  unfold setitem. destruct (has_key d k) eqn:E.
  - unfold has_key in E. induction d as [|[k' v'] d IH]; simpl in *; [discriminate|].
    destruct (String.eqb k k') eqn:Ek; simpl.
    + rewrite String.eqb_refl. reflexivity.
    + rewrite Ek. apply IH. exact E.
  - unfold has_key in E. induction d as [|[k' v'] d IH]; simpl in *.
    + rewrite String.eqb_refl. reflexivity.
    + destruct (String.eqb k k') eqn:Ek; simpl in *; [discriminate|]. auto.
Qed.

Lemma get_setitem_beside d k v k' : k' <> k -> get (setitem d k v) k' = get d k'.
Proof.
  intros Hne. unfold setitem. destruct (has_key d k).
  - induction d as [|[k0 v0] d IH]; simpl; auto.
    destruct (String.eqb k k0) eqn:Ek; simpl.
    + apply String.eqb_eq in Ek. subst k0.
      apply String.eqb_neq in Hne. rewrite Hne. exact IH.
    + destruct (String.eqb k' k0); auto.
  - induction d as [|[k0 v0] d IH]; simpl.
    + apply String.eqb_neq in Hne. rewrite Hne. reflexivity.
    + destruct (String.eqb k' k0); auto.
Qed.

Lemma keys_setitem d k v :
  keys (setitem d k v) = if has_key d k then keys d else keys d ++ [k].
Proof.
  unfold setitem, keys. destruct (has_key d k).
  - induction d as [|[k0 v0] d IH]; simpl; auto.
    rewrite IH. destruct (String.eqb k k0) eqn:Ek; simpl; auto.
    apply String.eqb_eq in Ek. subst. reflexivity.
  - rewrite map_app. reflexivity.
Qed.

(** The row an UPDATE leaves: the named columns take their new values. *)
Lemma get_updated (columns : list string) (new : string -> value) r k :
  get (map (fun kv : string * value =>
              if existsb (String.eqb (fst kv)) columns
              then (fst kv, new (fst kv)) else kv) r) k
  = if has_key r k
    then if existsb (String.eqb k) columns then new k else get r k
    else VNone.
Proof.
  unfold has_key. induction r as [|[k' v] r IH]; simpl; auto.
  destruct (existsb (String.eqb k') columns) eqn:Ec; simpl;
    destruct (String.eqb k k') eqn:Ek; simpl; auto;
    apply String.eqb_eq in Ek; subst; rewrite Ec; reflexivity.
Qed.

Lemma keys_updated (columns : list string) (new : string -> value) (r : row) :
  keys (map (fun kv : string * value =>
               if existsb (String.eqb (fst kv)) columns
               then (fst kv, new (fst kv)) else kv) r) = keys r.
Proof.
  unfold keys. rewrite map_map. apply map_ext.
  intros kv. destruct (existsb _ columns); reflexivity.
Qed.

Lemma has_key_of_get d k : get d k <> VNone -> has_key d k = true.
Proof.
  intros H. destruct (has_key d k) eqn:E; auto.
  apply get_without_key in E. contradiction.
Qed.

(** What [update_receipt] computes when every key is a column. *)
Lemma update_receipt_returns t rid updates :
  updates <> [] ->
  Forall (fun k => In k RECEIPT_FIELDS) (keys updates) ->
  update t rid updates
  = Return
      (map (fun r =>
              if has_id rid r
              then map (fun kv : string * value =>
                          if existsb (String.eqb (fst kv)) (keys updates)
                          then (fst kv,
                                affinity' (fst kv)
                                  (get (setitem updates "id" (VStr rid)) (fst kv)))
                          else kv) r
              else r) t).
Proof.
  intros Hne Hk. unfold update_receipt.
  destruct (keys updates) as [|k ks] eqn:E.
  { destruct updates; [congruence|discriminate]. }
  rewrite <- E in *.
  assert (Hc : forallb (fun k => existsb (String.eqb k) RECEIPT_FIELDS)
                 (keys updates) = true).
  { apply forallb_forall. intros x Hx. rewrite Forall_forall in Hk.
    apply existsb_exists. exists x. split; [apply Hk; exact Hx|].
    apply String.eqb_refl. }
  rewrite Hc. reflexivity.
Qed.

Lemma updated_id rid updates r :
  has_id rid r = true ->
  get (map (fun kv : string * value =>
              if existsb (String.eqb (fst kv)) (keys updates)
              then (fst kv,
                    affinity' (fst kv)
                      (get (setitem updates "id" (VStr rid)) (fst kv)))
              else kv) r) "id" = VStr rid.
Proof.
  intros H. apply has_id_text in H.
  rewrite (get_updated (keys updates)
             (fun k => affinity' k (get (setitem updates "id" (VStr rid)) k))).
  rewrite has_key_of_get by (rewrite H; discriminate).
  destruct (existsb (String.eqb "id") (keys updates)); [|exact H].
  rewrite get_setitem. reflexivity.
Qed.

Lemma update_lookup t rid updates :
  updates <> [] ->
  Forall (fun k => In k RECEIPT_FIELDS) (keys updates) ->
  exists t',
    update t rid updates = Return t'
    /\ length t' = length t
    /\ (forall other, other <> rid -> get_receipt t' other = get_receipt t other)
    /\ match get_receipt t rid with
       | None => t' = t
       | Some r =>
         exists r',
           get_receipt t' rid = Some r'
           /\ keys r' = keys r
           /\ get r' "id" = VStr rid
           /\ forall k, k <> "id" -> has_key r k = true ->
                get r' k = if has_key updates k
                           then affinity' k (get updates k)
                           else get r k
       end.
Proof.
  intros Hne Hk. rewrite (update_receipt_returns t rid Hne Hk).
  eexists. split; [reflexivity|].
  set (G := map (fun kv : string * value =>
                   if existsb (String.eqb (fst kv)) (keys updates)
                   then (fst kv,
                         affinity' (fst kv)
                           (get (setitem updates "id" (VStr rid)) (fst kv)))
                   else kv)).
  split; [apply length_map|]. split.
  - intros other Hother. unfold get_receipt.
    induction t as [|x t IH]; simpl; auto.
    destruct (has_id rid x) eqn:Ex.
    + assert (E1 : has_id other x = false) by (eapply has_id_other; eauto).
      assert (E2 : has_id other (G x) = false).
      { eapply has_id_other; eauto. apply has_id_text. apply updated_id. exact Ex. }
      rewrite E1, E2. exact IH.
    + destruct (has_id other x); auto.
  - unfold get_receipt. induction t as [|x t IH]; simpl; auto.
    destruct (has_id rid x) eqn:Ex.
    + assert (E2 : has_id rid (G x) = true).
      { apply has_id_text. apply updated_id. exact Ex. }
      rewrite E2. exists (G x). split; [reflexivity|].
      split.
      { apply (keys_updated (keys updates)
                 (fun k => affinity' k (get (setitem updates "id" (VStr rid)) k))). }
      split; [apply updated_id; exact Ex|].
      intros k Hkid Hhas. unfold G.
      rewrite (get_updated (keys updates)
                 (fun k => affinity' k (get (setitem updates "id" (VStr rid)) k))).
      rewrite Hhas.
      rewrite <- has_key_keys.
      destruct (has_key updates k); auto.
      rewrite get_setitem_beside by exact Hkid. reflexivity.
    + rewrite Ex. destruct (find (has_id rid) t) as [r|] eqn:Ef.
      * exact IH.
      * rewrite IH. reflexivity.
Qed.


End TableFacts.



(** ** The primary key *)

Section KeyFacts.

Open Scope string_scope.
Open Scope list_scope.
Open Scope nat_scope.

Variable text_of_real : pyfloat -> str.
Variable real_of_text : str -> option pyfloat.
Variable update_other : list string -> dict -> table -> outcome table.

Local Abbreviation affinity' := (affinity text_of_real real_of_text).
Local Abbreviation insert := (insert_receipt text_of_real real_of_text).
Local Abbreviation update := (update_receipt text_of_real real_of_text update_other).

Lemma ids_app a b : ids (a ++ b) = ids a ++ ids b.
Proof. unfold ids. apply flat_map_app. Qed.

Lemma In_ids s t : In s (ids t) <-> exists r, In r t /\ get r "id" = VStr s.
Proof.
  unfold ids. rewrite in_flat_map. split; intros (r & Hin & H); exists r; split; auto.
  - destruct (get r "id"); simpl in H; try tauto. destruct H as [->|[]]. reflexivity.
  - rewrite H. simpl. auto.
Qed.

Lemma ids_cons r t :
  ids (r :: t) = match get r "id" with VStr s => [s] | _ => [] end ++ ids t.
Proof. reflexivity. Qed.

Lemma NoDup_ids_filter (q : row -> bool) t : NoDup (ids t) -> NoDup (ids (filter q t)).
Proof.
  induction t as [|x t IH]; [auto|].
  rewrite ids_cons. intros H. cbn [filter].
  assert (Ht : NoDup (ids t)).
  { destruct (get x "id"); simpl in H; auto. inversion H; auto. }
  destruct (q x); [|auto]. rewrite ids_cons.
  destruct (get x "id") as [|s|y]; simpl in *; auto.
  inversion H as [|? ? Hnot _]; subst. constructor; auto.
  intros Hin. apply Hnot. apply In_ids in Hin. destruct Hin as (r & Hr & E).
  apply In_ids. exists r. split; auto. apply filter_In in Hr. tauto.
Qed.

Lemma filter_has_id_absent rid t : ~ In rid (ids t) -> filter (has_id rid) t = [].
Proof.
  intros H. induction t as [|x t IH]; [auto|].
  rewrite ids_cons in H. cbn [filter]. destruct (has_id rid x) eqn:E.
  - exfalso. apply H. apply has_id_text in E. rewrite E. simpl. auto.
  - apply IH. intros Hin. apply H. apply in_or_app. auto.
Qed.

Lemma one_row_for_an_id rid t : NoDup (ids t) -> length (filter (has_id rid) t) <= 1.
Proof.
  induction t as [|x t IH]; [simpl; auto|].
  rewrite ids_cons. intros H. cbn [filter]. destruct (has_id rid x) eqn:E.
  - apply has_id_text in E. rewrite E in H. simpl in H.
    inversion H as [|? ? Hnot _]; subst.
    rewrite (@filter_has_id_absent rid t Hnot). simpl. lia.
  - apply IH. destruct (get x "id"); simpl in H; auto. inversion H; auto.
Qed.

Lemma affinity_id_not_real v x : affinity' "id" v <> VFloat x.
Proof. destruct v; cbn; discriminate. Qed.

Lemma ids_updated rid updates t :
  ids (map (fun r =>
              if has_id rid r
              then map (fun kv : string * value =>
                          if existsb (String.eqb (fst kv)) (keys updates)
                          then (fst kv,
                                affinity' (fst kv)
                                  (get (setitem updates "id" (VStr rid)) (fst kv)))
                          else kv) r
              else r) t) = ids t.
Proof.
  induction t as [|x t IH]; [auto|]. cbn [map].
  rewrite !ids_cons, IH. destruct (has_id rid x) eqn:E; auto.
  rewrite (@updated_id text_of_real real_of_text rid updates x E).
  apply has_id_text in E. rewrite E. reflexivity.
Qed.

(** The primary key holds in every table the functions build.  It holds in
    the empty table, [insert_receipt], [delete_receipt] and [update_receipt]
    keep it, and where it holds a text id names at most one row, each row
    with the thirteen columns. *)
Theorem primary_key_is_kept :
  primary_key_holds []
  /\ (forall t data t',
        primary_key_holds t -> insert t data = Return t' -> primary_key_holds t')
  /\ (forall t rid, primary_key_holds t -> primary_key_holds (delete_receipt t rid))
  /\ (forall t rid updates t',
        Forall (fun k => In k RECEIPT_FIELDS) (keys updates) ->
        primary_key_holds t -> update t rid updates = Return t' ->
        primary_key_holds t')
  /\ (forall t rid,
        primary_key_holds t -> length (filter (has_id rid) t) <= 1)
  /\ (forall t rid r,
        primary_key_holds t -> get_receipt t rid = Some r ->
        keys r = RECEIPT_FIELDS /\ get r "id" = VStr rid).
Proof.
  split; [|split; [|split; [|split; [|split]]]].
  - split; constructor.
  - intros t data t' (Hn & Hf) H. unfold insert_receipt, bound_row in H.
    destruct (forallb (has_key data) RECEIPT_FIELDS); [|discriminate].
    cbn [and_then] in H. injection H as <-.
    set (r := map (fun k => (k, affinity' k (get data k))) RECEIPT_FIELDS).
    change (get r "id") with (affinity' "id" (get data "id")).
    pose proof (affinity_id_not_real (get data "id")) as Hreal.
    assert (Hr : get r "id" = affinity' "id" (get data "id")) by reflexivity.
    revert Hreal Hr. generalize (affinity' "id" (get data "id")). intros v Hreal Hr.
    split.
    + rewrite ids_app. unfold ids at 2. cbn [flat_map].
      match goal with
      | |- context [get ?l "id"] => change (get l "id") with v
      end.
      rewrite app_nil_r.
      pose proof (@NoDup_ids_filter
                    (fun r' => negb (same_key (get r' "id") v)) t Hn) as Hq.
      destruct v as [|s|y]; try (rewrite app_nil_r; exact Hq).
      apply NoDup_app; [exact Hq|repeat constructor; simpl; tauto|].
      intros a Ha [<-|[]]. apply In_ids in Ha. destruct Ha as (x & Hx & Ex).
      apply filter_In in Hx. destruct Hx as (_ & Hx).
      rewrite Ex in Hx. simpl in Hx. rewrite str_eqb_refl in Hx. discriminate.
    + apply Forall_app. split.
      * rewrite Forall_forall in *. intros x Hx. apply Hf.
        apply filter_In in Hx. tauto.
      * constructor; [|constructor]. split; [reflexivity|].
        exact Hreal.
  - intros t rid (Hn & Hf). split.
    + apply NoDup_ids_filter. exact Hn.
    + rewrite Forall_forall in *. intros x Hx. apply Hf.
      apply filter_In in Hx. tauto.
  - intros t rid updates t' Hk (Hn & Hf) H.
    assert (Hne : updates <> []) by (intros ->; discriminate H).
    pose proof (@update_receipt_returns text_of_real real_of_text update_other
                  t rid updates Hne Hk) as Hu.
    assert (Ht' : t' = map (fun r =>
              if has_id rid r
              then map (fun kv : string * value =>
                          if existsb (String.eqb (fst kv)) (keys updates)
                          then (fst kv,
                                affinity' (fst kv)
                                  (get (setitem updates "id" (VStr rid)) (fst kv)))
                          else kv) r
              else r) t) by congruence.
    rewrite Ht'. clear Ht' Hu H. split.
    + rewrite ids_updated. exact Hn.
    + rewrite Forall_forall in *. intros x Hx. apply in_map_iff in Hx.
      destruct Hx as (x0 & <- & Hx0). destruct (Hf x0 Hx0) as (Hkeys & Hreal).
      destruct (has_id rid x0) eqn:E; [|auto]. split.
      * rewrite <- Hkeys.
        apply (keys_updated (keys updates)
                 (fun k => affinity' k (get (setitem updates "id" (VStr rid)) k))).
      * intros y.
        rewrite (@updated_id text_of_real real_of_text rid updates x0 E).
        discriminate.
  - intros t rid (Hn & _). apply one_row_for_an_id. exact Hn.
  - intros t rid r (_ & Hf) H. apply find_some in H. destruct H as (Hin & Hid).
    rewrite Forall_forall in Hf. split; [apply Hf; exact Hin|].
    apply has_id_text. exact Hid.
Qed.

Lemma filter_partition_length {A} (p : A -> bool) l :
  length (filter p l) + length (filter (fun x => negb (p x)) l) = length l.
Proof.
  induction l as [|x l IH]; simpl; auto.
  destruct (p x); simpl; lia.
Qed.

Lemma find_none_filter {A} (p : A -> bool) l : find p l = None -> filter p l = [].
Proof.
  induction l as [|x l IH]; simpl; auto.
  destruct (p x); [discriminate|auto].
Qed.

Lemma find_some_filter {A} (p : A -> bool) l x :
  find p l = Some x -> 1 <= length (filter p l).
Proof.
  induction l as [|y l IH]; simpl; [discriminate|].
  destruct (p y); simpl; [lia|auto].
Qed.

(** Storing a receipt under an id the table has replaces the row; under a
    new id it adds one row.  The count of the summary page moves
    accordingly. *)
Theorem insert_receipt_replaces_or_adds
  (t t' : table) (data : dict) (rid : str) :
  primary_key_holds t ->
  get data "id" = VStr rid ->
  insert t data = Return t' ->
  length t' = match get_receipt t rid with
              | Some _ => length t
              | None => S (length t)
              end.
Proof.
  intros (Hn & _) Hid H.
  destruct (forallb (has_key data) RECEIPT_FIELDS) eqn:Ek.
  2: { unfold insert_receipt, bound_row in H. rewrite Ek in H. discriminate. }
  assert (Ht' : t' = filter (fun r' => negb (has_id rid r')) t
                     ++ [map (fun k => (k, affinity' k (get data k))) RECEIPT_FIELDS]).
  { unfold insert_receipt in H.
    rewrite (@bound_row_returns text_of_real real_of_text data Ek) in H.
    cbn [and_then] in H.
    rewrite get_columns in H by (simpl; auto). rewrite Hid in H.
    injection H as <-. reflexivity. }
  rewrite Ht'. rewrite length_app. cbn [length].
  pose proof (filter_partition_length (has_id rid) t) as Hp.
  pose proof (@one_row_for_an_id rid t Hn) as H1.
  unfold get_receipt. destruct (find (has_id rid) t) as [r|] eqn:E.
  - apply find_some_filter in E. lia.
  - apply find_none_filter in E. rewrite E in Hp. simpl in Hp. lia.
Qed.


End KeyFacts.

Lemma insert_receipt_replaces_or_adds_witness :
  let data := assemble [] (u "r1") (u "now") (mkDate 2024 5 1) (u "a.jpg") in
  let old := map (fun k => (k, get (assemble [] (u "r1") (u "then")
                                      (mkDate 2024 4 30) (u "b.jpg")) k))
                 RECEIPT_FIELDS in
  primary_key_holds [old]
  /\ get data "id"%string = VStr (u "r1")
  /\ insert_receipt (fun _ => []) (fun _ => None) [old] data = Return [data]
  /\ length [data] = match get_receipt [old] (u "r1") with
                     | Some _ => length [old]
                     | None => S (length [old])
                     end.
Proof.
  intros data old.
  assert (H1 : primary_key_holds [old]).
  { split.
    - repeat constructor. simpl. tauto.
    - constructor; [|constructor]. split; [reflexivity|discriminate]. }
  assert (H2 : get data "id"%string = VStr (u "r1")) by reflexivity.
  assert (H3 : insert_receipt (fun _ => []) (fun _ => None) [old] data = Return [data])
    by reflexivity.
  split; [exact H1|]. split; [exact H2|]. split; [exact H3|].
  exact (@insert_receipt_replaces_or_adds (fun _ => []) (fun _ => None)
           [old] [data] data (u "r1") H1 H2 H3).
Defined.

(** ** The pages of the listing *)

Section ListingFacts.

Open Scope string_scope.
Open Scope list_scope.
Open Scope nat_scope.

Variable like : str -> value -> bool.
Variable order_by_desc : string -> table -> table.

Local Abbreviation listing := (list_receipts like order_by_desc).

Lemma in_int64_of_nat k : (Z.of_nat k < 2 ^ 63)%Z -> in_int64 (Z.of_nat k) = true.
Proof.
  intros H. unfold in_int64. change (2 ^ 63)%Z with 9223372036854775808%Z in *.
  apply andb_true_intro. split; [apply Z.leb_le|apply Z.ltb_lt]; lia.
Qed.

Lemma firstn_add {A} a b (l : list A) :
  firstn (a + b) l = firstn a l ++ firstn b (skipn a l).
Proof.
  revert l. induction a as [|a IH]; intros l; [reflexivity|].
  destruct l as [|x l]; simpl.
  - rewrite firstn_nil. reflexivity.
  - rewrite IH. reflexivity.
Qed.

Lemma pages_tile {A} pp n (l : list A) :
  concat (map (fun i => firstn pp (skipn (i * pp) l)) (seq 0 n)) = firstn (n * pp) l.
Proof.
  induction n as [|n IH]; [reflexivity|].
  rewrite seq_S, map_app, concat_app, IH. cbn [map concat Nat.add].
  rewrite app_nil_r. replace (S n * pp) with (n * pp + pp) by lia.
  rewrite firstn_add. reflexivity.
Qed.

(** Page after page, the whole listing.  With [per_page] rows a page, page
    [i + 1] holds the rows from place [i * per_page] of the listing (the
    matching rows in the order of the engine, as the call without a limit
    returns them), the total is the same on every page, and the first pages
    put end to end are the beginning of the listing, with no row left out
    and none repeated. *)
Theorem list_receipts_pages_tile_the_listing
  (t : table) (search category : option str) (per_page n : nat) :
  (Z.of_nat per_page < 2 ^ 63)%Z ->
  (Z.of_nat (n * per_page) < 2 ^ 63)%Z ->
  exists rows total,
    listing t search category 1 (-1) = Return (rows, total)
    /\ (forall i, i < n ->
          listing t search category (Z.of_nat (S i)) (Z.of_nat per_page)
          = Return (firstn per_page (skipn (i * per_page) rows), total))
    /\ concat (map (fun i => firstn per_page (skipn (i * per_page) rows)) (seq 0 n))
       = firstn (n * per_page) rows.
Proof.
  intros Hpp Hn. unfold list_receipts.
  eexists _, _. split; [reflexivity|]. split; [|apply pages_tile].
  intros i Hi.
  replace ((Z.of_nat (S i) - 1) * Z.of_nat per_page)%Z
    with (Z.of_nat (i * per_page)) by lia.
  rewrite (in_int64_of_nat _ Hpp).
  rewrite in_int64_of_nat by (assert (i * per_page <= n * per_page) by nia; lia).
  cbn [andb]. unfold limit, offset.
  replace (Z.of_nat per_page <? 0)%Z with false by (symmetry; apply Z.ltb_ge; lia).
  rewrite !Nat2Z.id. reflexivity.
Qed.

(** A page number below one shows the first page: the offset is negative
    and SQLite reads a negative offset as none. *)
Theorem list_receipts_page_below_one
  (t : table) (search category : option str) (page per_page : Z) :
  (page <= 0)%Z -> (0 <= per_page)%Z ->
  in_int64 ((page - 1) * per_page) = true ->
  listing t search category page per_page = listing t search category 1 per_page.
Proof.
  intros Hp Hpp Hskip. unfold list_receipts. rewrite Hskip.
  replace ((1 - 1) * per_page)%Z with 0%Z by lia.
  change (in_int64 0) with true. rewrite !andb_true_r.
  destruct (in_int64 per_page); [|reflexivity].
  unfold offset. replace (Z.to_nat ((page - 1) * per_page)) with 0 by nia.
  reflexivity.
Qed.

End ListingFacts.

(** Two receipts, one to a page. *)
Lemma list_receipts_pages_tile_the_listing_witness :
  let old := assemble [] (u "r1") (u "then") (mkDate 2024 4 30) (u "b.jpg") in
  let new := assemble [] (u "r2") (u "now") (mkDate 2024 5 1) (u "a.jpg") in
  (Z.of_nat 1 < 2 ^ 63)%Z
  /\ (Z.of_nat (2 * 1) < 2 ^ 63)%Z
  /\ exists rows total,
       list_receipts (fun _ _ => true) (fun _ t => rev t) [old; new] None None 1 (-1)
       = Return (rows, total)
       /\ (forall i, i < 2 ->
             list_receipts (fun _ _ => true) (fun _ t => rev t) [old; new] None None
               (Z.of_nat (S i)) (Z.of_nat 1)
             = Return (firstn 1 (skipn (i * 1) rows), total))
       /\ concat (map (fun i => firstn 1 (skipn (i * 1) rows)) (seq 0 2))
          = firstn (2 * 1) rows.
Proof.
  intros old new.
  assert (H1 : (Z.of_nat 1 < 2 ^ 63)%Z) by reflexivity.
  assert (H2 : (Z.of_nat (2 * 1) < 2 ^ 63)%Z) by reflexivity.
  split; [exact H1|]. split; [exact H2|].
  exact (@list_receipts_pages_tile_the_listing
           (fun _ _ => true) (fun _ t => rev t) [old; new] None None 1 2 H1 H2).
Defined.

Lemma list_receipts_page_below_one_witness :
  let old := assemble [] (u "r1") (u "then") (mkDate 2024 4 30) (u "b.jpg") in
  let new := assemble [] (u "r2") (u "now") (mkDate 2024 5 1) (u "a.jpg") in
  (-3 <= 0)%Z /\ (0 <= 1)%Z
  /\ in_int64 ((-3 - 1) * 1) = true
  /\ list_receipts (fun _ _ => true) (fun _ t => rev t) [old; new] None None (-3) 1
     = list_receipts (fun _ _ => true) (fun _ t => rev t) [old; new] None None 1 1.
Proof.
  intros old new.
  assert (H1 : (-3 <= 0)%Z) by lia.
  assert (H2 : (0 <= 1)%Z) by lia.
  assert (H3 : in_int64 ((-3 - 1) * 1) = true) by reflexivity.
  split; [exact H1|]. split; [exact H2|]. split; [exact H3|].
  exact (@list_receipts_page_below_one (fun _ _ => true) (fun _ t => rev t)
           [old; new] None None (-3) 1 H1 H2 H3).
Defined.

(** ** Editing and removing a receipt *)

Section ViewFacts.

Open Scope string_scope.
Open Scope list_scope.
Open Scope nat_scope.

Variable text_of_real : pyfloat -> str.
Variable real_of_text : str -> option pyfloat.
Variable order_by_desc : string -> table -> table.
Variable update_other : list string -> dict -> table -> outcome table.
Variable timestamp_now : str.

Local Abbreviation affinity' := (affinity text_of_real real_of_text).
Local Abbreviation remove_receipt' := (remove_receipt order_by_desc).
Local Abbreviation receipt_detail_post' :=
  (receipt_detail_post text_of_real real_of_text order_by_desc update_other
     timestamp_now).

(** Removing a receipt that is in the table deletes its row, exports the
    CSV file again and then raises AttributeError, at [receipt.get]: a
    [sqlite3.Row] has no such method.  The lines that remove the image are
    never reached, so no file is ever removed; the answer is an error and
    not the redirect.  Only for an id that is not in the table does the
    route answer, and then it changes nothing. *)
Theorem remove_receipt_raises_after_deleting (receipt_id : str) (w : world) :
  match get_receipt (db w) receipt_id with
  | Some (column :: columns) =>
    remove_receipt' receipt_id w
    = ({| db := delete_receipt (db w) receipt_id;
          csv := Some (order_by_desc "created_at" (delete_receipt (db w) receipt_id));
          files := files w |},
       Throw AttributeError)
  | _ =>
    remove_receipt' receipt_id w
    = (w, Return (redirect_receipt_list (u "Receipt not found") (u "danger")))
  end
  /\ files (fst (remove_receipt' receipt_id w)) = files w
  /\ (primary_key_holds (db w) ->
      forall receipt, get_receipt (db w) receipt_id = Some receipt ->
        snd (remove_receipt' receipt_id w) = Throw AttributeError
        /\ get_receipt (db (fst (remove_receipt' receipt_id w))) receipt_id = None).
Proof.
  unfold remove_receipt.
  destruct (get_receipt (db w) receipt_id) as [[|column columns]|] eqn:E;
    cbn [Row_get fst snd files db export_to_csv with_db].
  - split; [reflexivity|]. split; [reflexivity|].
    intros (_ & Hf) receipt [= <-]. exfalso.
    apply find_some in E. destruct E as (Hin & _).
    rewrite Forall_forall in Hf. destruct (Hf _ Hin) as (Hk & _). discriminate.
  - split; [reflexivity|]. split; [reflexivity|].
    intros _ receipt _. split; [reflexivity|].
    unfold get_receipt, delete_receipt. apply find_filter_out.
  - split; [reflexivity|]. split; [reflexivity|]. intros _ receipt H. discriminate.
Qed.

Lemma setitem_not_empty d k v : setitem d k v <> [].
Proof.
  unfold setitem. destruct (has_key d k) eqn:E.
  - destruct d; [discriminate|]. simpl. discriminate.
  - destruct d; discriminate.
Qed.

Lemma has_key_setitem_beside d k v k' :
  k' <> k -> has_key (setitem d k v) k' = has_key d k'.
Proof.
  intros Hne. rewrite !has_key_keys, keys_setitem.
  destruct (has_key d k); [reflexivity|].
  rewrite existsb_app. simpl. apply String.eqb_neq in Hne. rewrite Hne.
  rewrite !orb_false_r. reflexivity.
Qed.

Lemma has_key_setitem d k v : has_key (setitem d k v) k = true.
Proof.
  rewrite has_key_keys, keys_setitem. destruct (has_key d k) eqn:E.
  - rewrite <- has_key_keys. exact E.
  - rewrite existsb_app. simpl. rewrite String.eqb_refl, orb_true_r. reflexivity.
Qed.

(** Saving the edit form.  For a form whose fields are columns, the route
    answers with the redirect to the receipt and exports the CSV file from
    the table it leaves.  The row under the id keeps its id whatever the
    form says, its [updated_at] is the time of the request whatever the form
    says, every other field of the form is stored in its column, the columns
    the form does not name stay; no file is touched.  For an id that is not
    in the table the answer is the same and no row changes. *)
Theorem receipt_detail_post_keeps_id_and_stamps
  (receipt_id : str) (form : list (string * str)) (w : world) :
  Forall (fun kv => In (fst kv) RECEIPT_FIELDS) form ->
  let fields := map (fun kv => (fst kv, VStr (snd kv))) form in
  exists w',
    receipt_detail_post' receipt_id form w
    = (w', Return (redirect_receipt_detail receipt_id
                     (u "Receipt updated.") (u "success")))
    /\ files w' = files w
    /\ csv w' = Some (order_by_desc "created_at" (db w'))
    /\ length (db w') = length (db w)
    /\ (forall other, other <> receipt_id ->
          get_receipt (db w') other = get_receipt (db w) other)
    /\ match get_receipt (db w) receipt_id with
       | None => db w' = db w
       | Some r =>
         exists r',
           get_receipt (db w') receipt_id = Some r'
           /\ keys r' = keys r
           /\ get r' "id" = VStr receipt_id
           /\ (has_key r "updated_at" = true ->
               get r' "updated_at" = VStr timestamp_now)
           /\ forall k, k <> "id" -> k <> "updated_at" -> has_key r k = true ->
                get r' k = if has_key fields k
                           then affinity' k (get fields k)
                           else get r k
       end.
Proof.
  intros Hform fields. unfold receipt_detail_post. fold fields.
  set (updates := setitem fields "updated_at" (VStr timestamp_now)).
  assert (Hne : updates <> []) by apply setitem_not_empty.
  assert (Hk : Forall (fun k => In k RECEIPT_FIELDS) (keys updates)).
  { unfold updates. rewrite keys_setitem.
    assert (Hf : Forall (fun k => In k RECEIPT_FIELDS) (keys fields)).
    { unfold fields, keys. rewrite map_map. apply Forall_map.
      exact Hform. }
    destruct (has_key fields "updated_at"); [exact Hf|].
    apply Forall_app. split; [exact Hf|]. constructor; [simpl; auto 20|constructor]. }
  destruct (@update_lookup text_of_real real_of_text update_other
              (db w) receipt_id updates Hne Hk)
    as (t' & Hu & Hlen & Hother & Hrow).
  rewrite Hu. eexists. split; [reflexivity|].
  cbn [files db csv export_to_csv with_db].
  split; [reflexivity|]. split; [reflexivity|]. split; [exact Hlen|].
  split; [exact Hother|].
  destruct (get_receipt (db w) receipt_id) as [r|]; [|exact Hrow].
  destruct Hrow as (r' & Hget & Hkeys & Hid & Hcol).
  exists r'. split; [exact Hget|]. split; [exact Hkeys|]. split; [exact Hid|].
  split.
  - intros Hhas. rewrite Hcol by (auto; discriminate).
    unfold updates. rewrite has_key_setitem, get_setitem. reflexivity.
  - intros k Hkid Hkup Hhas. rewrite Hcol by auto.
    unfold updates. rewrite has_key_setitem_beside, get_setitem_beside by exact Hkup.
    reflexivity.
Qed.

End ViewFacts.

(** A form that names the id and the time stamp along with the vendor. *)
Lemma receipt_detail_post_keeps_id_and_stamps_witness :
  let old := assemble [] (u "r1") (u "then") (mkDate 2024 4 30) (u "b.jpg") in
  let form := [("id", u "r2"); ("updated_at", u "never");
               ("vendor", u "Corner Shop")]%string in
  let w := {| db := [old]; csv := None; files := [u "b.jpg"] |} in
  Forall (fun kv => In (fst kv) RECEIPT_FIELDS) form
  /\ fst (receipt_detail_post (fun _ => []) (fun _ => None) (fun _ t => t)
            (fun _ _ t => Return t) (u "now") (u "r1") form w)
     = {| db := [map (fun kv => if String.eqb (fst kv) "vendor"
                                then (fst kv, VStr (u "Corner Shop"))
                                else if String.eqb (fst kv) "updated_at"
                                then (fst kv, VStr (u "now")) else kv) old];
          csv := Some [map (fun kv => if String.eqb (fst kv) "vendor"
                                      then (fst kv, VStr (u "Corner Shop"))
                                      else if String.eqb (fst kv) "updated_at"
                                      then (fst kv, VStr (u "now")) else kv) old];
          files := [u "b.jpg"] |}
  /\ exists w',
       receipt_detail_post (fun _ => []) (fun _ => None) (fun _ t => t)
         (fun _ _ t => Return t) (u "now") (u "r1") form w
       = (w', Return (redirect_receipt_detail (u "r1")
                        (u "Receipt updated.") (u "success")))
       /\ files w' = files w.
Proof.
  intros old form w.
  assert (H : Forall (fun kv => In (fst kv) RECEIPT_FIELDS) form).
  { apply Forall_forall. intros kv [<-|[<-|[<-|[]]]]; simpl; auto 20. }
  split; [exact H|]. split; [vm_compute; reflexivity|].
  destruct (@receipt_detail_post_keeps_id_and_stamps
              (fun _ => []) (fun _ => None) (fun _ t => t)
              (fun _ _ t => Return t) (u "now") (u "r1") form w H)
    as (w' & H1 & H2 & _).
  exists w'. split; [exact H1|exact H2].
Defined.

(** ** Numerals read back *)

Section Numerals.

Lemma decimal_value_ascii k : (k < 10)%N -> decimal_value (48 + k)%N = Some k.
Proof.
  intros H. unfold decimal_value, Nd_zeros. cbn [find].
  assert (E : ((48 <=? 48 + k) && (48 + k <? 48 + 10))%N = true).
  { apply andb_true_iff. rewrite N.leb_le, N.ltb_lt. lia. }
  rewrite E. f_equal. lia.
Qed.

Lemma ascii_digit_offset k : (k < 10)%N -> ascii_digit (48 + k)%N = true.
Proof.
  intros H. unfold ascii_digit, in_range.
  apply andb_true_iff. rewrite !N.leb_le. lia.
Qed.

Local Abbreviation step :=
  (fun acc c => (acc * 10 + match decimal_value c with Some d => d | None => 0 end)%N).

(** The digits [digits_aux] puts before [acc] write [n]. *)
Lemma digits_aux_writes fuel : forall n acc,
  N.to_nat (N.log2 n) < fuel ->
  exists ds,
    digits_aux fuel n acc = ds ++ acc
    /\ ds <> []
    /\ forallb ascii_digit ds = true
    /\ forall a, fold_left step ds a = (a * 10 ^ N.of_nat (length ds) + n)%N.
Proof.
  induction fuel as [|fuel IH]; intros n acc Hf; [lia|].
  cbn [digits_aux].
  assert (Hd : (n mod 10 < 10)%N) by (apply N.mod_lt; lia).
  destruct (n / 10 =? 0)%N eqn:E.
  - apply N.eqb_eq in E. exists [(48 + n mod 10)%N].
    split; [reflexivity|]. split; [discriminate|].
    split; [cbn [forallb]; rewrite ascii_digit_offset by exact Hd; reflexivity|].
    intros a. cbn [fold_left length]. rewrite decimal_value_ascii by exact Hd.
    pose proof (N.div_mod n 10). change (N.of_nat 1) with 1%N. lia.
  - apply N.eqb_neq in E.
    destruct (IH (n / 10)%N ((48 + n mod 10)%N :: acc)) as (ds & H1 & H2 & H3 & H4).
    { assert (Hn : (10 <= n)%N).
      { destruct (N.lt_ge_cases n 10) as [Hlt|]; [|assumption].
        apply N.div_small in Hlt. contradiction. }
      assert (Hle : (N.log2 (n / 10) <= N.log2 (N.div2 n))%N).
      { apply N.log2_le_mono. rewrite N.div2_div.
        apply N.div_le_compat_l. lia. }
      rewrite N.div2_spec, N.log2_shiftr in Hle.
      assert (1 <= N.log2 n)%N.
      { apply N.log2_le_pow2; lia. }
      lia. }
    exists (ds ++ [(48 + n mod 10)%N]).
    split; [rewrite H1, <- app_assoc; reflexivity|].
    split; [destruct ds; discriminate|].
    split.
    { rewrite forallb_app, H3. cbn [forallb].
      rewrite ascii_digit_offset by exact Hd. reflexivity. }
    intros a. rewrite fold_left_app, H4. cbn [fold_left].
    rewrite decimal_value_ascii by exact Hd.
    rewrite length_app. cbn [length]. rewrite Nat.add_1_r, Nat2N.inj_succ, N.pow_succ_r'.
    pose proof (N.div_mod n 10). lia.
Qed.

Lemma str_of_N_writes n :
  digits_value (str_of_N n) = n
  /\ forallb ascii_digit (str_of_N n) = true
  /\ str_of_N n <> [].
Proof.
  unfold str_of_N.
  destruct (@digits_aux_writes (S (N.to_nat (N.log2 n))) n []) as (ds & H1 & H2 & H3 & H4);
    [lia|].
  rewrite H1, app_nil_r. unfold digits_value. rewrite H4. auto.
Qed.

Lemma forallb_reversed {A} (f : A -> bool) l :
  forallb f l = true -> forallb f (rev l) = true.
Proof.
  rewrite !forallb_forall. intros H x Hx. apply H. apply in_rev. exact Hx.
Qed.

Lemma strip_of_digits s : forallb ascii_digit s = true -> strip s = s.
Proof.
  intros H.
  assert (L : forall w, forallb ascii_digit w = true -> lstrip w = w).
  { intros [|c w] Hw; [reflexivity|]. cbn [forallb] in Hw.
    apply andb_true_iff in Hw. destruct Hw as (Hc & _).
    apply ascii_digit_plain in Hc. destruct Hc as (Hc & _).
    unfold lstrip. cbn [dropwhile]. rewrite Hc. reflexivity. }
  unfold strip. rewrite (L s H), L, rev_involutive; [reflexivity|].
  apply forallb_reversed. exact H.
Qed.

(** [int] reads back what [zero_pad] writes. *)
Lemma int_zero_pad w n : int (zero_pad w n) = Ok n.
Proof.
  destruct (str_of_N_writes n) as (Hv & Hd & Hne).
  assert (Hall : forallb ascii_digit (zero_pad w n) = true).
  { unfold zero_pad. cbv zeta. rewrite forallb_app.
    apply andb_true_intro. split; [|exact Hd].
    induction (w - length (str_of_N n)) as [|k IH]; [reflexivity|].
    cbn [repeat forallb]. rewrite IH. reflexivity. }
  assert (Hval : digits_value (zero_pad w n) = n).
  { unfold zero_pad, digits_value. cbv zeta. rewrite fold_left_app.
    replace (fold_left _ (repeat 48%N (w - length (str_of_N n))) 0%N) with 0%N.
    - exact Hv.
    - induction (w - length (str_of_N n)) as [|k IH]; [reflexivity|].
      cbn [repeat fold_left]. exact IH. }
  assert (Hnot : zero_pad w n <> []).
  { unfold zero_pad. cbv zeta. intros E. apply app_eq_nil in E.
    destruct E. contradiction. }
  pose proof (ascii_digits_isdecimal _ Hall) as Hdec.
  unfold int. rewrite (strip_of_digits _ Hall).
  revert Hval Hnot Hdec. generalize (zero_pad w n). intros z Hval Hnot Hdec.
  destruct z as [|c s]; [contradiction|]. rewrite Hdec, Hval. reflexivity.
Qed.

End Numerals.

(** ** Dates that parse *)

Section DateRoundTrip.

Open Scope list_scope.
Open Scope nat_scope.

Local Abbreviation year_re :=
  (Grp gY (cats [Chr isdecimal; Chr isdecimal; Chr isdecimal; Chr isdecimal])).
Local Abbreviation month_re :=
  (Grp gm (alts [Cat (ch "1") (Chr (rng "0" "2"));
                 Cat (ch "0") (Chr (rng "1" "9"));
                 Chr (rng "1" "9")])).
Local Abbreviation day_re :=
  (Grp gd (alts [Cat (ch "3") (Chr (rng "0" "1"));
                 Cat (Chr (rng "1" "2")) (Chr isdecimal);
                 Cat (ch "0") (Chr (rng "1" "9"));
                 Chr (rng "1" "9");
                 Cat (ch " ") (Chr (rng "1" "9"))])).

(** The pattern of a numeric format, year first or day first, with the
    separator [sep]. *)
Lemma pattern_year_first sep :
  isspace sep = false -> (sep =? 37)%N = false ->
  pattern (year_first_format sep) false
  = Some (Cat year_re (Cat (Chr (ieq sep)) (Cat month_re
            (Cat (Chr (ieq sep)) (Cat day_re Eps))))).
Proof. intros H1 H2. cbn. rewrite H1, H2. reflexivity. Qed.

Lemma pattern_day_first sep :
  isspace sep = false -> (sep =? 37)%N = false ->
  pattern (day_first_format sep) false
  = Some (Cat day_re (Cat (Chr (ieq sep)) (Cat month_re
            (Cat (Chr (ieq sep)) (Cat year_re Eps))))).
Proof. intros H1 H2. cbn. rewrite H1, H2. reflexivity. Qed.

Lemma exec_year {A} a b c e s g (k : str -> groups -> option A) :
  isdecimal a = true -> isdecimal b = true -> isdecimal c = true ->
  isdecimal e = true ->
  exec year_re (a :: b :: c :: e :: s) g k = k s ((gY, [a; b; c; e]) :: g).
Proof.
  intros Ha Hb Hc He. cbn [exec cats]. rewrite Ha, Hb, Hc, He.
  change (a :: b :: c :: e :: s) with ([a; b; c; e] ++ s).
  rewrite taken_app. reflexivity.
Qed.

Lemma exec_year_stops {A} a b x s g (k : str -> groups -> option A) T :
  isdecimal x = false -> exec (Cat year_re T) (a :: b :: x :: s) g k = None.
Proof.
  intros Hx. cbn [exec cats]. rewrite Hx.
  destruct (isdecimal a), (isdecimal b); reflexivity.
Qed.

Lemma month_cases m :
  (1 <= m <= 12)%N -> In m [1; 2; 3; 4; 5; 6; 7; 8; 9; 10; 11; 12]%N.
Proof. intros H. simpl. lia. Qed.

Lemma day_cases d :
  (1 <= d <= 31)%N ->
  In d [1; 2; 3; 4; 5; 6; 7; 8; 9; 10; 11; 12; 13; 14; 15; 16; 17; 18; 19; 20;
        21; 22; 23; 24; 25; 26; 27; 28; 29; 30; 31]%N.
Proof. intros H. simpl. lia. Qed.

Ltac each_month H :=
  cbn [In] in H;
  repeat (destruct H as [<-|H]); [..|destruct H].

(** After the year: separator, month, separator, day, and the end. *)
Lemma exec_month_day sep m d g :
  sep = 45%N \/ sep = 47%N -> (1 <= m <= 12)%N -> (1 <= d <= 31)%N ->
  exec (Cat (Chr (ieq sep)) (Cat month_re (Cat (Chr (ieq sep)) (Cat day_re Eps))))
       (sep :: zero_pad 2 m ++ sep :: zero_pad 2 d) g
       (fun s' g' => Some (s', g'))
  = Some ([], (gd, zero_pad 2 d) :: (gm, zero_pad 2 m) :: g).
Proof.
  intros Hsep Hm Hd. apply month_cases in Hm. apply day_cases in Hd.
  destruct Hsep; subst sep; each_month Hm; each_month Hd;
    vm_compute; reflexivity.
Qed.

(** Before the year: day, separator, month, separator, and then whatever
    the rest of the pattern does with the four characters left. *)
Lemma exec_day_month_then {A} sep m d a b c e g
  (K : str -> groups -> option A) x :
  sep = 45%N \/ sep = 47%N -> (1 <= m <= 12)%N -> (1 <= d <= 31)%N ->
  K [a; b; c; e] ((gm, zero_pad 2 m) :: (gd, zero_pad 2 d) :: g) = Some x ->
  exec day_re (zero_pad 2 d ++ sep :: zero_pad 2 m ++ sep :: [a; b; c; e]) g
    (fun s1 g1 =>
       exec (Chr (ieq sep)) s1 g1
         (fun s2 g2 =>
            exec month_re s2 g2
              (fun s3 g3 => exec (Chr (ieq sep)) s3 g3 K)))
  = Some x.
Proof.
  intros Hsep Hm Hd. apply month_cases in Hm. apply day_cases in Hd.
  destruct Hsep; subst sep; each_month Hm; each_month Hd;
    intros H; vm_compute in H |- *; rewrite H; reflexivity.
Qed.

Lemma exec_day_month {A} sep m d (R : regex) a b c e g
  (k : str -> groups -> option A) x :
  sep = 45%N \/ sep = 47%N -> (1 <= m <= 12)%N -> (1 <= d <= 31)%N ->
  exec R [a; b; c; e] ((gm, zero_pad 2 m) :: (gd, zero_pad 2 d) :: g) k = Some x ->
  exec (Cat day_re (Cat (Chr (ieq sep)) (Cat month_re (Cat (Chr (ieq sep)) R))))
       (zero_pad 2 d ++ sep :: zero_pad 2 m ++ sep :: [a; b; c; e]) g k
  = Some x.
Proof.
  intros Hsep Hm Hd H.
  exact (@exec_day_month_then A sep m d a b c e g (fun s4 g4 => exec R s4 g4 k) x
           Hsep Hm Hd H).
Qed.

(** A format with the other separator stops at the first separator. *)
Lemma exec_day_other_separator {A} d (T : regex) s g
  (k : str -> groups -> option A) :
  (1 <= d <= 31)%N ->
  exec (Cat day_re (Cat (Chr (ieq 45%N)) T)) (zero_pad 2 d ++ 47%N :: s) g k = None.
Proof.
  intros Hd. apply day_cases in Hd. each_month Hd; vm_compute; reflexivity.
Qed.

Lemma exec_year_other_separator {A} a b c e (T : regex) s g
  (k : str -> groups -> option A) :
  exec (Cat year_re (Cat (Chr (ieq 45%N)) T)) (a :: b :: c :: e :: 47%N :: s) g k
  = None.
Proof.
  cbn [exec cats].
  destruct (isdecimal a), (isdecimal b), (isdecimal c), (isdecimal e); reflexivity.
Qed.

Lemma year_digits y :
  (y < 10000)%N ->
  exists a b c e,
    zero_pad 4 y = [a; b; c; e]
    /\ isdecimal a = true /\ isdecimal b = true /\ isdecimal c = true
    /\ isdecimal e = true.
Proof.
  intros H. pose proof (zero_pad_year H) as E. unfold ascii_digits in E.
  apply andb_true_iff in E. destruct E as (El & Ed). apply Nat.eqb_eq in El.
  destruct (zero_pad 4 y) as [|a [|b [|c [|e [|? ?]]]]]; try discriminate.
  simpl in Ed. rewrite !andb_true_iff in Ed.
  exists a, b, c, e. split; [reflexivity|].
  repeat split; apply ascii_digit_isdecimal; tauto.
Qed.

Lemma two_digits n :
  (n < 100)%N ->
  exists a b, zero_pad 2 n = [a; b] /\ isdecimal a = true /\ isdecimal b = true.
Proof.
  intros H. pose proof (zero_pad_two H) as E. unfold ascii_digits in E.
  apply andb_true_iff in E. destruct E as (El & Ed). apply Nat.eqb_eq in El.
  destruct (zero_pad 2 n) as [|a [|b [|? ?]]]; try discriminate.
  simpl in Ed. rewrite !andb_true_iff in Ed.
  exists a, b. split; [reflexivity|].
  split; apply ascii_digit_isdecimal; tauto.
Qed.

Lemma valid_date_bounds d :
  new_date (year d) (month d) (day d) = Ok d ->
  (1 <= year d <= 9999 /\ 1 <= month d <= 12 /\ 1 <= day d <= 31)%N.
Proof.
  unfold new_date. destruct (_ && _) eqn:E; [|discriminate]. intros _.
  rewrite !andb_true_iff, !N.leb_le in E.
  assert (days_in_month (year d) (month d) <= 31)%N.
  { unfold days_in_month.
    destruct (month d =? 2)%N; [destruct (is_leap (year d)); lia|].
    destruct (_ || _); lia. }
  lia.
Qed.

Lemma separator_plain sep :
  sep = 45%N \/ sep = 47%N ->
  isspace sep = false /\ (sep =? 37)%N = false /\ isdecimal sep = false
  /\ date_separator sep.
Proof.
  intros [->| ->]; repeat split; try reflexivity; unfold date_separator; auto.
Qed.

Lemma strptime_year_first d sep :
  new_date (year d) (month d) (day d) = Ok d ->
  sep = 45%N \/ sep = 47%N ->
  strptime (written_year_first d sep) (year_first_format sep) = Ok d.
Proof.
  intros Hd Hsep. destruct (@valid_date_bounds d Hd) as (Hy & Hm & Hdd).
  destruct (@separator_plain sep Hsep) as (H1 & H2 & _).
  unfold strptime. rewrite (@pattern_year_first sep H1 H2).
  unfold match_here, written_year_first.
  destruct (@year_digits (year d)) as (a & b & c & e & E & Ha & Hb & Hc & He); [lia|].
  rewrite E.
  change (exec (Cat year_re ?R) ?s ?g ?k)
    with (exec year_re s g (fun s1 g1 => exec R s1 g1 k)).
  cbn [app]. rewrite (@exec_year _ a b c e _ _ _ Ha Hb Hc He).
  rewrite (@exec_month_day sep (month d) (day d) _ Hsep Hm Hdd).
  cbn [group gY gm gd gB gb Nat.eqb bind]. rewrite <- E.
  rewrite int_zero_pad. cbn [bind].
  rewrite int_zero_pad. cbn [bind].
  rewrite int_zero_pad. cbn [bind]. exact Hd.
Qed.

Lemma strptime_day_first d sep :
  new_date (year d) (month d) (day d) = Ok d ->
  sep = 45%N \/ sep = 47%N ->
  strptime (written_day_first d sep) (day_first_format sep) = Ok d.
Proof.
  intros Hd Hsep. destruct (@valid_date_bounds d Hd) as (Hy & Hm & Hdd).
  destruct (@separator_plain sep Hsep) as (H1 & H2 & _).
  unfold strptime. rewrite (@pattern_day_first sep H1 H2).
  unfold match_here, written_day_first.
  destruct (@year_digits (year d)) as (a & b & c & e & E & Ha & Hb & Hc & He); [lia|].
  rewrite E. cbn [app].
  match goal with
  | |- context [exec ?r ?s ?g ?k] =>
    assert (Hx : exec r s g k
                 = Some ([], [(gY, [a; b; c; e]); (gm, zero_pad 2 (month d));
                              (gd, zero_pad 2 (day d))]))
  end.
  { apply (@exec_day_month _ sep (month d) (day d) (Cat year_re Eps) a b c e []
             (fun s' g' => Some (s', g')) _ Hsep Hm Hdd).
    change (exec (Cat year_re Eps) ?s ?g ?k)
      with (exec year_re s g (fun s1 g1 => exec Eps s1 g1 k)).
    rewrite (@exec_year _ a b c e _ _ _ Ha Hb Hc He). reflexivity. }
  rewrite Hx.
  cbn [group gY gm gd gB gb Nat.eqb bind]. rewrite <- E.
  rewrite int_zero_pad. cbn [bind].
  rewrite int_zero_pad. cbn [bind].
  rewrite int_zero_pad. cbn [bind]. exact Hd.
Qed.

(** The other numeric formats raise ValueError on them. *)
Lemma year_first_slash_fails_dash d :
  new_date (year d) (month d) (day d) = Ok d ->
  strptime (written_year_first d 47%N) (year_first_format 45%N)
  = Raise ValueError.
Proof.
  intros Hd. destruct (@valid_date_bounds d Hd) as (Hy & Hm & Hdd).
  unfold strptime. rewrite (@pattern_year_first 45%N) by reflexivity.
  unfold match_here, written_year_first.
  destruct (@year_digits (year d)) as (a & b & c & e & E & _); [lia|].
  rewrite E. cbn [app]. rewrite exec_year_other_separator. reflexivity.
Qed.

Lemma day_first_fails_year_first d sep sep' :
  new_date (year d) (month d) (day d) = Ok d ->
  sep = 45%N \/ sep = 47%N -> sep' = 45%N \/ sep' = 47%N ->
  strptime (written_day_first d sep) (year_first_format sep')
  = Raise ValueError.
Proof.
  intros Hd Hsep Hsep'. destruct (@valid_date_bounds d Hd) as (Hy & Hm & Hdd).
  destruct (@separator_plain sep Hsep) as (_ & _ & H3 & _).
  destruct (@separator_plain sep' Hsep') as (H1 & H2 & _).
  unfold strptime. rewrite (@pattern_year_first sep' H1 H2).
  unfold match_here, written_day_first.
  destruct (@two_digits (day d)) as (a & b & E & _); [lia|].
  rewrite E. cbn [app]. rewrite (@exec_year_stops _ a b sep _ _ _ _ H3). reflexivity.
Qed.

Lemma day_first_slash_fails_dash d :
  new_date (year d) (month d) (day d) = Ok d ->
  strptime (written_day_first d 47%N) (day_first_format 45%N)
  = Raise ValueError.
Proof.
  intros Hd. destruct (@valid_date_bounds d Hd) as (Hy & Hm & Hdd).
  unfold strptime. rewrite (@pattern_day_first 45%N) by reflexivity.
  unfold match_here, written_day_first. cbn [app].
  rewrite (@exec_day_other_separator _ (day d)) by exact Hdd. reflexivity.
Qed.

Lemma date_shape_starts_with_digit w :
  date_shape w -> exists c t, w = c :: t /\ isdecimal c = true.
Proof.
  intros H. destruct H as [y s1 m s2 d Hy _ _ _ _|d s1 m s2 y Hd _ _ _ _
                          |d b1 name b2 y Hl Hd _ _ _ _ _].
  - destruct Hy as (Hl & Hy). destruct y as [|c y]; [discriminate|].
    simpl in Hy. apply andb_true_iff in Hy. exists c. eexists. split; [reflexivity|tauto].
  - destruct Hd as (Hl & Hd). destruct d as [|c d]; [discriminate|].
    simpl in Hd. apply andb_true_iff in Hd. exists c. eexists. split; [reflexivity|tauto].
  - destruct d as [|c d]; [simpl in Hl; lia|].
    simpl in Hd. apply andb_true_iff in Hd. exists c. eexists. split; [reflexivity|tauto].
Qed.

Lemma app_inside {A} (c : A) : forall pre' pre X Y,
  pre ++ X = pre' ++ c :: Y -> length pre' < length pre -> In c pre.
Proof.
  induction pre' as [|q pre' IH]; intros [|p pre] X Y H Hl; simpl in *; try lia.
  - inversion H. auto.
  - inversion H. right. eapply IH; eauto. lia.
Qed.

(** After text without digits, the first date shape is the one found. *)
Lemma search_date_after_text pre w post :
  Forall (fun c => isdecimal c = false) pre -> date_shape w ->
  exists m, search DATE_REGEX (pre ++ w ++ post) = Some m /\ m_text m = w.
Proof.
  intros Hpre Hw. unfold search.
  destruct (search_from DATE_REGEX (pre ++ w ++ post) 0) as [m|] eqn:E.
  - exists m. split; [reflexivity|].
    destruct (search_from_sound _ _ _ E) as (pre' & rest' & Hs & _ & L & Hleft).
    apply lang_date_regex in L.
    assert (Hle : length pre' <= length pre).
    { eapply Hleft; [reflexivity|]. apply lang_date_regex. exact Hw. }
    destruct (Nat.eq_dec (length pre') (length pre)) as [Heq|Hne].
    + destruct (app_same_length _ _ _ _ Hs (eq_sym Heq)) as [_ Hrest].
      symmetry. eapply date_shape_unique; eauto.
    + exfalso. destruct (date_shape_starts_with_digit L) as (c & t & Hc & Hdec).
      rewrite Hc in Hs. simpl in Hs.
      assert (Hin : In c pre) by (eapply app_inside; [exact Hs|lia]).
      rewrite Forall_forall in Hpre. rewrite (Hpre c Hin) in Hdec. discriminate.
  - exfalso. eapply search_from_none; [exact E|reflexivity|].
    apply lang_date_regex. exact Hw.
Qed.

Lemma digits_of_ascii n w : ascii_digits n w = true -> digits n w.
Proof.
  unfold ascii_digits, digits. rewrite andb_true_iff, Nat.eqb_eq.
  intros (Hl & Hd). split; [exact Hl|]. apply ascii_digits_isdecimal. exact Hd.
Qed.

Lemma written_year_first_shape d sep :
  new_date (year d) (month d) (day d) = Ok d -> sep = 45%N \/ sep = 47%N ->
  date_shape (written_year_first d sep).
Proof.
  intros Hd Hsep. destruct (@valid_date_bounds d Hd) as (Hy & Hm & Hdd).
  destruct (@separator_plain sep Hsep) as (_ & _ & _ & Hs).
  unfold written_year_first.
  apply year_first; auto; apply digits_of_ascii;
    (apply zero_pad_year || apply zero_pad_two); lia.
Qed.

Lemma written_day_first_shape d sep :
  new_date (year d) (month d) (day d) = Ok d -> sep = 45%N \/ sep = 47%N ->
  date_shape (written_day_first d sep).
Proof.
  intros Hd Hsep. destruct (@valid_date_bounds d Hd) as (Hy & Hm & Hdd).
  destruct (@separator_plain sep Hsep) as (_ & _ & _ & Hs).
  unfold written_day_first.
  apply day_first; auto; apply digits_of_ascii;
    (apply zero_pad_year || apply zero_pad_two); lia.
Qed.

Lemma formats_spelled :
  DATE_FORMATS
  = year_first_format 45%N :: year_first_format 47%N
    :: day_first_format 45%N :: day_first_format 47%N
    :: map u ["%d %B %Y"; "%d %b %Y"]%string.
Proof. reflexivity. Qed.

(** A date written year first, with dashes or with slashes, after text
    without digits: it is found, whatever follows it, and comes back in ISO
    form.  Written with dashes it comes back as it is written. *)
Theorem extract_date_reads_year_first (pre post : str) (d : date) (sep : cp) :
  new_date (year d) (month d) (day d) = Ok d ->
  sep = 45%N \/ sep = 47%N ->
  Forall (fun c => isdecimal c = false) pre ->
  extract_date (pre ++ written_year_first d sep ++ post) = Ok (Some (isoformat d))
  /\ written_year_first d 45%N = isoformat d.
Proof.
  intros Hd Hsep Hpre. split; [|reflexivity]. unfold extract_date.
  destruct (@search_date_after_text pre (written_year_first d sep) post Hpre
              (written_year_first_shape Hd Hsep)) as (m & -> & Hm).
  change (m_group 0 m) with (m_text m). rewrite Hm, formats_spelled.
  destruct Hsep as [->| ->]; cbn [try_formats].
  - rewrite (@strptime_year_first d 45%N Hd) by auto. reflexivity.
  - rewrite (@year_first_slash_fails_dash d Hd).
    rewrite (@strptime_year_first d 47%N Hd) by auto. reflexivity.
Qed.

(** A date written day first, with dashes or with slashes, is read day
    first: 01/05/2024 is the first of May, and never the fifth of January. *)
Theorem extract_date_reads_day_first (pre post : str) (d : date) (sep : cp) :
  new_date (year d) (month d) (day d) = Ok d ->
  sep = 45%N \/ sep = 47%N ->
  Forall (fun c => isdecimal c = false) pre ->
  extract_date (pre ++ written_day_first d sep ++ post) = Ok (Some (isoformat d)).
Proof.
  intros Hd Hsep Hpre. unfold extract_date.
  destruct (@search_date_after_text pre (written_day_first d sep) post Hpre
              (written_day_first_shape Hd Hsep)) as (m & -> & Hm).
  change (m_group 0 m) with (m_text m). rewrite Hm, formats_spelled.
  cbn [try_formats].
  rewrite (@day_first_fails_year_first d sep 45%N Hd Hsep) by auto.
  rewrite (@day_first_fails_year_first d sep 47%N Hd Hsep) by auto.
  destruct Hsep as [->| ->].
  - rewrite (@strptime_day_first d 45%N Hd) by auto. reflexivity.
  - rewrite (@day_first_slash_fails_dash d Hd).
    rewrite (@strptime_day_first d 47%N Hd) by auto. reflexivity.
Qed.

End DateRoundTrip.

Lemma extract_date_reads_year_first_witness :
  new_date 2024 5 1 = Ok (mkDate 2024 5 1)
  /\ (47%N = 45%N \/ 47%N = 47%N)
  /\ Forall (fun c => isdecimal c = false) (u "Date: ")
  /\ extract_date (u "Date: " ++ written_year_first (mkDate 2024 5 1) 47%N ++ u " 10:15")
     = Ok (Some (isoformat (mkDate 2024 5 1)))
  /\ written_year_first (mkDate 2024 5 1) 45%N = isoformat (mkDate 2024 5 1).
Proof.
  assert (H1 : new_date 2024 5 1 = Ok (mkDate 2024 5 1)) by reflexivity.
  assert (H2 : 47%N = 45%N \/ 47%N = 47%N) by (right; reflexivity).
  assert (H3 : Forall (fun c => isdecimal c = false) (u "Date: "))
    by (repeat constructor).
  split; [exact H1|]. split; [exact H2|]. split; [exact H3|].
  exact (@extract_date_reads_year_first (u "Date: ") (u " 10:15")
           (mkDate 2024 5 1) 47%N H1 H2 H3).
Defined.

Lemma extract_date_reads_day_first_witness :
  new_date 2024 5 1 = Ok (mkDate 2024 5 1)
  /\ (47%N = 45%N \/ 47%N = 47%N)
  /\ Forall (fun c => isdecimal c = false) (u "Date: ")
  /\ extract_date (u "Date: " ++ written_day_first (mkDate 2024 5 1) 47%N ++ u "5 pm")
     = Ok (Some (isoformat (mkDate 2024 5 1))).
Proof.
  assert (H1 : new_date 2024 5 1 = Ok (mkDate 2024 5 1)) by reflexivity.
  assert (H2 : 47%N = 45%N \/ 47%N = 47%N) by (right; reflexivity).
  assert (H3 : Forall (fun c => isdecimal c = false) (u "Date: "))
    by (repeat constructor).
  split; [exact H1|]. split; [exact H2|]. split; [exact H3|].
  exact (@extract_date_reads_day_first (u "Date: ") (u "5 pm")
           (mkDate 2024 5 1) 47%N H1 H2 H3).
Defined.

(** ** The date heuristic, format by format *)

Section DateFormats.

Open Scope string_scope.
Open Scope list_scope.
Open Scope nat_scope.

Lemma separator_cases sep : date_separator sep -> sep = 45%N \/ sep = 47%N.
Proof. unfold date_separator. tauto. Qed.

(** A valid date written year first is parsed by the first format with its
    separator, and one written day first by the third or the fourth. *)
Lemma try_formats_year_first d sep :
  new_date (year d) (month d) (day d) = Ok d -> date_separator sep ->
  try_formats (written_year_first d sep) DATE_FORMATS = Ok (isoformat d).
Proof.
  intros Hd Hsep. apply separator_cases in Hsep.
  rewrite formats_spelled. destruct Hsep as [->| ->]; cbn [try_formats].
  - rewrite (@strptime_year_first d 45%N Hd) by auto. reflexivity.
  - rewrite (@year_first_slash_fails_dash d Hd).
    rewrite (@strptime_year_first d 47%N Hd) by auto. reflexivity.
Qed.

Lemma try_formats_day_first d sep :
  new_date (year d) (month d) (day d) = Ok d -> date_separator sep ->
  try_formats (written_day_first d sep) DATE_FORMATS = Ok (isoformat d).
Proof.
  intros Hd Hsep. apply separator_cases in Hsep.
  rewrite formats_spelled. cbn [try_formats].
  rewrite (@day_first_fails_year_first d sep 45%N Hd Hsep) by auto.
  rewrite (@day_first_fails_year_first d sep 47%N Hd Hsep) by auto.
  destruct Hsep as [->| ->].
  - rewrite (@strptime_day_first d 45%N Hd) by auto. reflexivity.
  - rewrite (@day_first_slash_fails_dash d Hd).
    rewrite (@strptime_day_first d 47%N Hd) by auto. reflexivity.
Qed.

(** C5.  [extract_date] never raises.  It returns None exactly when no part
    of the text has a date shape.  Otherwise it takes the leftmost part of
    the text with a date shape (the only one that starts there) and tries on
    it, in this order, the formats %Y-%m-%d, %Y/%m/%d, %d-%m-%Y, %d/%m/%Y,
    %d %B %Y and %d %b %Y: it returns the ISO form (YYYY-MM-DD) of the date
    that the first format able to parse that part yields, or that part
    itself when every format fails on it.  In particular a valid date
    written in figures with one separator, year first or day first, comes
    back as that date in ISO form: 01/05/2024 is read day first and gives
    2024-05-01. *)
Theorem extract_date_first_match_first_format (text : str) :
  let formats := map u ["%Y-%m-%d"; "%Y/%m/%d"; "%d-%m-%Y"; "%d/%m/%Y";
                        "%d %B %Y"; "%d %b %Y"] in
  match extract_date text with
  | Raise _ => False
  | Ok None =>
    forall pre w post, text = pre ++ w ++ post -> ~ date_shape w
  | Ok (Some out) =>
    exists pre raw post,
      text = pre ++ raw ++ post /\ date_shape raw
      /\ (forall pre' w' post',
            text = pre' ++ w' ++ post' -> date_shape w' ->
            length pre <= length pre' /\ (length pre' = length pre -> w' = raw))
      /\ ((exists tried fmt later d,
             formats = tried ++ fmt :: later /\ Forall (fails raw) tried
             /\ strptime raw fmt = Ok d /\ out = isoformat d /\ iso_shaped out)
          \/ (Forall (fails raw) formats /\ out = raw))
      /\ (forall d sep,
            new_date (year d) (month d) (day d) = Ok d -> date_separator sep ->
            raw = written_year_first d sep \/ raw = written_day_first d sep ->
            out = isoformat d)
  end.
Proof.
  intros formats.
  assert (Hformats : formats = DATE_FORMATS) by reflexivity.
  rewrite Hformats. clear formats Hformats.
  unfold extract_date. destruct (search DATE_REGEX text) as [m|] eqn:E.
  - unfold search in E.
    destruct (search_from_sound _ _ _ E) as (pre & post & Hs & _ & L & Hleft).
    change (m_group 0 m) with (m_text m).
    apply lang_date_regex in L.
    assert (Hfirst : forall pre' w' post',
              text = pre' ++ w' ++ post' -> date_shape w' ->
              length pre <= length pre'
              /\ (length pre' = length pre -> w' = m_text m)).
    { intros pre' w' post' Hs' Hw'. split.
      - eapply Hleft; eauto. apply lang_date_regex; auto.
      - intros Hlen. rewrite Hs in Hs'.
        destruct (app_same_length _ _ _ _ Hs' (eq_sym Hlen)) as [_ Hw].
        symmetry. eapply date_shape_unique; eauto. }
    assert (Hfigures : forall out d sep,
              try_formats (m_text m) DATE_FORMATS = Ok out ->
              new_date (year d) (month d) (day d) = Ok d -> date_separator sep ->
              m_text m = written_year_first d sep \/ m_text m = written_day_first d sep ->
              out = isoformat d).
    { intros out d sep Ht Hd Hsep [Hraw|Hraw]; rewrite Hraw in Ht.
      - rewrite (@try_formats_year_first d sep Hd Hsep) in Ht. congruence.
      - rewrite (@try_formats_day_first d sep Hd Hsep) in Ht. congruence. }
    destruct (try_formats_result (m_text m) DATE_FORMATS)
      as [(tried & f & later & d & Hf & Ht & Hp & Hr)|[Hall Hr]];
      pose proof Hr as Hr'; rewrite Hr; simpl.
    + exists pre, (m_text m), post. split; [auto|]. split; [auto|].
      split; [exact Hfirst|]. split.
      * left. exists tried, f, later, d. repeat split; auto.
        apply isoformat_shape. eapply strptime_valid; eauto.
      * intros d' sep. apply Hfigures. exact Hr'.
    + exists pre, (m_text m), post. split; [auto|]. split; [auto|].
      split; [exact Hfirst|]. split; [right; auto|].
      intros d' sep. apply Hfigures. exact Hr'.
  - intros pre w post Hs Hw.
    eapply search_from_none; [exact E|exact Hs|]. apply lang_date_regex; auto.
Qed.

End DateFormats.

(** The examples of the heuristic: a date in ISO form already, one read day
    first, one with the name of the month, a match that no format parses,
    and a text without a date. *)
Lemma extract_date_first_match_first_format_witness :
  extract_date (u "2024-05-01") = Ok (Some (u "2024-05-01"))
  /\ extract_date (u "01/05/2024") = Ok (Some (u "2024-05-01"))
  /\ extract_date (u "Paid on 7 March 2023, thanks") = Ok (Some (u "2023-03-07"))
  /\ extract_date (u "3 sept 2021") = Ok (Some (u "3 sept 2021"))
  /\ extract_date (u "due 2024-05/01") = Ok (Some (u "2024-05/01"))
  /\ extract_date (u "31/02/2024") = Ok (Some (u "31/02/2024"))
  /\ extract_date (u "no date here") = Ok None
  /\ new_date 2024 5 1 = Ok (mkDate 2024 5 1)
  /\ u "01/05/2024" = written_day_first (mkDate 2024 5 1) 47%N
  /\ exists pre raw post,
       u "01/05/2024" = pre ++ raw ++ post /\ date_shape raw
       /\ (forall d sep,
             new_date (year d) (month d) (day d) = Ok d -> date_separator sep ->
             raw = written_year_first d sep \/ raw = written_day_first d sep ->
             u "2024-05-01" = isoformat d).
Proof.
  assert (E : extract_date (u "01/05/2024") = Ok (Some (u "2024-05-01")))
    by (vm_compute; reflexivity).
  split; [vm_compute; reflexivity|]. split; [exact E|].
  split; [vm_compute; reflexivity|]. split; [vm_compute; reflexivity|].
  split; [vm_compute; reflexivity|]. split; [vm_compute; reflexivity|].
  split; [vm_compute; reflexivity|].
  split; [reflexivity|]. split; [reflexivity|].
  pose proof (extract_date_first_match_first_format (u "01/05/2024")) as H.
  cbv zeta in H. rewrite E in H.
  destruct H as (pre & raw & post & Hs & Hshape & _ & _ & Hfig).
  exists pre, raw, post. split; [exact Hs|]. split; [exact Hshape|exact Hfig].
Defined.

(** ** Floats that are not negative *)

Section SignFacts.

Import SpecFloat FloatOps.

Lemma binary_round_aux_not_negative mx ex lx :
  not_negative (binary_round_aux prec emax false mx ex lx).
Proof.
  unfold binary_round_aux.
  destruct (shr_fexp prec emax mx ex lx) as (mrs' & e').
  destruct (shr_fexp prec emax _ e' loc_Exact) as (mrs'' & e'').
  destruct (shr_m mrs''); simpl; auto.
  destruct (Z.leb e'' _); simpl; auto.
Qed.

Lemma binary_round_not_negative mx ex :
  not_negative (binary_round prec emax false mx ex).
Proof.
  unfold binary_round. destruct (shl_align _ _ _) as (mz & ez).
  apply binary_round_aux_not_negative.
Qed.

Lemma of_uint63_not_negative i :
  not_negative (Prim2SF (PrimFloat.of_uint63 i)).
Proof.
  rewrite FloatAxioms.of_uint63_spec. unfold binary_normalize.
  pose proof (to_Z_rec_not_negative Uint63Axioms.size i) as H.
  fold (Uint63Axioms.to_Z i) in H.
  destruct (Uint63Axioms.to_Z i); simpl; auto.
  - apply binary_round_not_negative.
  - lia.
Qed.

Lemma ldexp_not_negative f e :
  not_negative (Prim2SF f) -> not_negative (Prim2SF (Z.ldexp f e)).
Proof.
  intros H. unfold Z.ldexp. rewrite FloatAxioms.ldshiftexp_spec.
  unfold SFldexp. destruct (Prim2SF f); simpl in *; auto.
  subst. apply binary_round_not_negative.
Qed.

Lemma mul_not_negative x y :
  not_negative (Prim2SF x) -> not_negative (Prim2SF y) ->
  not_negative (Prim2SF (PrimFloat.mul x y)).
Proof.
  intros Hx Hy. rewrite FloatAxioms.mul_spec. unfold FloatAxioms.SF64mul, SFmul.
  destruct (Prim2SF x), (Prim2SF y); simpl in *; subst; auto.
  apply binary_round_aux_not_negative.
Qed.

(** A float that is not negative is not below the int 0. *)
Lemma not_negative_not_below_zero y :
  not_negative (Prim2SF y) -> Battery.float_lt_int y 0 = false.
Proof.
  intros H. unfold Battery.float_lt_int, Battery.exact.
  destruct (Prim2SF y) as [s|s| |s m e] eqn:E; simpl in H.
  - reflexivity.
  - subst s. rewrite FloatAxioms.ltb_spec, E. reflexivity.
  - rewrite FloatAxioms.ltb_spec, E. reflexivity.
  - subst s. destruct (0 <=? e)%Z.
    + apply Z.ltb_ge. apply Z.mul_nonneg_nonneg; [lia|].
      apply Z.pow_nonneg. lia.
    + reflexivity.
Qed.

Lemma round_half_even_not_negative num den :
  (0 <= num)%Z -> (0 < den)%Z -> (0 <= Battery.round_half_even num den)%Z.
Proof.
  intros Hn Hd. unfold Battery.round_half_even.
  assert (0 <= num / den)%Z by (apply Z.div_pos; lia).
  destruct (2 * (num mod den) ?= den)%Z; [destruct (Z.even _)| |]; lia.
Qed.

Lemma nearest_not_negative num den :
  not_negative (Prim2SF (Battery.nearest num den)).
Proof.
  unfold Battery.nearest.
  destruct (Battery.scaled num den _) as (n & d).
  apply ldexp_not_negative. apply of_uint63_not_negative.
Qed.

(** Rounding keeps a float from going below zero. *)
Lemma round_not_negative x ndigits :
  not_negative (Prim2SF x) -> (0 <= ndigits)%Z ->
  Battery.float_lt_int (Battery.round x ndigits) 0 = false.
Proof.
  intros Hx Hnd. unfold Battery.round.
  destruct (Battery.exact x) as [(m, e)|] eqn:Ex.
  - assert (Hm : (0 <= m)%Z).
    { unfold Battery.exact in Ex.
      destruct (Prim2SF x) as [s|s| |s m' e']; simpl in Hx; try discriminate.
      - injection Ex as <- <-. lia.
      - subst s. injection Ex as <- <-. lia. }
    assert (Hp : (0 < 10 ^ ndigits)%Z) by (apply Z.pow_pos_nonneg; lia).
    match goal with
    | |- context [match ?n with Z0 => _ | Zpos _ => _ | Zneg _ => _ end] =>
      assert (Hn : (0 <= n)%Z); [|destruct n as [|q|q] eqn:En]
    end.
    + destruct (0 <=? e)%Z eqn:Ee.
      * apply Z.mul_nonneg_nonneg; [|lia].
        apply Z.mul_nonneg_nonneg; [lia|]. apply Z.pow_nonneg. lia.
      * apply round_half_even_not_negative.
        -- apply Z.mul_nonneg_nonneg; lia.
        -- apply Z.pow_pos_nonneg; [lia|]. apply Z.leb_gt in Ee. lia.
    + destruct (PrimFloat.get_sign x); reflexivity.
    + apply not_negative_not_below_zero. apply nearest_not_negative.
    + lia.
  - apply not_negative_not_below_zero. exact Hx.
Qed.

(** A register that is not negative, scaled and rounded, is not below
    zero. *)
Lemma scaled_register_not_negative raw scale ndigits :
  (0 <= raw)%Z -> not_negative (Prim2SF scale) -> (0 <= ndigits)%Z ->
  Battery.lt (Battery.PyFloat
                (Battery.round (PrimFloat.mul (Battery.of_int raw) scale) ndigits))
             (Battery.PyInt 0) = false.
Proof.
  intros H Hs Hnd. cbn [Battery.lt]. apply round_not_negative; [|exact Hnd].
  apply mul_not_negative; [|exact Hs].
  destruct raw; try lia; apply of_uint63_not_negative.
Qed.

End SignFacts.

(** ** The battery monitor *)

Section BatteryFacts.

Open Scope list_scope.
Open Scope nat_scope.

Lemma all_from_spec f fuel : forall z,
  all_from f fuel z = true ->
  forall x, (z <= x < z + Z.of_nat fuel)%Z -> f x = true.
Proof.
  induction fuel as [|fuel IH]; intros z H x Hx; [lia|].
  cbn [all_from] in H. apply andb_true_iff in H. destruct H as (Hz & H).
  destruct (Z.eq_dec x z) as [->|Hne]; [exact Hz|].
  apply (IH (z + 1)%Z H). lia.
Qed.

(** The current register is an unsigned word, so the current is never
    negative and the status never says that the battery is charging. *)
Theorem status_never_reports_charging
  (has_bus : bool) (words : option Z * option Z) :
  (forall raw, snd words = Some raw -> (0 <= raw < 65536)%Z) ->
  Battery.charging (Battery.status has_bus words) = false.
Proof.
  intros H. destruct words as (w2 & [raw|]); destruct has_bus; try reflexivity.
  specialize (H raw eq_refl).
  cbn [Battery.status Battery.charging Battery.read_current snd].
  apply scaled_register_not_negative; [lia| |lia].
  vm_compute. reflexivity.
Qed.

Lemma all_readings (f : Z -> bool) :
  all_from f (N.to_nat 8192) 0 = true ->
  forall raw, (0 <= raw < 65536)%Z -> f (Z.shiftr raw 3) = true.
Proof.
  intros H raw Hraw. apply (@all_from_spec f (N.to_nat 8192) 0%Z H).
  rewrite N_nat_Z, Z.shiftr_div_pow2 by lia.
  change (2 ^ 3)%Z with 8%Z. change (Z.of_N 8192) with 8192%Z.
  split; [apply Z.div_pos; lia|].
  apply Z.div_lt_upper_bound; lia.
Qed.

(** What the monitor makes of a reading of the voltage register. *)
Lemma percentage_of_reading (raw : Z) (w4 : option Z) :
  Battery.percentage (Battery.status true (Some raw, w4))
  = Battery.estimate_percentage
      (Battery.read_voltage true (Some (Z.shiftr raw 3 * 8)%Z)).
Proof.
  cbn [Battery.status Battery.percentage Battery.read_voltage fst].
  replace (Z.shiftr (Z.shiftr raw 3 * 8) 3) with (Z.shiftr raw 3); [reflexivity|].
  rewrite (Z.shiftr_div_pow2 (Z.shiftr raw 3 * 8)) by lia.
  change (2 ^ 3)%Z with 8%Z. rewrite Z.div_mul by lia. reflexivity.
Qed.

(** The percentage of a reading lies between 0 and 100.  It is 0 up to
    3.300 V (a register of at most 825 units of 4 mV) and 100 from 4.200 V
    (1050 units); and it is at most 10, the threshold of the shutdown,
    exactly up to 3.388 V (847 units). *)
Theorem percentage_of_a_reading_is_bounded (raw : Z) (w4 : option Z) :
  (0 <= raw < 65536)%Z ->
  exists p,
    Battery.percentage (Battery.status true (Some raw, w4)) = Some p
    /\ Battery.le (Battery.PyInt 0) p = true
    /\ Battery.le p (Battery.PyInt 100) = true
    /\ ((Z.shiftr raw 3 <= 825)%Z -> p = Battery.PyInt 0)
    /\ ((1050 <= Z.shiftr raw 3)%Z -> p = Battery.PyInt 100)
    /\ (Battery.le p (Battery.PyInt Battery.SHUTDOWN_THRESHOLD) = true
        <-> (Z.shiftr raw 3 <= 847)%Z).
Proof.
  intros Hraw. rewrite percentage_of_reading.
  set (k := Z.shiftr raw 3).
  pose (f := fun k =>
      match Battery.estimate_percentage
              (Battery.read_voltage true (Some (k * 8)%Z)) with
      | Some p =>
        Battery.le (Battery.PyInt 0) p && Battery.le p (Battery.PyInt 100)
        && (negb (k <=? 825)%Z
            || match p with Battery.PyInt 0 => true | _ => false end)
        && (negb (1050 <=? k)%Z
            || match p with Battery.PyInt 100 => true | _ => false end)
        && Bool.eqb (Battery.le p (Battery.PyInt Battery.SHUTDOWN_THRESHOLD))
                    (k <=? 847)%Z
      | None => false
      end).
  assert (E : f k = true).
  { apply (@all_readings f); [vm_compute; reflexivity|exact Hraw]. }
  unfold f in E. clear f.
  destruct (Battery.estimate_percentage _) as [p|]; [|discriminate].
  rewrite !andb_true_iff in E. destruct E as ((((H0 & H100) & Hlow) & Hhigh) & Hcut).
  exists p. split; [reflexivity|]. split; [exact H0|]. split; [exact H100|].
  split; [|split].
  - intros Hk. apply Z.leb_le in Hk. rewrite Hk in Hlow. simpl in Hlow.
    destruct p as [[| |]|]; try discriminate. reflexivity.
  - intros Hk. apply Z.leb_le in Hk. rewrite Hk in Hhigh. simpl in Hhigh.
    destruct p as [[|q|]|]; try discriminate.
    destruct q as [q|q|]; try discriminate.
    destruct q as [q|q|]; try discriminate.
    destruct q as [q|q|]; try discriminate.
    destruct q as [q|q|]; try discriminate.
    destruct q as [q|q|]; try discriminate.
    destruct q as [q|q|]; try discriminate.
    destruct q as [q|q|]; try discriminate. reflexivity.
  - apply eqb_prop in Hcut. rewrite Hcut. apply Z.leb_le.
Qed.

Section Loop.

Variable has_bus : bool.
Variables interval threshold : Z.

Local Abbreviation loop := (Battery.monitor_loop has_bus interval threshold).



End Loop.

(** Without the smbus module there is nothing to read: every status is
    empty, and the monitor never shuts the system down, whatever the
    threshold. *)
Theorem monitor_without_bus_never_shuts_down
  (interval threshold : Z) (readings : list (option Z * option Z)) :
  Battery.monitor_loop false interval threshold readings
  = (flat_map (fun _ => [Battery.Log (Battery.mkBatteryStatus None None None false);
                         Battery.Sleep interval]) readings,
     false).
Proof.
  induction readings as [|words readings IH]; [reflexivity|].
  cbn [Battery.monitor_loop Battery.status Battery.percentage Battery.read_voltage
       Battery.read_current Battery.estimate_percentage flat_map app].
  rewrite IH. reflexivity.
Qed.

End BatteryFacts.

Lemma status_never_reports_charging_witness :
  (forall raw, snd (Some 27104%Z, Some 65535%Z) = Some raw -> (0 <= raw < 65536)%Z)
  /\ Battery.charging (Battery.status true (Some 27104%Z, Some 65535%Z)) = false.
Proof.
  assert (H : forall raw, snd (Some 27104%Z, Some 65535%Z) = Some raw ->
                          (0 <= raw < 65536)%Z).
  { intros raw [= <-]. lia. }
  split; [exact H|].
  exact (@status_never_reports_charging true (Some 27104%Z, Some 65535%Z) H).
Defined.

Lemma percentage_of_a_reading_is_bounded_witness :
  (0 <= 6783 < 65536)%Z
  /\ exists p,
       Battery.percentage (Battery.status true (Some 6783%Z, None)) = Some p
       /\ Battery.le (Battery.PyInt 0) p = true
       /\ Battery.le p (Battery.PyInt 100) = true
       /\ ((Z.shiftr 6783 3 <= 825)%Z -> p = Battery.PyInt 0)
       /\ ((1050 <= Z.shiftr 6783 3)%Z -> p = Battery.PyInt 100)
       /\ (Battery.le p (Battery.PyInt Battery.SHUTDOWN_THRESHOLD) = true
           <-> (Z.shiftr 6783 3 <= 847)%Z).
Proof.
  assert (H : (0 <= 6783 < 65536)%Z) by lia.
  split; [exact H|].
  exact (@percentage_of_a_reading_is_bounded 6783%Z None H).
Defined.
